(** * Spectral norm with worker threads: a model of [src/index.ts]

    The program computes the spectral norm benchmark with one coordinator
    (the main thread) and a pool of worker threads that share one
    [SharedArrayBuffer].  This file embeds the program in Rocq and proves
    what its specification says about it.

    Conventions of the embedding.

    - A JavaScript number that the program uses as an index, a length or a
      count is an integer-valued double.  It is modelled by [Z]: the sums
      and the products of startup stay far below [2^53] (every index is
      bounded by the length of a typed array, and a buffer has at most
      [2^53 - 1] bytes), so they are exact.  The one product that can
      leave the exact range, inside [a], is rounded the way a double is
      ([round53]).
    - The problem size [n] and what is derived from it ([chunk], [start],
      [end]) can also be [NaN], which is what unary plus yields for a
      missing or non-numeric argument: type [number].  A size with a
      fractional part is outside the model.
    - The entries of the vectors are doubles: Rocq's primitive binary64
      floats ([float]), so the model computes the same bits as the program.
    - The shared buffer is one list of doubles; a [Float64Array] is a view
      (byte offset and length) on it. *)

From Stdlib Require Import ZArith Lia Floats Uint63.
From stdpp Require Import base tactics option list strings pretty.

Local Open Scope Z_scope.

(** ** Numbers *)

(** Rounding of an integer to the nearest double, ties to even: what a
    double operation returns when its exact result is the integer [z].
    Integers below [2^53] in magnitude are doubles already. *)
Definition round53 (z : Z) : Z :=
  let m := Z.abs z in
  if m <? 2 ^ 53 then z
  else
    let e := Z.log2 m - 52 in
    let q := m / 2 ^ e in
    let r := m mod 2 ^ e in
    let h := 2 ^ (e - 1) in
    let q' := if r <? h then q
              else if h <? r then q + 1
              else if Z.even q then q else q + 1 in
    Z.sgn z * (q' * 2 ^ e).

(** [x * y] on integer-valued doubles. *)
Definition num_mul (x y : Z) : Z := round53 (x * y).

(** [ToUint32] of an integer-valued double: the value modulo [2^32]. *)
Definition ToUint32 (x : Z) : Z := x mod 2 ^ 32.

(** [x >>> k]: the left operand goes through [ToUint32], the shift count
    is taken modulo 32. *)
Definition ushr (x k : Z) : Z := Z.shiftr (ToUint32 x) (k mod 32).

(** The integer [z], of magnitude below [2^63], as a double (rounded when
    it is not one). *)
Definition Z2F (z : Z) : float :=
  if z <? 0 then (- PrimFloat.of_uint63 (Uint63.of_Z (- z)))%float
  else PrimFloat.of_uint63 (Uint63.of_Z z).

(** The integer value of a double that holds an integer; [None] for NaN,
    the infinities and doubles with a fractional part. *)
Definition F2Z (x : float) : option Z :=
  match Prim2SF x with
  | S754_zero _ => Some 0
  | S754_finite s m e =>
      let v := if 0 <=? e then Z.pos m * 2 ^ e else Z.pos m / 2 ^ (- e) in
      if (0 <=? e) || (Z.pos m mod 2 ^ (- e) =? 0)
      then Some (if s then - v else v) else None
  | _ => None
  end.

(** ** The implicit matrix (lines 182-184) *)

(** [function a(i, j) { return ((i + j) * (i + j + 1) >>> 1) + i + 1; }]
    [*] and [+] bind tighter than [>>>]. *)
Definition a (i j : Z) : Z := ushr (num_mul (i + j) (i + j + 1)) 1 + i + 1.

(** The triangular number of the specification. *)
Definition triangular (k : Z) : Z := k * (k + 1) / 2.

(** The matrix entry as the specification words it:
    [1.0 / (triangular(i+j) + i + 1)]. *)
Definition spec_entry (i j : Z) : float :=
  (1 / Z2F (triangular (i + j) + i + 1))%float.

(** ** Sizes that may be missing *)

(** The numbers the program derives from its argument: an integer, or
    [NaN] ([+undefined], [+"abc"]).  An argument with a fractional part is
    not represented: the statements about runs are about an integer [n]
    or a missing one.  (For [prog 1.1] the byte lengths and offsets are
    truncated: the buffer has 26 bytes, the views [u] and [v] of lines
    60-61 start at bytes 0 and 8, and the third view of line 140 would
    start at byte 17, which is not a multiple of 8, so [new Float64Array]
    throws a [RangeError] in every worker.) *)
Inductive number : Type :=
| Int (z : Z)
| NaN.

(** [k * x], [x + y] and [x > y]; every comparison with [NaN] is false. *)
Definition num_times (k : Z) (x : number) : number :=
  match x with Int z => Int (k * z) | NaN => NaN end.

Definition num_plus (x y : number) : number :=
  match x, y with Int p, Int q => Int (p + q) | _, _ => NaN end.

Definition num_gt (x y : number) : bool :=
  match x, y with Int p, Int q => q <? p | _, _ => false end.

(** [Math.ceil(x / d)] for a count [d].  With [d = 0] the quotient is an
    infinity or [NaN]; the only reader of the result is then a loop
    without iterations, and the model says [NaN]. *)
Definition ceil_div (x : number) (d : Z) : number :=
  match x with
  | Int z => if d =? 0 then NaN else Int (- (- z / d))
  | NaN => NaN
  end.

(** The values [i] takes in [for (let i = lo; i < hi; i++)]: none when a
    bound is [NaN], since [i < hi] is false at once. *)
Definition upto (lo hi : number) : list Z :=
  match lo, hi with
  | Int l, Int h => seqZ l (h - l)
  | _, _ => []
  end.

(** [ToIndex]: [NaN] becomes 0; a value outside [0 .. 2^53 - 1] is a
    [RangeError] ([None]). *)
Definition ToIndex (x : number) : option Z :=
  match x with
  | NaN => Some 0
  | Int z => if (0 <=? z) && (z <=? 2 ^ 53 - 1) then Some z else None
  end.

(** ** The shared buffer and its views (lines 50, 59-61, 137-141) *)

Definition bytesPerFloat : Z := 8.

(** A [SharedArrayBuffer] handle.  The doubles it holds live in the state
    of the system, as a list with [byteLength / 8] entries. *)
Record SharedArrayBuffer : Type := { byteLength : Z }.

(** [new SharedArrayBuffer(length)]: zero-filled; a [RangeError] ([None])
    when [ToIndex] rejects the length. *)
Definition new_SharedArrayBuffer (size : number)
  : option (SharedArrayBuffer * list float) :=
  l ← ToIndex size;
  Some ({| byteLength := l |}, replicate (Z.to_nat (l / bytesPerFloat)) 0%float).

(** A [Float64Array] on the shared buffer. *)
Record Float64Array : Type := { byteOffset : Z; len : Z }.

(** [new Float64Array(buffer, byteOffset, length)]: a [RangeError] when the
    offset is not a multiple of 8 or the view does not fit in the buffer. *)
Definition new_Float64Array (buffer : SharedArrayBuffer)
    (offset size : number) : option Float64Array :=
  off ← ToIndex offset;
  l ← ToIndex size;
  if (off mod bytesPerFloat =? 0) && (off + l * bytesPerFloat <=? byteLength buffer)
  then Some {| byteOffset := off; len := l |}
  else None.

Definition in_view (x : Float64Array) (i : Z) : bool :=
  (0 <=? i) && (i <? len x).

Definition slot (x : Float64Array) (i : Z) : nat :=
  Z.to_nat (byteOffset x / bytesPerFloat + i).

(** [x[i]] read in an arithmetic expression: outside the view the read is
    [undefined], which arithmetic turns into [NaN]. *)
Definition get (mem : list float) (x : Float64Array) (i : Z) : float :=
  if in_view x i then default nan (mem !! slot x i) else nan.

(** [x[i] = t]: ignored outside the view. *)
Definition set (mem : list float) (x : Float64Array) (i : Z) (t : float)
  : list float :=
  if in_view x i then <[slot x i := t]> mem else mem.

(** [x.fill(t)] *)
Definition fill (mem : list float) (x : Float64Array) (t : float) : list float :=
  fold_left (fun m i => set m x i t) (seqZ 0 (len x)) mem.

(** ** Messages and the worker (lines 12-48, 127-185) *)

Inductive UVWField : Type := U | V | W.

Record UVW : Type := { u : Float64Array; v : Float64Array; w : Float64Array }.

(** [data[field]] *)
Definition field (data : UVW) (f : UVWField) : Float64Array :=
  match f with U => u data | V => v data | W => w data end.

Inductive Message : Type :=
| Sab (data : SharedArrayBuffer)
| Au (vec1 vec2 : UVWField)
| Atu (vec1 vec2 : UVWField)
| Exit.

#[global] Instance SharedArrayBuffer_eq_dec : EqDecision SharedArrayBuffer.
Proof. solve_decision. Defined.

#[global] Instance UVWField_eq_dec : EqDecision UVWField.
Proof. solve_decision. Defined.

#[global] Instance Message_eq_dec : EqDecision Message.
Proof. solve_decision. Defined.

(** [workerData]: [{n, start, end}]. *)
Record WorkerData : Type := { n : number; start : number; end_ : number }.

Section Worker.
Variable wd : WorkerData.

(** The inner loop of [au]: [let t = 0; for (j ...) t += u[j] / a(i, j)]. *)
Definition au_row (mem : list float) (x : Float64Array) (i : Z) : float :=
  fold_left (fun t j => (t + get mem x j / Z2F (a i j))%float)
    (upto (Int 0) (n wd)) 0%float.

(** [au(u, v)]: rows [start .. end - 1], each written as soon as it is
    summed. *)
Definition au (mem : list float) (x y : Float64Array) : list float :=
  fold_left (fun m i => set m y i (au_row m x i))
    (upto (start wd) (end_ wd)) mem.

(** The inner loop of [atu]: the same with [a(j, i)]. *)
Definition atu_row (mem : list float) (x : Float64Array) (i : Z) : float :=
  fold_left (fun t j => (t + get mem x j / Z2F (a j i))%float)
    (upto (Int 0) (n wd)) 0%float.

Definition atu (mem : list float) (x y : Float64Array) : list float :=
  fold_left (fun m i => set m y i (atu_row m x i))
    (upto (start wd) (end_ wd)) mem.

(** What one run of the ['message'] callback does. *)
Inductive Outcome : Type :=
| Handled (data : option UVW) (mem : list float) (posted : nat)
| Thrown (error : string)
| ProcessExit.

(** The three views of the [Sab] case. *)
Definition views (buffer : SharedArrayBuffer) : option UVW :=
  x ← new_Float64Array buffer (Int 0) (n wd);
  y ← new_Float64Array buffer (num_times bytesPerFloat (n wd)) (n wd);
  z ← new_Float64Array buffer (num_times (2 * bytesPerFloat) (n wd)) (n wd);
  Some {| u := x; v := y; w := z |}.

(** The callback of [parentPort.on('message', ...)]: [data] is the
    closure variable, [posted] counts the [parentPort.postMessage({})]
    calls. *)
Definition onMessage (data : option UVW) (mem : list float)
    (message : Message) : Outcome :=
  match message with
  | Sab buffer =>
      match views buffer with
      | Some d => Handled (Some d) mem 0
      | None => Thrown "RangeError"
      end
  | Au vec1 vec2 =>
      match data with
      | None => Thrown "Au received before Sab"
      | Some d => Handled data (au mem (field d vec1) (field d vec2)) 1
      end
  | Atu vec1 vec2 =>
      match data with
      | None => Thrown "Atu received before Sab"
      | Some d => Handled data (atu mem (field d vec1) (field d vec2)) 1
      end
  | Exit => ProcessExit
  end.
End Worker.

(** ** Printing the result (line 82) *)

(** What [console.log] receives.  [toFixed] hands a number of magnitude
    [10^21] or more to [Number::toString], whose exponent notation is left
    symbolic. *)
Inductive Rendered : Type :=
| Text (s : string)
| NumberToString (x : float).

Definition digit (d : Z) : Ascii.ascii := Ascii.ascii_of_nat (48 + Z.to_nat d).

(** The last [f] decimal digits of [r], zero-padded. *)
Fixpoint frac_digits (f : nat) (r : Z) : string :=
  match f with
  | O => ""
  | S f' => frac_digits f' (r / 10) +:+ String (digit (r mod 10)) ""
  end.

(** The integer [k] (the number scaled by [10^f]) with a point before its
    last [f] digits. *)
Definition fixed_point (f : nat) (k : Z) : string :=
  match f with
  | O => pretty k
  | _ => pretty (k / 10 ^ Z.of_nat f) +:+ "." +:+ frac_digits f k
  end.

(** [x.toFixed(f)] for [0 <= f <= 100] (ECMAScript, Number.prototype.toFixed):
    the integer nearest to [x * 10^f], the larger one on a tie. *)
Definition toFixed (x : float) (f : nat) : Rendered :=
  match Prim2SF x with
  | S754_nan => Text "NaN"
  | S754_infinity s => Text (if s then "-Infinity" else "Infinity")
  | S754_zero _ => Text (fixed_point f 0)
  | S754_finite s m e =>
      let num := if 0 <=? e then Z.pos m * 2 ^ e else Z.pos m in
      let den := if 0 <=? e then 1 else 2 ^ (- e) in
      if 10 ^ 21 * den <=? num then NumberToString x
      else
        let k := (2 * num * 10 ^ Z.of_nat f + den) / (2 * den) in
        Text ((if s then "-" else "") +:+ fixed_point f k)
  end.

(** ** The coordinator (lines 58-125) *)

Inductive Status : Type :=
| Running
| Threw (error : string)
| Exited.

(** One worker thread with its two message queues.  [data] is the closure
    variable of [workerThread]; [busy] is the message whose callback is
    running; [inbox] holds what the coordinator posted and the worker has
    not taken yet, [outbox] counts the completion messages the worker
    posted and the coordinator has not received yet; [listener] says
    whether a [once('message')] callback is registered on the worker. *)
Record Worker : Type := {
  wdata : WorkerData;
  data : option UVW;
  busy : option Message;
  inbox : list Message;
  outbox : nat;
  status : Status;
  listener : bool
}.

(** [new NodeWorker(__filename, {workerData})]: the new thread runs
    [workerThread(workerData)], which leaves [data] undefined and
    registers the callback [onMessage]. *)
Definition new_Worker (d : WorkerData) : Worker :=
  {| wdata := d; data := None; busy := None; inbox := []; outbox := 0%nat;
     status := Running; listener := false |}.

(** [worker.postMessage(message)] *)
Definition postMessage (worker : Worker) (message : Message) : Worker :=
  {| wdata := wdata worker; data := data worker; busy := busy worker;
     inbox := inbox worker ++ [message]; outbox := outbox worker;
     status := status worker; listener := listener worker |}.

(** [worker.once('message', ...)] and the removal of that callback. *)
Definition set_listener (worker : Worker) (b : bool) : Worker :=
  {| wdata := wdata worker; data := data worker; busy := busy worker;
     inbox := inbox worker; outbox := outbox worker;
     status := status worker; listener := b |}.

(** The workers' range, loop body of [startWorkers] (lines 94-98). *)
Definition range (size : number) (chunk : number) (i : Z) : WorkerData :=
  let first := num_times i chunk in
  let last := num_plus first chunk in
  let last := if num_gt last size then size else last in
  {| n := size; start := first; end_ := last |}.

(** [startWorkers()]: [cpus] is [os.cpus().length]. *)
Definition startWorkers (size : number) (sab : SharedArrayBuffer) (cpus : nat)
  : list Worker :=
  let chunk := ceil_div size (Z.of_nat cpus) in
  (fun i => postMessage (new_Worker (range size chunk i)) (Sab sab))
    <$> seqZ 0 (Z.of_nat cpus).

(** [work(message)]: the body of the [forEach], with the counter [wait]. *)
Fixpoint work (message : Message) (workers : list Worker) (wait : Z)
  : list Worker * Z :=
  match workers with
  | [] => ([], wait)
  | worker :: rest =>
      let worker := set_listener (postMessage worker message) true in
      let '(rest, wait) := work message rest (wait + 1) in
      (worker :: rest, wait)
  end.

(** [atAu(u, v, w)]: the two work units it awaits, in order. *)
Definition atAu (x y z : UVWField) : list Message := [Au x z; Atu z y].

(** The loop of lines 66-69 as the list of the units it awaits. *)
Definition iterations : list Message :=
  mjoin (replicate 10 (atAu U V W ++ atAu V U W)).

(** [stopWorkers()] *)
Definition stopWorkers (workers : list Worker) : list Worker :=
  (fun worker => postMessage worker Exit) <$> workers.

(** Lines 73-80: the two sums and the square root of their quotient. *)
Definition norm (size : number) (mem : list float) (x y : Float64Array) : float :=
  let '(vBv, vv) :=
    fold_left (fun '(vBv, vv) i =>
                 ((vBv + get mem x i * get mem y i)%float,
                  (vv + get mem y i * get mem y i)%float))
      (upto (Int 0) size) (0%float, 0%float) in
  PrimFloat.sqrt (vBv / vv).

(** The coordinator is an [async] function: it is about to await the
    units of [todo] ([Ready]), suspended in [await work(...)] with the
    counter of that promise ([Waiting]), or past [console.log]. *)
Inductive Coordinator : Type :=
| Ready (todo : list Message)
| Waiting (wait : Z) (todo : list Message)
| Finished (output : Rendered).

(** The whole program: the doubles of the shared buffer, the closure of
    [mainThread] ([n], [u], [v], [workers]) and the coordinator. *)
Record System : Type := {
  mem : list float;
  main_n : number;
  main_u : Float64Array;
  main_v : Float64Array;
  workers : list Worker;
  main : Coordinator
}.

(** Lines 59-64: what [mainThread(n)] does before its first [await];
    [None] when an allocation throws. *)
Definition mainThread (size : number) (cpus : nat) : option System :=
  '(sab, m) ← new_SharedArrayBuffer (num_times (3 * bytesPerFloat) size);
  x ← new_Float64Array sab (Int 0) size;
  y ← new_Float64Array sab (num_times bytesPerFloat size) size;
  Some {| mem := fill m x 1%float; main_n := size; main_u := x; main_v := y;
          workers := startWorkers size sab cpus; main := Ready iterations |}.

(** ** Steps of the system

    The threads run concurrently and meet only in the message ports and in
    the shared buffer.  A run of the program is a sequence of events, each
    one callback or one delivery, in any order the queues allow:

    - [Dispatch message]: the coordinator runs [work(message)] (lines
      106-120), all of it at once, since no other callback of the main
      thread can run in between;
    - [Start p message]: worker [p] takes the oldest message of its port
      and its ['message'] callback starts (messages of one port arrive in
      the order they were posted);
    - [Done p message]: that callback returns, throws or exits; the rows
      it wrote appear in the buffer here;
    - [Deliver p]: a completion message of worker [p] reaches the main
      thread and the [once] callback of line 111 runs;
    - [Finish]: the code after the loop (lines 71-82), all of it at once.
      Line 71 posts [Exit] before the sums of lines 73-80 are taken, so in
      the program a worker may take [Exit] while the main thread still
      adds up; the callback for [Exit] reads and writes nothing of the
      buffer and posts nothing, and the main thread runs lines 71-82
      without yielding, so the buffer that is summed and the text that is
      printed are those of [Finish].  The statements about [Exit] below
      are about what has happened before it is posted, not about the
      moment the result is printed.

    What a thrown error or [process.exit()] does beyond the worker itself,
    and the memory limits of the host, are left out of the model. *)

Inductive Event : Type :=
| Dispatch (message : Message)
| Start (p : nat) (message : Message)
| Done (p : nat) (message : Message)
| Deliver (p : nat)
| Finish.

Definition with_workers (s : System) (ws : list Worker) (c : Coordinator)
  : System :=
  {| mem := mem s; main_n := main_n s; main_u := main_u s; main_v := main_v s;
     workers := ws; main := c |}.

(** The callback of worker [p] starts on the oldest message of its queue. *)
Definition start_worker (worker : Worker) (message : Message) : option Worker :=
  match status worker, busy worker, inbox worker with
  | Running, None, m :: rest =>
      if decide (m = message)
      then Some {| wdata := wdata worker; data := data worker; busy := Some m;
                   inbox := rest; outbox := outbox worker;
                   status := status worker; listener := listener worker |}
      else None
  | _, _, _ => None
  end.

(** The callback of worker [p] returns, throws or leaves the process. *)
Definition finish_worker (worker : Worker) (message : Message) (m : list float)
  : option (Worker * list float) :=
  match status worker, busy worker with
  | Running, Some b =>
      if decide (b = message)
      then
        match onMessage (wdata worker) (data worker) m message with
        | Handled d m' k =>
            Some ({| wdata := wdata worker; data := d; busy := None;
                     inbox := inbox worker; outbox := (outbox worker + k)%nat;
                     status := Running; listener := listener worker |}, m')
        | Thrown error =>
            Some ({| wdata := wdata worker; data := data worker; busy := None;
                     inbox := inbox worker; outbox := outbox worker;
                     status := Threw error; listener := listener worker |}, m)
        | ProcessExit =>
            Some ({| wdata := wdata worker; data := data worker; busy := None;
                     inbox := inbox worker; outbox := outbox worker;
                     status := Exited; listener := listener worker |}, m)
        end
      else None
  | _, _ => None
  end.

(** A completion message of the worker reaches the main thread.  A
    registered [once] callback runs and is removed: [wait--; if (wait ===
    0) resolve()]; without one the message is dropped.  A callback is
    registered only while its promise is pending ([step_inv] below), so
    the case of a callback without a [Waiting] coordinator never occurs. *)
Definition deliver (worker : Worker) (c : Coordinator)
  : option (Worker * Coordinator) :=
  match outbox worker with
  | O => None
  | S k =>
      let worker' :=
        {| wdata := wdata worker; data := data worker; busy := busy worker;
           inbox := inbox worker; outbox := k; status := status worker;
           listener := false |} in
      if listener worker
      then
        match c with
        | Waiting wait todo =>
            let wait := wait - 1 in
            Some (worker', if wait =? 0 then Ready todo else Waiting wait todo)
        | _ => Some (worker', c)
        end
      else Some (worker', c)
  end.

(** One step of the system; [None] when the event cannot happen in [s]. *)
Definition step (e : Event) (s : System) : option System :=
  match e with
  | Dispatch message =>
      match main s with
      | Ready (m :: todo) =>
          if decide (m = message)
          then let '(ws, wait) := work m (workers s) 0 in
               Some (with_workers s ws (Waiting wait todo))
          else None
      | _ => None
      end
  | Start p message =>
      worker ← workers s !! p;
      worker' ← start_worker worker message;
      Some (with_workers s (<[p := worker']> (workers s)) (main s))
  | Done p message =>
      worker ← workers s !! p;
      '(worker', m) ← finish_worker worker message (mem s);
      Some {| mem := m; main_n := main_n s; main_u := main_u s;
              main_v := main_v s; workers := <[p := worker']> (workers s);
              main := main s |}
  | Deliver p =>
      worker ← workers s !! p;
      '(worker', c) ← deliver worker (main s);
      Some (with_workers s (<[p := worker']> (workers s)) c)
  | Finish =>
      match main s with
      | Ready [] =>
          let result := norm (main_n s) (mem s) (main_u s) (main_v s) in
          Some (with_workers s (stopWorkers (workers s))
                  (Finished (toFixed result 9)))
      | _ => None
      end
  end.

(** Runs of the system. *)
Fixpoint exec (tr : list Event) (s : System) : option System :=
  match tr with
  | [] => Some s
  | e :: tr => s' ← step e s; exec tr s'
  end.

(** ** Counting events in a run *)

Definition is_unit (message : Message) : bool :=
  match message with Au _ _ | Atu _ _ => true | _ => false end.

Definition count (f : Event → bool) (tr : list Event) : nat :=
  base.length (List.filter f tr).

Definition is_dispatch (e : Event) : bool :=
  match e with Dispatch _ => true | _ => false end.

Definition is_start (p : nat) (e : Event) : bool :=
  match e with Start q m => bool_decide (q = p) && is_unit m | _ => false end.

Definition is_done (p : nat) (e : Event) : bool :=
  match e with Done q m => bool_decide (q = p) && is_unit m | _ => false end.

Definition is_deliver (p : nat) (e : Event) : bool :=
  match e with Deliver q => bool_decide (q = p) | _ => false end.

(** The units dispatched in a run, in order. *)
Definition dispatches (tr : list Event) : list Message :=
  omap (fun e => match e with Dispatch m => Some m | _ => None end) tr.

(** ** One schedule that runs the program to its end *)

Definition serve (message : Message) (p : nat) : list Event :=
  [Start p message; Done p message; Deliver p].

Definition round (cpus : nat) (message : Message) : list Event :=
  Dispatch message :: (seq 0 cpus ≫= serve message).

Definition boot (cpus : nat) (sab : SharedArrayBuffer) : list Event :=
  seq 0 cpus ≫= (fun p => [Start p (Sab sab); Done p (Sab sab)]).

Definition schedule (cpus : nat) (sab : SharedArrayBuffer) : list Event :=
  boot cpus sab ++ (iterations ≫= round cpus) ++ [Finish].

(** ** Vocabulary of the statements *)

(** The view [x] lies inside a buffer of [size] doubles. *)
Definition fits (size : nat) (x : Float64Array) : Prop :=
  0 <= byteOffset x ∧ 0 <= len x
  ∧ byteOffset x / bytesPerFloat + len x <= Z.of_nat size.

(** Two views share no double. *)
Definition apart (x y : Float64Array) : Prop :=
  byteOffset x / bytesPerFloat + len x <= byteOffset y / bytesPerFloat
  ∨ byteOffset y / bytesPerFloat + len y <= byteOffset x / bytesPerFloat.

(** The sum of the specification, [sum over j in [0,n) of src[j] / d(j)],
    taken with [j] ascending by one running accumulator that starts at 0. *)
Definition spec_sum (src : Z → float) (d : Z → Z) (size : Z) : float :=
  fold_left (fun t j => (t + src j / Z2F (d j))%float) (seqZ 0 size) 0%float.

(** The rows a worker visits: the values of [i] in
    [for (let i = start; i < end; i++)] of [au] and [atu]. *)
Definition rows (d : WorkerData) : list Z := upto (start d) (end_ d).

(** ** The barrier, as an invariant of runs *)

(** Compute units waiting in a queue; whether the running callback is on
    one; whether a [once] callback is registered. *)
Definition units_in (queue : list Message) : nat :=
  base.length (List.filter is_unit queue).

Definition busy_unit (worker : Worker) : nat :=
  match busy worker with
  | Some m => if is_unit m then 1 else 0
  | None => 0
  end.

Definition armed (worker : Worker) : nat := if listener worker then 1 else 0.

(** The number of registered [once] callbacks. *)
Fixpoint listeners (ws : list Worker) : nat :=
  match ws with
  | [] => 0
  | worker :: ws => armed worker + listeners ws
  end.

(** What the history of a run says about one worker: of the [D] units
    dispatched, the worker has started [B] and still has the others in its
    queue; it has finished [E], all it started but the one it may be
    running; its completions received ([R]) or under way do not exceed
    [E]; and the coordinator has received one completion from it per unit,
    but for the unit it still listens for. *)
Definition tally (D B E R : nat) (c : Coordinator) (worker : Worker) : Prop :=
  (B + units_in (inbox worker) = D)%nat
  ∧ (E + busy_unit worker = B)%nat
  ∧ (R + outbox worker <= E)%nat
  ∧ (R + armed worker = D)%nat
  ∧ match c with Waiting _ _ => True | _ => listener worker = false end.

Definition worker_inv (h : list Event) (c : Coordinator) (p : nat)
    (worker : Worker) : Prop :=
  tally (count is_dispatch h) (count (is_start p) h) (count (is_done p) h)
    (count (is_deliver p) h) c worker.

(** The coordinator follows [iterations], and the counter of a pending
    promise is the number of registered callbacks. *)
Definition coord_inv (h : list Event) (ws : list Worker) (c : Coordinator)
  : Prop :=
  match c with
  | Ready todo => dispatches h ++ todo = iterations
  | Waiting wait todo =>
      dispatches h ++ todo = iterations
      ∧ wait = Z.of_nat (listeners ws)
  | Finished _ => dispatches h = iterations
  end.

Definition inv (h : list Event) (s : System) : Prop :=
  (∀ p worker, workers s !! p = Some worker → worker_inv h (main s) p worker)
  ∧ coord_inv h (workers s) (main s).

(** [work(message)] reaches every worker: each queue gets [message] at
    its end. *)
Definition broadcast (message : Message) (s s' : System) : Prop :=
  base.length (workers s') = base.length (workers s)
  ∧ ∀ p worker, workers s !! p = Some worker →
      ∃ worker', workers s' !! p = Some worker'
                 ∧ inbox worker' = inbox worker ++ [message].

(** Before the next unit is dispatched, the coordinator has received from
    every worker as many completions as it dispatched units: one each per
    unit. *)
Definition all_received (cpus : nat) (h : list Event) : Prop :=
  ∀ p, (p < cpus)%nat → count (is_deliver p) h = count is_dispatch h.

(** No worker has started more than one unit beyond what every worker has
    finished. *)
Definition barrier (cpus : nat) (h : list Event) : Prop :=
  ∀ p q, (p < cpus)%nat → (q < cpus)%nat →
    (count (is_start p) h <= S (count (is_done q) h))%nat.

(** ** Shapes of a worker along the schedule *)

(** A worker between callbacks: whether [data] is set, what its queue
    holds, and whether the coordinator listens for it. *)
Definition shaped (initialised : bool) (queue : list Message) (listening : bool)
    (worker : Worker) : Prop :=
  (if initialised then is_Some (data worker) else data worker = None)
  ∧ busy worker = None ∧ inbox worker = queue ∧ outbox worker = 0%nat
  ∧ status worker = Running ∧ listener worker = listening.

(** The first [k] workers have shape [P], the others shape [Q]. *)
Definition served (k : nat) (P Q : Worker → Prop) (ws : list Worker) : Prop :=
  ∀ p worker, ws !! p = Some worker →
    if decide (p < k)%nat then P worker else Q worker.

(** ** Workers that cannot throw *)

Definition no_sab (queue : list Message) : Prop :=
  Forall (fun m => match m with Sab _ => False | _ => True end) queue.

(** A worker of a program started with size [size] and buffer [sab]: it has
    not thrown, and either its [data] is set and no [Sab] is left for it,
    or [Sab] is the message it is running or the next one it takes. *)
Definition healthy (size : number) (sab : SharedArrayBuffer) (worker : Worker)
  : Prop :=
  n (wdata worker) = size
  ∧ (∀ error, status worker ≠ Threw error)
  ∧ match data worker, busy worker with
    | Some _, _ =>
        no_sab (inbox worker)
        ∧ ∀ m, busy worker = Some m → ∀ b, m ≠ Sab b
    | None, Some m => m = Sab sab ∧ no_sab (inbox worker)
    | None, None => ∃ rest, inbox worker = Sab sab :: rest ∧ no_sab rest
    end.

(** ** Shapes of the printed text *)

Definition is_digit (c : Ascii.ascii) : Prop :=
  (48 <= Ascii.nat_of_ascii c <= 57)%nat.

(** Digits, a point, and exactly nine digits; a minus sign may precede. *)
Definition nine_decimals (t : string) : Prop :=
  ∃ sign whole frac,
    t = sign +:+ whole +:+ "." +:+ frac
    ∧ (sign = "" ∨ sign = "-")
    ∧ whole ≠ "" ∧ Forall is_digit (String.list_ascii_of_string whole)
    ∧ String.length frac = 9%nat ∧ Forall is_digit (String.list_ascii_of_string frac).

(** A double that is neither [NaN] nor an infinity and lies below [10^21]
    in magnitude: the numbers [toFixed] prints in fixed notation. *)
Definition fixed_range (x : float) : bool :=
  match Prim2SF x with
  | S754_zero _ => true
  | S754_finite _ m e =>
      negb (10 ^ 21 * (if 0 <=? e then 1 else 2 ^ (- e))
            <=? (if 0 <=? e then Z.pos m * 2 ^ e else Z.pos m))
  | _ => false
  end.



(** ** The loop read sequentially

    Vocabulary for the properties of whole runs.  Between two barriers the
    workers run the same unit concurrently; the buffer they leave is the
    one they would leave running one after the other ([unit_in_turn]), in
    any order, with any number of workers. *)

(** The length of a typed array made with length [n]: [ToIndex] turns
    [NaN] into 0. *)
Definition size_of (x : number) : Z := match x with Int z => z | NaN => 0 end.

(** The index that cell [c] of the buffer has in the view [y]. *)
Definition index_in (y : Float64Array) (c : nat) : Z :=
  Z.of_nat c - byteOffset y / bytesPerFloat.

(** The views of a worker lie inside a buffer of [size] doubles, and two
    different ones share no double. *)
Definition placed (size : nat) (d : UVW) : Prop :=
  (∀ f, fits size (field d f))
  ∧ (∀ f g, f ≠ g → apart (field d f) (field d g)).

(** A unit that reads one vector and writes another. *)
Definition proper (message : Message) : Prop :=
  match message with
  | Au vec1 vec2 | Atu vec1 vec2 => vec1 ≠ vec2
  | _ => True
  end.

(** What the callback of a worker whose [data] is [d] leaves in the
    buffer. *)
Definition run_unit (wd : WorkerData) (d : UVW) (message : Message)
    (m : list float) : list float :=
  match onMessage wd (Some d) m message with
  | Handled _ m' _ => m'
  | _ => m
  end.

(** One unit, the workers running their callbacks one after the other. *)
Definition unit_in_turn (wds : list WorkerData) (d : UVW) (message : Message)
    (m : list float) : list float :=
  fold_left (fun m wd => run_unit wd d message m) wds m.

(** The units of a list, one after the other. *)
Definition in_turn (wds : list WorkerData) (d : UVW) (units : list Message)
    (m : list float) : list float :=
  fold_left (fun m message => unit_in_turn wds d message m) units m.

(** The [workerData] that [startWorkers] hands out. *)
Definition ranges (size : number) (cpus : nat) : list WorkerData :=
  range size (ceil_div size (Z.of_nat cpus)) <$> seqZ 0 (Z.of_nat cpus).

(** The [workerData] of a worker that has all rows. *)
Definition whole (size : number) : WorkerData :=
  {| n := size; start := Int 0; end_ := size |}.

(** The common shape of [au] and [atu]: the rows [rs] of [y], each the sum
    of [x[j] / den(i, j)]. *)
Definition sweep (den : Z → Z → Z) (size : number) (x y : Float64Array)
    (rs : list Z) (m : list float) : list float :=
  fold_left (fun m i =>
               set m y i
                 (fold_left (fun t j => (t + get m x j / Z2F (den i j))%float)
                    (upto (Int 0) size) 0%float))
    rs m.

(** A worker that has not finished the unit the coordinator waits for. *)
Definition waits (worker : Worker) : bool :=
  negb (Nat.eqb (units_in (inbox worker) + busy_unit worker) 0).

(** The unit [message] run by the workers that have finished it. *)
Definition partly (d : UVW) (message : Message) (ws : list Worker)
    (m : list float) : list float :=
  fold_left (fun m worker =>
               if waits worker then m else run_unit (wdata worker) d message m)
    ws m.

(** The only unit a worker holds, in its queue or running, is [message]. *)
Definition only_unit (message : Message) (worker : Worker) : Prop :=
  (∀ m, m ∈ inbox worker → is_unit m = true → m = message)
  ∧ (∀ m, busy worker = Some m → is_unit m = true → m = message).

(** The buffer of a run follows the sequential reading: at a barrier it
    holds what the units dispatched so far give in turn; while the
    coordinator waits, what the workers that have finished the unit give;
    and the printed text is the norm of what all units give. *)
Definition follows (wds : list WorkerData) (d : UVW) (m0 : list float)
    (h : list Event) (s : System) : Prop :=
  wdata <$> workers s = wds
  ∧ Forall (fun worker => ∀ d', data worker = Some d' → d' = d) (workers s)
  ∧ base.length (mem s) = base.length m0
  ∧ match main s with
    | Ready _ => mem s = in_turn wds d (dispatches h) m0
    | Waiting _ _ =>
        ∃ done message,
          dispatches h = done ++ [message]
          ∧ Forall (only_unit message) (workers s)
          ∧ mem s = partly d message (workers s) (in_turn wds d done m0)
    | Finished out =>
        mem s = in_turn wds d iterations m0
        ∧ out = toFixed (norm (main_n s) (mem s) (main_u s) (main_v s)) 9
    end.

(** ** The end of the program *)

(** A worker thread that has left: nothing runs, nothing is queued. *)
Definition gone (worker : Worker) : Prop :=
  status worker = Exited ∧ busy worker = None ∧ inbox worker = []
  ∧ outbox worker = 0%nat.

(** Every worker takes [Exit]. *)
Definition shutdown (cpus : nat) : list Event :=
  seq 0 cpus ≫= (fun p => [Start p Exit; Done p Exit]).

(** A worker with nothing left to do. *)
Definition quiet (worker : Worker) : Prop :=
  busy worker = None ∧ inbox worker = [] ∧ outbox worker = 0%nat.

(** [Exit] is the last message a worker gets, and only once the result is
    printed; a worker that has left has taken all its messages. *)
Definition exit_ok (c : Coordinator) (worker : Worker) : Prop :=
  match status worker with
  | Running =>
      match c with
      | Finished _ =>
          (busy worker = Some Exit ∧ inbox worker = [])
          ∨ (busy worker ≠ Some Exit
             ∧ ∃ queue, inbox worker = queue ++ [Exit] ∧ Exit ∉ queue)
      | _ => busy worker ≠ Some Exit ∧ Exit ∉ inbox worker
      end
  | Exited => busy worker = None ∧ inbox worker = [] ∧ ∃ out, c = Finished out
  | Threw _ => False
  end.

(** No completion is lost: those received and those under way are the
    units the worker has finished; and a pending promise still waits for
    a completion. *)
Definition live (h : list Event) (s : System) : Prop :=
  (∀ p worker, workers s !! p = Some worker →
     (count (is_deliver p) h + outbox worker = count (is_done p) h)%nat
     ∧ exit_ok (main s) worker)
  ∧ match main s with
    | Waiting wait _ => 0 < wait ∨ workers s = []
    | _ => True
    end.

(** What a worker has left to do, weighted so that every step of the
    worker lowers it. *)
Definition load (worker : Worker) : nat :=
  3 * base.length (inbox worker)
  + (match busy worker with Some _ => 2 | None => 0 end)
  + outbox worker.

(** The invariants of a run, together. *)
Definition sound (size : number) (sab : SharedArrayBuffer) (h : list Event)
    (s : System) : Prop :=
  inv h s ∧ Forall (healthy size sab) (workers s) ∧ live h s.

(** ** The order in which a worker runs the units *)

(** The units whose callbacks have ended at worker [p], in order. *)
Definition done_by (p : nat) (tr : list Event) : list Message :=
  omap (fun e => match e with
                 | Done q m =>
                     if bool_decide (q = p) && is_unit m then Some m else None
                 | _ => None
                 end) tr.

(** The unit a worker is running, if any. *)
Definition running_unit (worker : Worker) : list Message :=
  match busy worker with
  | Some m => if is_unit m then [m] else []
  | None => []
  end.

(** The units a worker has finished, is running and has waiting are the
    units dispatched, in order. *)
Definition fifo (h : list Event) (s : System) : Prop :=
  ∀ p worker, workers s !! p = Some worker →
    done_by p h ++ running_unit worker ++ List.filter is_unit (inbox worker)
    = dispatches h.

(** * Properties *)

(** ** Arithmetic of [a] *)

Lemma round53_exact z : Z.abs z < 2 ^ 53 → round53 z = z.
Proof.
  intros Hz. unfold round53.
  destruct (Z.ltb_spec (Z.abs z) (2 ^ 53)) as [_|Hge]; [reflexivity|lia].
Qed.

Lemma ushr_1 x : ushr x 1 = (x mod 2 ^ 32) / 2.
Proof.
  unfold ushr, ToUint32. change (1 mod 32) with 1.
  rewrite Z.shiftr_div_pow2 by lia. reflexivity.
Qed.

Lemma ushr_1_bounds x : 0 <= ushr x 1 < 2 ^ 31.
Proof.
  rewrite ushr_1.
  assert (0 <= x mod 2 ^ 32 < 2 ^ 32) as H by (apply Z.mod_pos_bound; lia).
  split; [apply Z.div_pos; lia|].
  apply Z.div_lt_upper_bound; lia.
Qed.

(** The product inside [a] is exact and below [2^32] while [i + j] is
    below [2^16]. *)
Lemma product_small k : 0 <= k < 65536 → 0 <= k * (k + 1) < 2 ^ 32.
Proof. intros Hk. change (2 ^ 32) with (65536 * 65536). nia. Qed.

Lemma a_unfold i j :
  a i j = (round53 ((i + j) * (i + j + 1)) mod 2 ^ 32) / 2 + i + 1.
Proof. unfold a, num_mul. rewrite ushr_1. reflexivity. Qed.

(** The doubles of the model are the kernel's: the rounding written out in
    [round53] is the one a double product performs. *)
Example round53_agrees_with_doubles :
  F2Z (Z2F 3000000001 * Z2F 3000000002)%float
    = Some (num_mul 3000000001 3000000002)
  ∧ F2Z (Z2F 94906267 * Z2F 94906268)%float = Some (num_mul 94906267 94906268)
  ∧ F2Z (Z2F (2 ^ 60 - 64)) = Some (round53 (2 ^ 60 - 64))
  ∧ F2Z (Z2F (2 ^ 53 + 3)) = Some (round53 (2 ^ 53 + 3)).
Proof. vm_compute. auto. Qed.

(** C1, as amended.  For non-negative [i] and [j] with [i + j < 65536],
    [a(i, j)] returns the denominator [triangular(i+j) + i + 1] of the
    matrix entry, not its reciprocal; being a function of the model, it is
    pure, total and deterministic. *)
Theorem a_is_denominator (i j : Z) :
  0 <= i → 0 <= j → i + j < 65536 →
  a i j = triangular (i + j) + i + 1.
Proof.
  intros Hi Hj Hij. rewrite a_unfold. unfold triangular.
  pose proof (product_small (i + j) ltac:(lia)) as Hp.
  rewrite round53_exact by lia.
  rewrite Z.mod_small by lia. reflexivity.
Qed.

Lemma a_is_denominator_witness : a 3 4 = triangular (3 + 4) + 3 + 1.
Proof. apply (a_is_denominator 3 4); lia. Defined.

(** C1 as the specification states it fails: [a(1, 0)] is 3, the
    specification's [1.0 / (triangular(1) + 1 + 1)] is a third. *)
Lemma a_is_not_reciprocal :
  a 1 0 = 3 ∧ PrimFloat.eqb (Z2F (a 1 0)) (spec_entry 1 0) = false
  ∧ Z2F (a 1 0) ≠ spec_entry 1 0.
Proof.
  split; [reflexivity|]. split; [reflexivity|].
  intros H. apply (f_equal (PrimFloat.eqb 3)) in H. vm_compute in H. discriminate.
Qed.

(** C6.  From [i + j = 65536] on, the unsigned shift has cut the product
    to 32 bits and [a] is smaller than the exact
    [triangular(i+j) + i + 1]. *)
Theorem a_truncates_to_32_bits (i j : Z) :
  0 <= i → 0 <= j → 65536 <= i + j →
  a i j < triangular (i + j) + i + 1.
Proof.
  intros Hi Hj Hij. unfold a, triangular.
  pose proof (ushr_1_bounds (num_mul (i + j) (i + j + 1))) as Hb.
  assert (2 ^ 31 <= (i + j) * (i + j + 1) / 2) as Ht.
  { apply Z.div_le_lower_bound; [lia|].
    change (2 * 2 ^ 31) with (65536 * 65536). nia. }
  lia.
Qed.

Lemma a_truncates_to_32_bits_witness :
  a 65536 0 = 98305 ∧ triangular (65536 + 0) + 65536 + 1 = 2147581953
  ∧ a 65536 0 < triangular (65536 + 0) + 65536 + 1.
Proof.
  split; [reflexivity|]. split; [reflexivity|].
  apply (a_truncates_to_32_bits 65536 0); lia.
Defined.

(** [a(i, j)] and [a(j, i)] differ by [i - j]. *)
Lemma a_transpose i j : a i j - a j i = i - j.
Proof. rewrite !a_unfold. replace (j + i) with (i + j) by lia. lia. Qed.

(** C7, as amended.  For valid indices [0 <= i, j < n], [a(i, j)] equals
    [a(j, i)] exactly when [i = j]: the matrix is not symmetric. *)
Theorem a_symmetric_only_on_diagonal (size i j : Z) :
  0 <= i < size → 0 <= j < size → (a i j = a j i ↔ i = j).
Proof.
  intros _ _. pose proof (a_transpose i j). split; [lia|].
  intros ->. reflexivity.
Qed.

Lemma a_symmetric_only_on_diagonal_witness : a 1 2 = a 2 1 ↔ 1 = 2.
Proof. apply (a_symmetric_only_on_diagonal 3 1 2); lia. Defined.

(** C7 as the specification states it fails at [(0, 1)]. *)
Lemma a_not_symmetric : a 0 1 = 2 ∧ a 1 0 = 3 ∧ a 0 1 ≠ a 1 0.
Proof. split; [reflexivity|]. split; [reflexivity|]. discriminate. Qed.

(** C10.  For valid indices [0 <= i, j < n], [a(i, j)] is at least 1, so
    the divisor of [src[j] / a(i, j)] and of [src[j] / a(j, i)] in [au]
    and [atu] is never zero. *)
Theorem a_at_least_one (size i j : Z) :
  0 <= i < size → 0 <= j < size → 1 <= a i j ∧ 1 <= a j i.
Proof.
  intros Hi Hj. unfold a.
  pose proof (ushr_1_bounds (num_mul (i + j) (i + j + 1))).
  pose proof (ushr_1_bounds (num_mul (j + i) (j + i + 1))).
  lia.
Qed.

Lemma a_at_least_one_witness : 1 <= a 5 7 ∧ 1 <= a 7 5.
Proof. apply (a_at_least_one 8 5 7); lia. Defined.

(** ** Reads and writes through views *)

Lemma length_set m y i t : base.length (set m y i t) = base.length m.
Proof. unfold set. destruct (in_view y i); [apply length_insert|reflexivity]. Qed.

Lemma in_view_spec x i : in_view x i = true ↔ 0 <= i < len x.
Proof. unfold in_view. rewrite andb_true_iff, Z.leb_le, Z.ltb_lt. tauto. Qed.

Lemma get_set_same m y i t :
  fits (base.length m) y → 0 <= i < len y → get (set m y i t) y i = t.
Proof.
  intros (Ho & _ & Hfit) Hi. unfold get, set.
  rewrite (proj2 (in_view_spec y i) Hi).
  rewrite list_lookup_insert_eq; [reflexivity|].
  unfold slot. pose proof (Z.div_pos (byteOffset y) bytesPerFloat Ho eq_refl). lia.
Qed.

Lemma get_set_other m y i i' t :
  0 <= byteOffset y → i ≠ i' → get (set m y i t) y i' = get m y i'.
Proof.
  intros Ho Hne. unfold get, set.
  destruct (in_view y i') eqn:Hi'; [|reflexivity].
  destruct (in_view y i) eqn:Hi; [|reflexivity].
  apply in_view_spec in Hi, Hi'.
  rewrite list_lookup_insert_ne; [reflexivity|].
  unfold slot. pose proof (Z.div_pos (byteOffset y) bytesPerFloat Ho eq_refl). lia.
Qed.

Lemma get_set_apart m x y i j t :
  0 <= byteOffset x → 0 <= byteOffset y → apart x y →
  get (set m y i t) x j = get m x j.
Proof.
  intros Hx Hy Hxy. unfold get, set.
  destruct (in_view x j) eqn:Hj; [|reflexivity].
  destruct (in_view y i) eqn:Hi; [|reflexivity].
  apply in_view_spec in Hi, Hj.
  rewrite list_lookup_insert_ne; [reflexivity|].
  unfold slot, apart in *.
  pose proof (Z.div_pos (byteOffset x) bytesPerFloat Hx eq_refl).
  pose proof (Z.div_pos (byteOffset y) bytesPerFloat Hy eq_refl). lia.
Qed.

(** ** The partitioned multiplier *)

Section Rows.
Variables (x y : Float64Array) (row : list float → Z → float).
Hypothesis x_placed : 0 <= byteOffset x.
Hypothesis y_apart : apart x y.
Hypothesis row_reads_x :
  ∀ m m' i, (∀ j, get m x j = get m' x j) → row m i = row m' i.

Local Abbreviation rows_loop := (fold_left (fun m i => set m y i (row m i))).

Lemma rows_length rows m : base.length (rows_loop rows m) = base.length m.
Proof.
  revert m. induction rows as [|r rows IH]; intros m; simpl; [reflexivity|].
  rewrite IH. apply length_set.
Qed.

Lemma rows_keep_source rows m j :
  0 <= byteOffset y → get (rows_loop rows m) x j = get m x j.
Proof.
  intros Hy. revert m. induction rows as [|r rows IH]; intros m; simpl;
    [reflexivity|].
  rewrite IH. apply get_set_apart; assumption.
Qed.

Lemma rows_keep_others rows m i :
  0 <= byteOffset y → i ∉ rows → get (rows_loop rows m) y i = get m y i.
Proof.
  intros Hy. revert m. induction rows as [|r rows IH]; intros m Hi; simpl;
    [reflexivity|].
  apply not_elem_of_cons in Hi as [Hne Hi].
  rewrite IH by assumption. apply get_set_other; [assumption|congruence].
Qed.

Lemma rows_written rows m0 m i :
  fits (base.length m) y → NoDup rows → i ∈ rows → 0 <= i < len y →
  (∀ j, get m x j = get m0 x j) →
  get (rows_loop rows m) y i = row m0 i.
Proof.
  intros Hfit Hnd Hin Hi. revert m Hfit.
  induction rows as [|r rows IH]; intros m Hfit Hsrc; [inversion Hin|].
  apply NoDup_cons in Hnd as [Hr Hnd]. simpl.
  destruct (decide (i = r)) as [->|Hne].
  - rewrite rows_keep_others by (first [apply Hfit|assumption]).
    rewrite get_set_same by assumption.
    apply row_reads_x, Hsrc.
  - apply elem_of_cons in Hin as [?|Hin]; [contradiction|].
    apply IH; try assumption.
    + rewrite length_set. assumption.
    + intros j. rewrite get_set_apart; [apply Hsrc|assumption|apply Hfit|assumption].
Qed.
End Rows.

Lemma sum_reads_source (d : Z → Z) x js m m' t :
  (∀ j, get m x j = get m' x j) →
  fold_left (fun t j => (t + get m x j / Z2F (d j))%float) js t
  = fold_left (fun t j => (t + get m' x j / Z2F (d j))%float) js t.
Proof.
  intros Hsrc. revert t. induction js as [|j js IH]; intros t; simpl;
    [reflexivity|].
  rewrite Hsrc. apply IH.
Qed.

(** C2.  For a worker with rows [lo .. hi - 1] and a source view apart
    from the destination view, [au] leaves in [dst[i]] the sum over [j] in
    [0 .. n - 1] of [src[j] / a(i, j)], and [atu] the sum of
    [src[j] / a(j, i)], for every row [i] of the range; the sums are taken
    with [j] ascending by one running accumulator. *)
Theorem au_atu_rows (wd : WorkerData) (m : list float) (src dst : Float64Array)
    (size lo hi i : Z) :
  n wd = Int size → start wd = Int lo → end_ wd = Int hi →
  fits (base.length m) src → fits (base.length m) dst → apart src dst →
  lo <= i < hi → 0 <= i < len dst →
  get (au wd m src dst) dst i = spec_sum (get m src) (a i) size
  ∧ get (atu wd m src dst) dst i = spec_sum (get m src) (fun j => a j i) size.
Proof.
  intros Hn Hlo Hhi Hsrc Hdst Hapart Hi Hid.
  assert (i ∈ seqZ lo (hi - lo)) as Hin by (apply elem_of_seqZ; lia).
  unfold au, atu. rewrite Hlo, Hhi. simpl. split.
  - rewrite (rows_written src dst (fun m i => au_row wd m src i)) with (m0 := m);
      try assumption; try reflexivity; try apply NoDup_seqZ; try apply Hsrc.
    + unfold au_row, spec_sum, upto. rewrite Hn, Z.sub_0_r. reflexivity.
    + intros m1 m2 r Hr. unfold au_row. apply sum_reads_source, Hr.
  - rewrite (rows_written src dst (fun m i => atu_row wd m src i)) with (m0 := m);
      try assumption; try reflexivity; try apply NoDup_seqZ; try apply Hsrc.
    + unfold atu_row, spec_sum, upto. rewrite Hn, Z.sub_0_r. reflexivity.
    + intros m1 m2 r Hr. unfold atu_row.
      apply (sum_reads_source (fun j => a j r)), Hr.
Qed.

(** The units the coordinator dispatches never name one vector twice, and
    ([views_placed] below) different vectors of a worker are apart. *)
Lemma iterations_apart :
  Forall (fun message =>
            match message with
            | Au vec1 vec2 | Atu vec1 vec2 => vec1 ≠ vec2
            | _ => True
            end) iterations.
Proof. vm_compute. repeat constructor; discriminate. Qed.

Lemma au_atu_rows_witness :
  let wd := {| n := Int 2; start := Int 1; end_ := Int 2 |} in
  let m := [1; 1; 0; 0; 0; 0]%float in
  let src := {| byteOffset := 0; len := 2 |} in
  let dst := {| byteOffset := 32; len := 2 |} in
  get (au wd m src dst) dst 1 = spec_sum (get m src) (a 1) 2
  ∧ get (atu wd m src dst) dst 1 = spec_sum (get m src) (fun j => a j 1) 2.
Proof.
  apply (au_atu_rows {| n := Int 2; start := Int 1; end_ := Int 2 |}
           [1; 1; 0; 0; 0; 0]%float {| byteOffset := 0; len := 2 |}
           {| byteOffset := 32; len := 2 |} 2 1 2 1);
    try reflexivity; try lia; compute; intuition discriminate.
Defined.

(** The three views a worker makes of a buffer that holds [3 * n] doubles
    lie inside the buffer, and two different ones are apart. *)
Lemma ToIndex_Int z k : ToIndex (Int z) = Some k → k = z ∧ 0 <= z <= 2 ^ 53 - 1.
Proof.
  unfold ToIndex. destruct (Z.leb_spec 0 z), (Z.leb_spec z (2 ^ 53 - 1));
    simpl; intros [=]; lia.
Qed.

Lemma new_Float64Array_Int buffer off size x :
  new_Float64Array buffer (Int off) (Int size) = Some x →
  byteOffset x = off ∧ len x = size ∧ 0 <= off ∧ 0 <= size
  ∧ off + size * bytesPerFloat <= byteLength buffer.
Proof.
  unfold new_Float64Array. intros H.
  destruct (ToIndex (Int off)) as [o|] eqn:Ho; [|discriminate].
  destruct (ToIndex (Int size)) as [l|] eqn:Hl; [|discriminate].
  apply ToIndex_Int in Ho as [-> ?], Hl as [-> ?]. simpl in H.
  destruct (off mod bytesPerFloat =? 0); [|discriminate]. simpl in H.
  destruct (Z.leb_spec (off + size * bytesPerFloat) (byteLength buffer));
    [|discriminate].
  injection H as <-. simpl. lia.
Qed.

Lemma views_placed (wd : WorkerData) buffer (m : list float) size d :
  n wd = Int size → views wd buffer = Some d →
  byteLength buffer <= bytesPerFloat * Z.of_nat (base.length m) →
  (∀ f, fits (base.length m) (field d f) ∧ len (field d f) = size)
  ∧ (∀ f g, f ≠ g → apart (field d f) (field d g)).
Proof.
  intros Hn Hv Hm. unfold views in Hv. rewrite Hn in Hv. simpl in Hv.
  destruct (new_Float64Array buffer (Int 0) (Int size)) as [x|] eqn:Hx;
    [|discriminate].
  destruct (new_Float64Array buffer (Int (bytesPerFloat * size)) (Int size))
    as [y|] eqn:Hy; [|discriminate].
  destruct (new_Float64Array buffer (Int (2 * bytesPerFloat * size)) (Int size))
    as [z|] eqn:Hz; [|discriminate].
  injection Hv as <-.
  apply new_Float64Array_Int in Hx as (Hx1 & Hx2 & ? & ? & ?).
  apply new_Float64Array_Int in Hy as (Hy1 & Hy2 & ? & ? & ?).
  apply new_Float64Array_Int in Hz as (Hz1 & Hz2 & ? & ? & ?).
  unfold bytesPerFloat in *.
  assert (8 * size / 8 = size) as E1 by (rewrite Z.mul_comm; apply Z.div_mul; lia).
  assert (2 * 8 * size / 8 = 2 * size) as E2
    by (replace (2 * 8 * size) with (2 * size * 8) by lia; apply Z.div_mul; lia).
  split.
  - intros f. unfold fits, bytesPerFloat.
    destruct f; simpl; rewrite ?Hx1, ?Hx2, ?Hy1, ?Hy2, ?Hz1, ?Hz2, ?E1, ?E2;
      change (0 / 8) with 0; lia.
  - intros f g Hfg. unfold apart, bytesPerFloat.
    destruct f, g; try contradiction; simpl;
      rewrite ?Hx1, ?Hx2, ?Hy1, ?Hy2, ?Hz1, ?Hz2, ?E1, ?E2;
      change (0 / 8) with 0; lia.
Qed.

(** ** The row partition *)

Lemma ceil_div_bounds size d :
  0 < size → 0 < d → 0 < - (- size / d) ∧ size <= d * - (- size / d).
Proof.
  intros Hs Hd.
  pose proof (Z.div_mod (- size) d ltac:(lia)) as E.
  pose proof (Z.mod_pos_bound (- size) d Hd) as B.
  split; nia.
Qed.

Lemma startWorkers_lookup size sab cpus p worker :
  startWorkers size sab cpus !! p = Some worker ↔
  (p < cpus)%nat
  ∧ worker = postMessage
      (new_Worker (range size (ceil_div size (Z.of_nat cpus)) (Z.of_nat p)))
      (Sab sab).
Proof.
  unfold startWorkers. rewrite list_lookup_fmap. split.
  - intros H. apply fmap_Some in H as (i & Hi & ->).
    apply lookup_seqZ in Hi as [-> ?]. split; [lia|]. rewrite Z.add_0_l.
    reflexivity.
  - intros [Hp ->]. rewrite lookup_seqZ_lt by lia. rewrite Z.add_0_l.
    reflexivity.
Qed.

Lemma length_startWorkers size sab cpus :
  base.length (startWorkers size sab cpus) = cpus.
Proof. unfold startWorkers. rewrite length_fmap, length_seqZ. lia. Qed.

Lemma rows_range size c p i :
  i ∈ rows (range (Int size) (Int c) p) ↔ p * c <= i < p * c + c ∧ i < size.
Proof.
  unfold rows, range. simpl.
  destruct (Z.ltb_spec size (p * c + c)); simpl; rewrite elem_of_seqZ; lia.
Qed.

(** C4.  For [n > 0] and [P > 0] workers, the rows of the ranges handed
    out at startup (chunks of [ceil(n / P)] rows, clipped to [n]) are
    pairwise disjoint; each range is a run of consecutive rows and the
    first [k] ranges together are exactly the rows below
    [min(k * chunk, n)], so no row is skipped between one range and the
    next; the ranges ascend; their union is exactly [0 .. n - 1]. *)
Theorem partition_exact (size : Z) (cpus : nat) (sab : SharedArrayBuffer) :
  0 < size → (0 < cpus)%nat →
  let ws := startWorkers (Int size) sab cpus in
  let chunk := - (- size / Z.of_nat cpus) in
  let row_of p i := ∃ worker, ws !! p = Some worker ∧ i ∈ rows (wdata worker) in
  base.length ws = cpus
  ∧ (∀ p q i, p ≠ q → row_of p i → ¬ row_of q i)
  ∧ (∀ p i, row_of p i ↔
       (p < cpus)%nat ∧ Z.of_nat p * chunk <= i < Z.of_nat p * chunk + chunk
       ∧ i < size)
  ∧ (∀ k i, (k <= cpus)%nat →
       (∃ p, (p < k)%nat ∧ row_of p i) ↔ 0 <= i < Z.min (Z.of_nat k * chunk) size)
  ∧ (∀ p q i i', (p < q)%nat → row_of p i → row_of q i' → i < i')
  ∧ (∀ i, 0 <= i < size ↔ ∃ p, row_of p i).
Proof.
  intros Hsize Hcpus ws chunk row_of.
  destruct (ceil_div_bounds size (Z.of_nat cpus)) as [Hc Hcover]; [lia..|].
  fold chunk in Hc, Hcover.
  assert (ceil_div (Int size) (Z.of_nat cpus) = Int chunk) as Echunk.
  { unfold ceil_div. destruct (Z.eqb_spec (Z.of_nat cpus) 0); [lia|reflexivity]. }
  assert (∀ p i, row_of p i ↔
       (p < cpus)%nat ∧ Z.of_nat p * chunk <= i < Z.of_nat p * chunk + chunk
       ∧ i < size) as Hrow.
  { intros p i. unfold row_of, ws. split.
    - intros (worker & Hw & Hi). apply startWorkers_lookup in Hw as [Hp ->].
      rewrite Echunk in Hi. simpl in Hi. apply rows_range in Hi. lia.
    - intros (Hp & Hi). eexists. split.
      + apply startWorkers_lookup. split; [exact Hp|reflexivity].
      + rewrite Echunk. simpl. apply rows_range. lia. }
  assert (∀ k i, (k <= cpus)%nat →
       (∃ p, (p < k)%nat ∧ row_of p i) ↔ 0 <= i < Z.min (Z.of_nat k * chunk) size)
    as Hprefix.
  { intros k i Hk. split.
    - intros (p & Hp & Hi). apply Hrow in Hi. nia.
    - intros Hi. exists (Z.to_nat (i / chunk)).
      pose proof (Z.div_mod i chunk ltac:(lia)) as E.
      pose proof (Z.mod_pos_bound i chunk Hc) as B.
      assert (0 <= i / chunk) by (apply Z.div_pos; lia).
      assert (i / chunk < Z.of_nat k) by nia.
      split; [lia|]. apply Hrow. rewrite Z2Nat.id by lia. nia. }
  split; [apply length_startWorkers|].
  split; [|split; [exact Hrow|split; [exact Hprefix|split]]].
  - intros p q i Hpq Hp Hq. apply Hrow in Hp, Hq.
    destruct (decide (p < q)%nat); nia.
  - intros p q i i' Hpq Hp Hq. apply Hrow in Hp, Hq. nia.
  - intros i. specialize (Hprefix cpus i (le_n _)).
    rewrite Z.min_r in Hprefix by lia. rewrite <- Hprefix. split.
    + intros (p & _ & Hi). exists p. exact Hi.
    + intros (p & Hi). exists p. split; [|exact Hi]. apply Hrow in Hi. lia.
Qed.

Lemma partition_exact_witness :
  let ws := startWorkers (Int 10) {| byteLength := 240 |} 4 in
  let chunk := - (- 10 / Z.of_nat 4) in
  let row_of p i := ∃ worker, ws !! p = Some worker ∧ i ∈ rows (wdata worker) in
  base.length ws = 4%nat
  ∧ (∀ p q i, p ≠ q → row_of p i → ¬ row_of q i)
  ∧ (∀ p i, row_of p i ↔
       (p < 4)%nat ∧ Z.of_nat p * chunk <= i < Z.of_nat p * chunk + chunk
       ∧ i < 10)
  ∧ (∀ k i, (k <= 4)%nat →
       (∃ p, (p < k)%nat ∧ row_of p i) ↔ 0 <= i < Z.min (Z.of_nat k * chunk) 10)
  ∧ (∀ p q i i', (p < q)%nat → row_of p i → row_of q i' → i < i')
  ∧ (∀ i, 0 <= i < 10 ↔ ∃ p, row_of p i).
Proof. apply (partition_exact 10 4 {| byteLength := 240 |}); lia. Defined.

(** The ranges the program hands out for [n = 10] on four processors, and
    for [n = 1] on three: ranges after the clipped one are empty. *)
Example ranges_10_4 :
  wdata <$> startWorkers (Int 10) {| byteLength := 240 |} 4
  = [ {| n := Int 10; start := Int 0; end_ := Int 3 |};
      {| n := Int 10; start := Int 3; end_ := Int 6 |};
      {| n := Int 10; start := Int 6; end_ := Int 9 |};
      {| n := Int 10; start := Int 9; end_ := Int 10 |} ].
Proof. reflexivity. Qed.

Example ranges_1_3 :
  wdata <$> startWorkers (Int 1) {| byteLength := 24 |} 3
  = [ {| n := Int 1; start := Int 0; end_ := Int 1 |};
      {| n := Int 1; start := Int 1; end_ := Int 1 |};
      {| n := Int 1; start := Int 2; end_ := Int 1 |} ]
  ∧ rows <$> (wdata <$> startWorkers (Int 1) {| byteLength := 24 |} 3)
    = [[0]; []; []].
Proof. split; reflexivity. Qed.

(** ** The worker before its initialisation *)

Lemma list_lookup_insert_same {A} (l : list A) i x y :
  l !! i = Some y → <[i := x]> l !! i = Some x.
Proof. intros H. apply list_lookup_insert_eq. eapply lookup_lt_Some, H. Qed.

(** C9.  A worker whose callback runs on a compute unit ([Au] or [Atu])
    while [data] is still [undefined] throws an [Error] that names the
    unit: it posts no completion, writes nothing to the shared buffer,
    leaves the coordinator as it was, and runs no callback afterwards. *)
Theorem compute_before_Sab_throws (s : System) (p : nat) (worker : Worker)
    (vec1 vec2 : UVWField) (message : Message) :
  workers s !! p = Some worker → status worker = Running →
  data worker = None → busy worker = Some message →
  message = Au vec1 vec2 ∨ message = Atu vec1 vec2 →
  let error := match message with
               | Au _ _ => "Au received before Sab"
               | _ => "Atu received before Sab"
               end in
  onMessage (wdata worker) None (mem s) message = Thrown error
  ∧ ∃ s' worker',
      step (Done p message) s = Some s'
      ∧ workers s' = <[p := worker']> (workers s)
      ∧ status worker' = Threw error
      ∧ outbox worker' = outbox worker
      ∧ mem s' = mem s ∧ main s' = main s
      ∧ ∀ message', step (Start p message') s' = None
                    ∧ step (Done p message') s' = None.
Proof.
  intros Hp Hrun Hdata Hbusy Hunit error.
  assert (onMessage (wdata worker) None (mem s) message = Thrown error) as Hthrow.
  { destruct Hunit as [-> | ->]; reflexivity. }
  split; [exact Hthrow|].
  set (worker' := {| wdata := wdata worker; data := None; busy := None;
                     inbox := inbox worker; outbox := outbox worker;
                     status := Threw error; listener := listener worker |}).
  exists {| mem := mem s; main_n := main_n s; main_u := main_u s;
            main_v := main_v s; workers := <[p := worker']> (workers s);
            main := main s |}, worker'.
  split.
  { unfold step. rewrite Hp. simpl. unfold finish_worker.
    rewrite Hrun, Hbusy, decide_True by reflexivity.
    rewrite Hdata, Hthrow. reflexivity. }
  do 5 (split; [reflexivity|]).
  intros message'. unfold step. simpl.
  rewrite (list_lookup_insert_same _ _ _ _ Hp). simpl. split; reflexivity.
Qed.

Lemma compute_before_Sab_throws_witness :
  let worker := {| wdata := {| n := Int 2; start := Int 0; end_ := Int 2 |};
                   data := None; busy := Some (Au U W); inbox := [];
                   outbox := 0%nat; status := Running; listener := true |} in
  let s := {| mem := [1; 1; 0; 0; 0; 0]%float; main_n := Int 2;
              main_u := {| byteOffset := 0; len := 2 |};
              main_v := {| byteOffset := 16; len := 2 |};
              workers := [worker]; main := Waiting 1 [] |} in
  onMessage (wdata worker) None (mem s) (Au U W) = Thrown "Au received before Sab"
  ∧ ∃ s' worker',
      step (Done 0 (Au U W)) s = Some s'
      ∧ workers s' = <[0%nat := worker']> (workers s)
      ∧ status worker' = Threw "Au received before Sab"
      ∧ outbox worker' = outbox worker
      ∧ mem s' = mem s ∧ main s' = main s
      ∧ ∀ message', step (Start 0 message') s' = None
                    ∧ step (Done 0 message') s' = None.
Proof.
  intros worker s.
  apply (compute_before_Sab_throws s 0 worker U W (Au U W));
    first [reflexivity | left; reflexivity].
Defined.

(** ** Runs and their counters *)

Lemma exec_app tr1 tr2 s :
  exec (tr1 ++ tr2) s = exec tr1 s ≫= exec tr2.
Proof.
  revert s. induction tr1 as [|e tr1 IH]; intros s; simpl; [reflexivity|].
  destruct (step e s) as [s'|]; simpl; [apply IH|reflexivity].
Qed.

Lemma count_snoc f h e :
  count f (h ++ [e]) = (count f h + if f e then 1 else 0)%nat.
Proof.
  unfold count. rewrite List.filter_app, length_app. simpl.
  destruct (f e); reflexivity.
Qed.

Lemma dispatches_snoc h e :
  dispatches (h ++ [e])
  = dispatches h ++ match e with Dispatch m => [m] | _ => [] end.
Proof. unfold dispatches. rewrite omap_app. destruct e; reflexivity. Qed.

Lemma units_in_snoc queue m :
  units_in (queue ++ [m]) = (units_in queue + if is_unit m then 1 else 0)%nat.
Proof.
  unfold units_in. rewrite List.filter_app, length_app. simpl.
  destruct (is_unit m); reflexivity.
Qed.

Lemma units_in_cons queue m :
  units_in (m :: queue) = ((if is_unit m then 1 else 0) + units_in queue)%nat.
Proof. unfold units_in. simpl. destruct (is_unit m); reflexivity. Qed.

Lemma work_spec message ws wait :
  work message ws wait
  = ((fun worker => set_listener (postMessage worker message) true) <$> ws,
     wait + Z.of_nat (base.length ws)).
Proof.
  revert wait. induction ws as [|worker ws IH]; intros wait; simpl.
  - f_equal. lia.
  - rewrite IH. f_equal. lia.
Qed.

Lemma sum_armed_insert ws q worker worker' :
  ws !! q = Some worker →
  (listeners (<[q := worker']> ws) + armed worker
   = listeners ws + armed worker')%nat.
Proof.
  revert q. induction ws as [|x ws IH]; intros q Hq; [discriminate|].
  destruct q as [|q]; simpl in *.
  - injection Hq as ->. lia.
  - specialize (IH q Hq). lia.
Qed.

Lemma sum_armed_zero ws p worker :
  listeners ws = 0%nat → ws !! p = Some worker →
  listener worker = false.
Proof.
  revert p. induction ws as [|x ws IH]; intros p Hsum Hp; [discriminate|].
  simpl in Hsum. destruct p as [|p]; simpl in Hp.
  - injection Hp as ->. unfold armed in Hsum.
    destruct (listener worker); [lia|reflexivity].
  - apply (IH p); [lia|assumption].
Qed.

Lemma sum_armed_all ws message :
  listeners
    ((fun worker => set_listener (postMessage worker message) true) <$> ws)
  = base.length ws.
Proof. induction ws as [|x ws IH]; simpl; [reflexivity|]. f_equal. exact IH. Qed.

Lemma iterations_units todo done :
  done ++ todo = iterations → Forall (fun m => is_unit m = true) todo.
Proof.
  intros H.
  assert (Forall (fun m => is_unit m = true) iterations) as Hall
    by (vm_compute; repeat constructor).
  rewrite <- H in Hall. apply Forall_app in Hall. apply Hall.
Qed.

(** ** The invariant holds along every run *)

Lemma mainThread_Some size cpus s0 :
  mainThread size cpus = Some s0 →
  ∃ sab m x y,
    new_SharedArrayBuffer (num_times (3 * bytesPerFloat) size) = Some (sab, m)
    ∧ new_Float64Array sab (Int 0) size = Some x
    ∧ new_Float64Array sab (num_times bytesPerFloat size) size = Some y
    ∧ s0 = {| mem := fill m x 1%float; main_n := size; main_u := x;
              main_v := y; workers := startWorkers size sab cpus;
              main := Ready iterations |}.
Proof.
  unfold mainThread. intros H.
  destruct (new_SharedArrayBuffer _) as [[sab m]|] eqn:E1; [|discriminate].
  simpl in H.
  destruct (new_Float64Array sab (Int 0) size) as [x|] eqn:E2; [|discriminate].
  simpl in H.
  destruct (new_Float64Array sab (num_times bytesPerFloat size) size)
    as [y|] eqn:E3; [|discriminate].
  simpl in H. injection H as <-. exists sab, m, x, y. auto.
Qed.

Lemma inv_init size cpus s0 : mainThread size cpus = Some s0 → inv [] s0.
Proof.
  intros H. apply mainThread_Some in H as (sab & m & x & y & _ & _ & _ & ->).
  split; simpl; [|reflexivity].
  intros p worker Hp. apply startWorkers_lookup in Hp as [_ ->].
  unfold worker_inv, tally. simpl. repeat split; first [reflexivity | lia].
Qed.

Lemma count_other_start p q m h :
  p ≠ q → count (is_start p) (h ++ [Start q m]) = count (is_start p) h.
Proof.
  intros Hne. rewrite count_snoc. simpl.
  rewrite bool_decide_false by congruence. simpl. lia.
Qed.

Lemma count_other_done p q m h :
  p ≠ q → count (is_done p) (h ++ [Done q m]) = count (is_done p) h.
Proof.
  intros Hne. rewrite count_snoc. simpl.
  rewrite bool_decide_false by congruence. simpl. lia.
Qed.

Lemma count_other_deliver p q h :
  p ≠ q → count (is_deliver p) (h ++ [Deliver q]) = count (is_deliver p) h.
Proof.
  intros Hne. rewrite count_snoc. simpl.
  rewrite bool_decide_false by congruence. lia.
Qed.

Lemma onMessage_posted wd d m message d' m' k :
  onMessage wd d m message = Handled d' m' k →
  k = if is_unit message then 1%nat else 0%nat.
Proof.
  destruct message as [buffer|vec1 vec2|vec1 vec2|]; simpl.
  - destruct (views wd buffer); intros [=]; congruence.
  - destruct d; intros [=]; congruence.
  - destruct d; intros [=]; congruence.
  - discriminate.
Qed.

Lemma step_inv h e s s' : inv h s → step e s = Some s' → inv (h ++ [e]) s'.
Proof.
  intros [Hw Hc] Hstep. destruct e as [m | q m | q m | q | ]; simpl in Hstep.
  - (* the coordinator dispatches [m] *)
    destruct (main s) as [[|m0 todo]| |] eqn:Hmain; try discriminate.
    destruct (decide (m0 = m)) as [->|]; [|discriminate].
    rewrite work_spec in Hstep. injection Hstep as <-. simpl in Hc.
    pose proof (iterations_units _ _ Hc) as Hunits.
    apply Forall_cons in Hunits as [Hm _].
    split; simpl.
    + intros p worker' Hp. rewrite list_lookup_fmap in Hp.
      apply fmap_Some in Hp as (worker & Hp & ->).
      specialize (Hw p worker Hp).
      destruct Hw as (H1 & H2 & H3 & H4 & H5).
      unfold worker_inv, tally. rewrite !count_snoc. simpl.
      rewrite units_in_snoc, Hm. unfold armed, busy_unit in *. simpl.
      rewrite H5 in H4. lia.
    + rewrite dispatches_snoc, <- app_assoc. split; [exact Hc|].
      rewrite sum_armed_all. lia.
  - (* worker [q] takes the next message *)
    destruct (workers s !! q) as [w0|] eqn:Hq; [|discriminate]. simpl in Hstep.
    destruct (start_worker w0 m) as [w1|] eqn:Hs; [|discriminate].
    injection Hstep as <-. simpl.
    unfold start_worker in Hs.
    destruct (status w0) eqn:Hst; try discriminate.
    destruct (busy w0) eqn:Hb; try discriminate.
    destruct (inbox w0) as [|m0 rest] eqn:Hi; try discriminate.
    destruct (decide (m0 = m)) as [->|]; [|discriminate].
    injection Hs as <-.
    split; simpl.
    + intros p worker Hp. destruct (decide (p = q)) as [->|Hne].
      * rewrite (list_lookup_insert_same _ _ _ _ Hq) in Hp. injection Hp as <-.
        destruct (Hw q w0 Hq) as (H1 & H2 & H3 & H4 & H5).
        unfold worker_inv, tally. rewrite !count_snoc. simpl.
        rewrite bool_decide_true by reflexivity. simpl.
        rewrite Hi, units_in_cons in H1. unfold busy_unit, armed in *.
        rewrite Hb in H2. simpl. destruct (is_unit m); repeat split; try lia;
          exact H5.
      * rewrite list_lookup_insert_ne in Hp by congruence.
        specialize (Hw p worker Hp). unfold worker_inv in *.
        rewrite count_other_start by assumption. rewrite !count_snoc. simpl.
        rewrite !Nat.add_0_r. exact Hw.
    + destruct (main s) as [todo|wait todo|out]; simpl in *;
        rewrite dispatches_snoc, app_nil_r; try exact Hc.
      destruct Hc as [Hc ->]. split; [exact Hc|].
      match goal with |- context [<[q := ?w]> _] =>
        pose proof (sum_armed_insert (workers s) q w0 w Hq) as E;
        change (armed w) with (armed w0) in E
      end. lia.
  - (* the callback of worker [q] ends *)
    destruct (workers s !! q) as [w0|] eqn:Hq; [|discriminate]. simpl in Hstep.
    destruct (finish_worker w0 m (mem s)) as [[w1 m1]|] eqn:Hf; [|discriminate].
    simpl in Hstep. injection Hstep as <-. simpl.
    unfold finish_worker in Hf.
    destruct (status w0) eqn:Hst; try discriminate.
    destruct (busy w0) as [b|] eqn:Hb; try discriminate.
    destruct (decide (b = m)) as [->|]; [|discriminate].
    assert (inbox w1 = inbox w0 ∧ listener w1 = listener w0 ∧ busy w1 = None
            ∧ (outbox w1 <= outbox w0 + if is_unit m then 1 else 0)%nat)
      as (Ei & El & Eb & Eo).
    { destruct (onMessage (wdata w0) (data w0) (mem s) m) as [d' m' k| |] eqn:Ho;
        injection Hf as <- <-; simpl; repeat split; try lia.
      apply onMessage_posted in Ho. lia. }
    assert (armed w1 = armed w0) as Ea by (unfold armed; rewrite El; reflexivity).
    split; simpl.
    + intros p worker Hp. destruct (decide (p = q)) as [->|Hne].
      * rewrite (list_lookup_insert_same _ _ _ _ Hq) in Hp. injection Hp as <-.
        destruct (Hw q w0 Hq) as (H1 & H2 & H3 & H4 & H5).
        unfold worker_inv, tally. rewrite !count_snoc. simpl.
        rewrite bool_decide_true by reflexivity. simpl.
        rewrite Ei, Ea, El. unfold busy_unit in *. rewrite Eb. rewrite Hb in H2.
        destruct (is_unit m); repeat split; try lia; exact H5.
      * rewrite list_lookup_insert_ne in Hp by congruence.
        specialize (Hw p worker Hp). unfold worker_inv in *.
        rewrite count_other_done by assumption. rewrite !count_snoc. simpl.
        rewrite !Nat.add_0_r. exact Hw.
    + pose proof (sum_armed_insert (workers s) q w0 w1 Hq) as E.
      destruct (main s) as [todo|wait todo|out]; simpl in *;
        rewrite dispatches_snoc, app_nil_r; try exact Hc.
      destruct Hc as [Hc ->]. split; [exact Hc|lia].
  - (* a completion of worker [q] reaches the coordinator *)
    destruct (workers s !! q) as [w0|] eqn:Hq; [|discriminate]. simpl in Hstep.
    destruct (deliver w0 (main s)) as [[w1 c]|] eqn:Hd; [|discriminate].
    simpl in Hstep. injection Hstep as <-. simpl.
    unfold deliver in Hd. destruct (outbox w0) as [|k] eqn:Ho; [discriminate|].
    destruct (Hw q w0 Hq) as (H1 & H2 & H3 & H4 & H5).
    destruct (listener w0) eqn:Hl;
      [|exfalso; unfold armed in H4; rewrite Hl in H4; lia].
    destruct (main s) as [todo|wait todo|out] eqn:Hmain; try discriminate H5.
    injection Hd as <- <-. destruct Hc as [Hc Hwait].
    match goal with |- context [<[q := ?w]> _] =>
      pose proof (sum_armed_insert (workers s) q w0 w Hq) as E;
      change (armed w) with 0%nat in E; set (w1 := w) in *
    end.
    assert (armed w0 = 1%nat) as Ea by (unfold armed; rewrite Hl; reflexivity).
    assert (∀ p worker, <[q := w1]> (workers s) !! p = Some worker →
            tally (count is_dispatch (h ++ [Deliver q]))
              (count (is_start p) (h ++ [Deliver q]))
              (count (is_done p) (h ++ [Deliver q]))
              (count (is_deliver p) (h ++ [Deliver q]))
              (Waiting wait todo) worker) as Hall.
    { intros p worker Hp. destruct (decide (p = q)) as [->|Hne].
      - rewrite (list_lookup_insert_same _ _ _ _ Hq) in Hp. injection Hp as <-.
        unfold tally. rewrite !count_snoc. simpl.
        rewrite bool_decide_true by reflexivity.
        change (armed w1) with 0%nat. change (outbox w1) with k.
        change (inbox w1) with (inbox w0).
        change (busy_unit w1) with (busy_unit w0).
        repeat split; lia.
      - rewrite list_lookup_insert_ne in Hp by congruence.
        specialize (Hw p worker Hp). unfold worker_inv in Hw.
        rewrite count_other_deliver by assumption. rewrite !count_snoc. simpl.
        rewrite !Nat.add_0_r. exact Hw. }
    destruct (Z.eqb_spec (wait - 1) 0) as [Hz|Hnz]; split; simpl.
    + intros p worker Hp. destruct (Hall p worker Hp) as (? & ? & ? & ? & _).
      repeat split; try assumption.
      apply (sum_armed_zero (<[q := w1]> (workers s)) p); [lia|exact Hp].
    + rewrite dispatches_snoc, app_nil_r. exact Hc.
    + intros p worker Hp. apply Hall, Hp.
    + rewrite dispatches_snoc, app_nil_r. split; [exact Hc|lia].
  - (* the code after the loop *)
    destruct (main s) as [[|? ?]| |] eqn:Hmain; try discriminate.
    injection Hstep as <-. split; simpl.
    + intros p worker' Hp. unfold stopWorkers in Hp.
      rewrite list_lookup_fmap in Hp.
      apply fmap_Some in Hp as (worker & Hp & ->).
      destruct (Hw p worker Hp) as (H1 & H2 & H3 & H4 & H5).
      unfold worker_inv, tally. rewrite !count_snoc. simpl.
      rewrite units_in_snoc. simpl.
      change (busy_unit (postMessage worker Exit)) with (busy_unit worker).
      change (armed (postMessage worker Exit)) with (armed worker).
      repeat split; try lia; exact H5.
    + rewrite dispatches_snoc, app_nil_r. simpl in Hc.
      rewrite app_nil_r in Hc. exact Hc.
Qed.

Lemma exec_inv h tr s s' : inv h s → exec tr s = Some s' → inv (h ++ tr) s'.
Proof.
  revert h s. induction tr as [|e tr IH]; intros h s Hinv Hexec; simpl in Hexec.
  - injection Hexec as <-. rewrite app_nil_r. exact Hinv.
  - destruct (step e s) as [s1|] eqn:Hstep; [|discriminate]. simpl in Hexec.
    replace (h ++ e :: tr) with ((h ++ [e]) ++ tr)
      by (rewrite <- app_assoc; reflexivity).
    eapply IH; [eapply step_inv; eassumption|exact Hexec].
Qed.

Lemma run_inv size cpus s0 tr s :
  mainThread size cpus = Some s0 → exec tr s0 = Some s → inv tr s.
Proof.
  intros H0 Hexec. apply (exec_inv [] tr s0 s); [|exact Hexec].
  eapply inv_init, H0.
Qed.


(** ** A run to the end *)

Lemma exec_cons e tr s : exec (e :: tr) s = step e s ≫= exec tr.
Proof. reflexivity. Qed.

Lemma exec_some tr (s : System) : Some s ≫= exec tr = exec tr s.
Proof. reflexivity. Qed.

Lemma exec_loop (ev : nat → list Event) (I : nat → System → Prop) cpus :
  (∀ k s, (k < cpus)%nat → I k s → ∃ s', exec (ev k) s = Some s' ∧ I (S k) s') →
  ∀ j k s, (k + j = cpus)%nat → I k s →
    ∃ s', exec (seq k j ≫= ev) s = Some s' ∧ I cpus s'.
Proof.
  intros Hstep j. induction j as [|j IH]; intros k s Hk HI.
  - exists s. replace cpus with k by lia. split; [reflexivity|exact HI].
  - destruct (Hstep k s) as (s1 & E1 & I1); [lia|exact HI|].
    destruct (IH (S k) s1) as (s2 & E2 & I2); [lia|exact I1|].
    exists s2. simpl seq. rewrite bind_cons, exec_app, E1. split; assumption.
Qed.

Lemma served_insert k P Q ws worker :
  served k P Q ws → P worker → served (S k) P Q (<[k := worker]> ws).
Proof.
  intros Hs HP p w Hp. destruct (decide (p = k)) as [->|Hne].
  - rewrite decide_True by lia.
    assert (is_Some (ws !! k)) as [w0 Hw0].
    { apply lookup_lt_is_Some. rewrite <- (length_insert ws k worker).
      eapply lookup_lt_Some, Hp. }
    rewrite (list_lookup_insert_same _ _ _ _ Hw0) in Hp. congruence.
  - rewrite list_lookup_insert_ne in Hp by congruence.
    specialize (Hs p w Hp).
    destruct (decide (p < k)%nat), (decide (p < S k)%nat); try lia; assumption.
Qed.

Lemma served_all k P Q ws :
  served k P Q ws → (base.length ws <= k)%nat → Forall P ws.
Proof.
  intros Hs Hk. apply Forall_lookup. intros p w Hp. specialize (Hs p w Hp).
  pose proof (lookup_lt_Some _ _ _ Hp). rewrite decide_True in Hs by lia.
  exact Hs.
Qed.

Lemma served_none P Q ws : Forall Q ws → served 0 P Q ws.
Proof.
  intros HQ p w Hp. rewrite decide_False by lia.
  eapply Forall_lookup_1; eassumption.
Qed.

(** One worker takes [Sab] and makes its views. *)
Lemma boot_step sab s p worker d :
  workers s !! p = Some worker → shaped false [Sab sab] false worker →
  views (wdata worker) sab = Some d →
  ∃ worker',
    exec [Start p (Sab sab); Done p (Sab sab)] s
    = Some (with_workers s (<[p := worker']> (workers s)) (main s))
    ∧ shaped true [] false worker' ∧ wdata worker' = wdata worker.
Proof.
  intros Hp (Hd & Hb & Hi & Ho & Hs & Hl) Hv.
  destruct worker as [wd dt bs ib ob st ls]. simpl in *. subst.
  eexists. split.
  - unfold step. rewrite Hp. simpl. unfold start_worker. simpl.
    rewrite decide_True by reflexivity. simpl.
    rewrite (list_lookup_insert_same _ _ _ _ Hp). simpl.
    unfold finish_worker. simpl. rewrite decide_True by reflexivity.
    rewrite Hv. simpl. unfold with_workers. simpl.
    rewrite list_insert_insert_eq. reflexivity.
  - split; [|reflexivity]. unfold shaped. simpl. eauto 10.
Qed.

(** One worker computes the unit it was sent, and its completion
    reaches the coordinator. *)
Lemma serve_step message s p worker wait todo :
  workers s !! p = Some worker → shaped true [message] true worker →
  is_unit message = true → main s = Waiting wait todo →
  ∃ worker' m,
    exec (serve message p) s
    = Some {| mem := m; main_n := main_n s; main_u := main_u s;
              main_v := main_v s; workers := <[p := worker']> (workers s);
              main := if wait - 1 =? 0 then Ready todo
                      else Waiting (wait - 1) todo |}
    ∧ shaped true [] false worker'.
Proof.
  intros Hp (Hd & Hb & Hi & Ho & Hs & Hl) Hu Hmain.
  destruct worker as [wd dt bs ib ob st ls]. simpl in *. subst.
  destruct Hd as [d ->].
  assert (∃ m, onMessage wd (Some d) (mem s) message = Handled (Some d) m 1)
    as [m Hm].
  { destruct message; try discriminate; simpl; eauto. }
  eexists; exists m. split.
  - unfold serve, exec, step. rewrite Hp. simpl. unfold start_worker. simpl.
    rewrite decide_True by reflexivity. simpl.
    rewrite (list_lookup_insert_same _ _ _ _ Hp). simpl.
    unfold finish_worker. simpl. rewrite decide_True by reflexivity.
    rewrite Hm. simpl.
    rewrite list_insert_insert_eq, (list_lookup_insert_same _ _ _ _ Hp). simpl.
    rewrite Hmain. simpl. rewrite list_insert_insert_eq. reflexivity.
  - unfold shaped. simpl. eauto 10.
Qed.

(** What no step changes: the closure of [mainThread], the number of
    workers and the size of the buffer. *)
Lemma step_closure e s s' :
  step e s = Some s' →
  main_n s' = main_n s ∧ main_u s' = main_u s ∧ main_v s' = main_v s
  ∧ base.length (workers s') = base.length (workers s)
  ∧ base.length (mem s') = base.length (mem s).
Proof.
  intros Hstep. destruct e as [m | q m | q m | q | ]; simpl in Hstep.
  - destruct (main s) as [[|m0 todo]| |]; try discriminate.
    destruct (decide (m0 = m)); [|discriminate].
    rewrite work_spec in Hstep. injection Hstep as <-. simpl.
    rewrite length_fmap. auto.
  - destruct (workers s !! q) as [w0|]; [|discriminate]. simpl in Hstep.
    destruct (start_worker w0 m) as [w1|]; [|discriminate].
    injection Hstep as <-. simpl. rewrite length_insert. auto.
  - destruct (workers s !! q) as [w0|]; [|discriminate]. simpl in Hstep.
    destruct (finish_worker w0 m (mem s)) as [[w1 m1]|] eqn:Hf; [|discriminate].
    simpl in Hstep. injection Hstep as <-. simpl. rewrite length_insert.
    repeat split; try reflexivity.
    unfold finish_worker in Hf.
    destruct (status w0); try discriminate.
    destruct (busy w0) as [b|]; try discriminate.
    destruct (decide (b = m)) as [->|]; [|discriminate].
    destruct m as [buffer|vec1 vec2|vec1 vec2|]; simpl in Hf.
    + destruct (views (wdata w0) buffer); injection Hf as <- <-; reflexivity.
    + destruct (data w0); injection Hf as <- <-; [|reflexivity].
      apply rows_length.
    + destruct (data w0); injection Hf as <- <-; [|reflexivity].
      apply rows_length.
    + injection Hf as <- <-. reflexivity.
  - destruct (workers s !! q) as [w0|]; [|discriminate]. simpl in Hstep.
    destruct (deliver w0 (main s)) as [[w1 c]|]; [|discriminate].
    injection Hstep as <-. simpl. rewrite length_insert. auto.
  - destruct (main s) as [[|? ?]| |]; try discriminate.
    injection Hstep as <-. simpl. unfold stopWorkers. rewrite length_fmap. auto.
Qed.

Lemma exec_closure tr s s' :
  exec tr s = Some s' →
  main_n s' = main_n s ∧ main_u s' = main_u s ∧ main_v s' = main_v s
  ∧ base.length (workers s') = base.length (workers s)
  ∧ base.length (mem s') = base.length (mem s).
Proof.
  revert s. induction tr as [|e tr IH]; intros s Hexec; simpl in Hexec.
  - injection Hexec as <-. auto.
  - destruct (step e s) as [s1|] eqn:Hstep; [|discriminate]. simpl in Hexec.
    destruct (IH s1 Hexec) as (-> & -> & -> & -> & ->).
    exact (step_closure e s s1 Hstep).
Qed.

Lemma ToIndex_ok z : 0 <= z <= 2 ^ 53 - 1 → ToIndex (Int z) = Some z.
Proof.
  intros Hz. unfold ToIndex.
  destruct (Z.leb_spec 0 z), (Z.leb_spec z (2 ^ 53 - 1)); try lia. reflexivity.
Qed.

Lemma new_Float64Array_ok buffer off z :
  0 <= off <= 2 ^ 53 - 1 → 0 <= z <= 2 ^ 53 - 1 → off mod bytesPerFloat = 0 →
  off + z * bytesPerFloat <= byteLength buffer →
  new_Float64Array buffer (Int off) (Int z)
  = Some {| byteOffset := off; len := z |}.
Proof.
  intros Ho Hz Hm Hfit. unfold new_Float64Array.
  rewrite !ToIndex_ok by assumption. simpl. rewrite Hm. simpl.
  destruct (Z.leb_spec (off + z * bytesPerFloat) (byteLength buffer)); [|lia].
  reflexivity.
Qed.

(** Where the allocations of [mainThread] succeed, so do the views of
    every worker. *)
Lemma mainThread_views size cpus s0 :
  mainThread size cpus = Some s0 →
  ∃ sab, workers s0 = startWorkers size sab cpus ∧ main s0 = Ready iterations
         ∧ main_n s0 = size
         ∧ ∀ wd, n wd = size → is_Some (views wd sab).
Proof.
  intros H. apply mainThread_Some in H as (sab & m & x & y & E1 & E2 & E3 & ->).
  exists sab. do 3 (split; [reflexivity|]). intros wd Hn.
  unfold views. rewrite Hn, E2, E3. simpl.
  destruct size as [z|].
  - unfold new_SharedArrayBuffer in E1.
    change (num_times (3 * bytesPerFloat) (Int z))
      with (Int (3 * bytesPerFloat * z)) in E1.
    destruct (ToIndex (Int (3 * bytesPerFloat * z))) as [l|] eqn:El;
      simpl in E1; [|discriminate].
    apply ToIndex_Int in El as [-> Hl]. injection E1 as <- _.
    unfold bytesPerFloat in *. simpl.
    rewrite new_Float64Array_ok; unfold bytesPerFloat; simpl;
      [eauto|lia|lia| |lia].
    replace (2 * 8 * z) with (2 * z * 8) by lia. apply Z.mod_mul. lia.
  - injection E1 as <- _. vm_compute. eauto.
Qed.

(** The workers take [Sab] one after the other. *)
Lemma boot_runs size sab cpus s :
  workers s = startWorkers size sab cpus →
  (∀ wd, n wd = size → is_Some (views wd sab)) →
  ∃ s', exec (boot cpus sab) s = Some s'
        ∧ Forall (shaped true [] false) (workers s') ∧ main s' = main s.
Proof.
  intros Hws Hviews.
  set (Q := fun worker =>
              shaped false [Sab sab] false worker ∧ n (wdata worker) = size).
  set (I := fun k s' =>
              base.length (workers s') = cpus
              ∧ served k (shaped true [] false) Q (workers s')
              ∧ main s' = main s).
  destruct (exec_loop (fun p => [Start p (Sab sab); Done p (Sab sab)]) I cpus)
    with (j := cpus) (k := 0%nat) (s := s) as (s' & Hexec & Hlen & Hserved & Hmain).
  - intros k s1 Hk (Hlen & Hserved & Hmain).
    destruct (lookup_lt_is_Some_2 (workers s1) k) as [worker Hw]; [lia|].
    pose proof (Hserved k worker Hw) as HQ.
    rewrite decide_False in HQ by lia. destruct HQ as [Hshape Hn].
    destruct (Hviews (wdata worker) Hn) as [d Hd].
    destruct (boot_step sab s1 k worker d Hw Hshape Hd) as (w' & -> & Hw' & _).
    eexists. split; [reflexivity|]. unfold I. simpl.
    rewrite length_insert. split; [exact Hlen|]. split; [|exact Hmain].
    apply served_insert; assumption.
  - lia.
  - unfold I. rewrite Hws, length_startWorkers.
    split; [reflexivity|]. split; [|reflexivity].
    apply served_none, Forall_lookup. intros p worker Hp.
    apply startWorkers_lookup in Hp as [_ ->]. unfold Q, shaped. simpl. auto 10.
  - exists s'. split; [exact Hexec|]. split; [|exact Hmain].
    eapply served_all; [exact Hserved|lia].
Qed.

(** One unit: the broadcast, then every worker computes and reports. *)
Lemma round_runs cpus message todo s :
  (0 < cpus)%nat → base.length (workers s) = cpus →
  Forall (shaped true [] false) (workers s) →
  main s = Ready (message :: todo) → is_unit message = true →
  ∃ s', exec (round cpus message) s = Some s'
        ∧ Forall (shaped true [] false) (workers s') ∧ main s' = Ready todo.
Proof.
  intros Hcpus Hlen Hidle Hmain Hunit.
  set (f := fun worker => set_listener (postMessage worker message) true).
  set (s1 := with_workers s (f <$> workers s) (Waiting (Z.of_nat cpus) todo)).
  assert (step (Dispatch message) s = Some s1) as Hdispatch.
  { unfold step. rewrite Hmain, decide_True by reflexivity.
    rewrite work_spec, Hlen. reflexivity. }
  set (I := fun k s' =>
              base.length (workers s') = cpus
              ∧ served k (shaped true [] false) (shaped true [message] true)
                  (workers s')
              ∧ main s' = if decide (k = cpus) then Ready todo
                          else Waiting (Z.of_nat (cpus - k)) todo).
  destruct (exec_loop (serve message) I cpus)
    with (j := cpus) (k := 0%nat) (s := s1)
    as (s' & Hexec & Hlen' & Hserved & Hend).
  - intros k s2 Hk (Hlen2 & Hserved & Hmain2).
    destruct (lookup_lt_is_Some_2 (workers s2) k) as [worker Hw]; [lia|].
    pose proof (Hserved k worker Hw) as Hshape.
    rewrite decide_False in Hshape by lia.
    rewrite decide_False in Hmain2 by lia.
    destruct (serve_step message s2 k worker _ todo Hw Hshape Hunit Hmain2)
      as (w' & m & -> & Hw').
    eexists. split; [reflexivity|]. unfold I. simpl.
    rewrite length_insert. split; [exact Hlen2|].
    split; [apply served_insert; assumption|].
    destruct (decide (S k = cpus)), (Z.eqb_spec (Z.of_nat (cpus - k) - 1) 0);
      try lia; [reflexivity|]. do 2 f_equal. lia.
  - lia.
  - unfold I, s1. simpl. rewrite length_fmap, decide_False, Nat.sub_0_r by lia.
    split; [exact Hlen|]. split; [|reflexivity].
    apply served_none, Forall_lookup. intros p worker' Hp.
    rewrite list_lookup_fmap in Hp. apply fmap_Some in Hp as (worker & Hp & ->).
    pose proof (Forall_lookup_1 _ _ _ _ Hidle Hp) as (Hd & Hb & Hi & Ho & Hs & Hl).
    unfold f, shaped. simpl. rewrite Hi. auto 10.
  - exists s'. split.
    + unfold round. rewrite exec_cons, Hdispatch. exact Hexec.
    + split; [eapply served_all; [exact Hserved|lia]|].
      rewrite decide_True in Hend by reflexivity. exact Hend.
Qed.

(** All the units of the loop. *)
Lemma rounds_run cpus todo s :
  (0 < cpus)%nat → base.length (workers s) = cpus →
  Forall (shaped true [] false) (workers s) → main s = Ready todo →
  Forall (fun m => is_unit m = true) todo →
  ∃ s', exec (todo ≫= round cpus) s = Some s' ∧ main s' = Ready [].
Proof.
  intros Hcpus. revert s.
  induction todo as [|message todo IH]; intros s Hlen Hidle Hmain Hunits.
  - exists s. split; [reflexivity|exact Hmain].
  - apply Forall_cons in Hunits as [Hunit Hunits].
    destruct (round_runs cpus message todo s) as (s1 & E1 & Hidle1 & Hmain1);
      try assumption.
    destruct (exec_closure _ _ _ E1) as (_ & _ & _ & Hlen1 & _).
    destruct (IH s1) as (s2 & E2 & Hmain2); try assumption; [congruence|].
    exists s2. rewrite bind_cons, exec_app, E1. split; assumption.
Qed.

(** The program runs to its end: there is a run from the state after
    startup that dispatches all of [iterations] and prints the norm of the
    buffer it ends with. *)
Lemma schedule_runs size cpus s0 :
  mainThread size cpus = Some s0 → (0 < cpus)%nat →
  ∃ tr s,
    exec tr s0 = Some s
    ∧ main s
      = Finished (toFixed (norm size (mem s) (main_u s0) (main_v s0)) 9).
Proof.
  intros H0 Hcpus.
  destruct (mainThread_views size cpus s0 H0) as (sab & Hws & Hmain & Hn & Hviews).
  destruct (boot_runs size sab cpus s0 Hws Hviews) as (s1 & E1 & Hidle1 & Hmain1).
  destruct (exec_closure _ _ _ E1) as (Hn1 & Hu1 & Hv1 & Hlen1 & _).
  rewrite Hws, length_startWorkers in Hlen1. rewrite Hmain in Hmain1.
  destruct (rounds_run cpus iterations s1) as (s2 & E2 & Hmain2);
    try assumption.
  { apply (iterations_units iterations []). reflexivity. }
  destruct (exec_closure _ _ _ E2) as (Hn2 & Hu2 & Hv2 & _).
  exists (schedule cpus sab). eexists. split.
  - unfold schedule. rewrite exec_app, E1, exec_some, exec_app, E2, exec_some.
    rewrite exec_cons. unfold step. rewrite Hmain2. reflexivity.
  - simpl. rewrite Hn2, Hn1, Hn, Hu2, Hu1, Hv2, Hv1. reflexivity.
Qed.

(** ** The printed text *)

Lemma digit_is_digit r : 0 <= r < 10 → is_digit (digit r).
Proof.
  intros Hr. unfold is_digit, digit.
  rewrite Ascii.nat_ascii_embedding by lia. lia.
Qed.

Lemma chars_app s t :
  String.list_ascii_of_string (s +:+ t)
  = String.list_ascii_of_string s ++ String.list_ascii_of_string t.
Proof. induction s as [|c s IH]; simpl; [reflexivity|]. f_equal. exact IH. Qed.

Lemma length_app_string s t :
  String.length (s +:+ t) = (String.length s + String.length t)%nat.
Proof. induction s as [|c s IH]; simpl; [reflexivity|]. f_equal. exact IH. Qed.

Lemma frac_digits_shape f r :
  String.length (frac_digits f r) = f
  ∧ Forall is_digit (String.list_ascii_of_string (frac_digits f r)).
Proof.
  revert r. induction f as [|f IH]; intros r; simpl.
  - split; [reflexivity|constructor].
  - destruct (IH (r / 10)) as [Hlen Hdig].
    rewrite length_app_string, chars_app, Hlen. simpl. split; [lia|].
    apply Forall_app. split; [exact Hdig|].
    constructor; [|constructor]. apply digit_is_digit, Z.mod_pos_bound. lia.
Qed.

Lemma pretty_N_char_is_digit x : is_digit (pretty_N_char x).
Proof.
  unfold is_digit, pretty_N_char.
  repeat case_match; vm_compute; lia.
Qed.

Lemma pretty_N_go_shape x s :
  Forall is_digit (String.list_ascii_of_string s) →
  Forall is_digit (String.list_ascii_of_string (pretty_N_go x s))
  ∧ (String.length s <= String.length (pretty_N_go x s))%nat.
Proof.
  revert s. induction (N.lt_wf_0 x) as [x _ IH]. intros s Hs.
  destruct (N.eq_dec x 0%N) as [->|Hx].
  - rewrite pretty_N_go_0. split; [exact Hs|lia].
  - rewrite pretty_N_go_step by lia.
    destruct (IH (x `div` 10)%N) with (s := String (pretty_N_char (x `mod` 10)) s)
      as [Hd Hl].
    + apply N.div_lt; lia.
    + simpl. constructor; [apply pretty_N_char_is_digit|exact Hs].
    + split; [exact Hd|]. simpl in Hl. lia.
Qed.

Lemma pretty_Z_shape k :
  0 <= k →
  pretty k ≠ "" ∧ Forall is_digit (String.list_ascii_of_string (pretty k)).
Proof.
  intros Hk. destruct k as [|p|p]; [| |lia].
  - split; [discriminate|]. constructor; [|constructor].
    vm_compute. lia.
  - change (pretty (Z.pos p)) with (pretty_N_go (N.pos p) "").
    rewrite pretty_N_go_step by lia.
    destruct (pretty_N_go_shape (N.pos p `div` 10)
                (String (pretty_N_char (N.pos p `mod` 10)) "")) as [Hd Hl].
    { constructor; [apply pretty_N_char_is_digit|constructor]. }
    split; [|exact Hd]. intros E. rewrite E in Hl. simpl in Hl. lia.
Qed.

(** A finite double below [10^21] is printed with exactly nine digits
    after the point. *)
Lemma toFixed_nine_decimals x :
  fixed_range x = true → ∃ t, toFixed x 9 = Text t ∧ nine_decimals t.
Proof.
  unfold fixed_range, toFixed. destruct (Prim2SF x) as [s|s| |s m e];
    try discriminate; intros Hr.
  - exists "0.000000000". split; [reflexivity|].
    exists "", "0", "000000000". split; [reflexivity|].
    split; [left; reflexivity|]. split; [discriminate|].
    split; [|split; [reflexivity|]];
      repeat (constructor; [vm_compute; lia|]); constructor.
  - apply negb_true_iff in Hr. rewrite Hr.
    set (num := if 0 <=? e then Z.pos m * 2 ^ e else Z.pos m) in *.
    set (den := if 0 <=? e then 1 else 2 ^ (- e)) in *.
    set (k := (2 * num * 10 ^ Z.of_nat 9 + den) / (2 * den)).
    assert (0 < den) as Hden.
    { unfold den. destruct (Z.leb_spec 0 e); [lia|]. apply Z.pow_pos_nonneg; lia. }
    assert (0 <= num) as Hnum.
    { unfold num. destruct (Z.leb_spec 0 e); [|lia].
      apply Z.mul_nonneg_nonneg; [lia|]. apply Z.pow_nonneg. lia. }
    assert (0 <= k) as Hk.
    { unfold k. apply Z.div_pos; [|lia].
      assert (0 <= 2 * num * 10 ^ Z.of_nat 9) by (apply Z.mul_nonneg_nonneg; lia).
      lia. }
    eexists. split; [reflexivity|].
    exists (if s then "-" else ""), (pretty (k / 10 ^ Z.of_nat 9)),
      (frac_digits 9 k).
    split; [reflexivity|]. split; [destruct s; auto|].
    destruct (pretty_Z_shape (k / 10 ^ Z.of_nat 9)) as [Hne Hd].
    { apply Z.div_pos; [exact Hk|]. reflexivity. }
    destruct (frac_digits_shape 9 k) as [Hl Hf]. auto.
Qed.


(** ** The barrier *)

Lemma mainThread_workers size cpus s0 tr s :
  mainThread size cpus = Some s0 → exec tr s0 = Some s →
  base.length (workers s) = cpus ∧ main_n s = size
  ∧ main_u s = main_u s0 ∧ main_v s = main_v s0.
Proof.
  intros H0 Hexec.
  destruct (mainThread_views size cpus s0 H0) as (sab & Hws & _ & Hn & _).
  destruct (exec_closure _ _ _ Hexec) as (-> & -> & -> & -> & _).
  rewrite Hws, length_startWorkers. auto.
Qed.

Lemma inv_barrier cpus h s :
  inv h s → base.length (workers s) = cpus → barrier cpus h.
Proof.
  intros [Hw _] Hlen p q Hp Hq.
  destruct (lookup_lt_is_Some_2 (workers s) p) as [wp Hwp]; [lia|].
  destruct (lookup_lt_is_Some_2 (workers s) q) as [wq Hwq]; [lia|].
  destruct (Hw p wp Hwp) as (H1 & _).
  destruct (Hw q wq Hwq) as (_ & _ & H3 & H4 & _).
  unfold armed in H4. destruct (listener wq); lia.
Qed.

Lemma inv_all_received cpus h s :
  inv h s → base.length (workers s) = cpus →
  (∃ todo, main s = Ready todo) → all_received cpus h.
Proof.
  intros [Hw _] Hlen [todo Hmain] p Hp.
  destruct (lookup_lt_is_Some_2 (workers s) p) as [wp Hwp]; [lia|].
  specialize (Hw p wp Hwp). rewrite Hmain in Hw.
  destruct Hw as (_ & _ & _ & H4 & H5).
  unfold armed in H4. rewrite H5 in H4. lia.
Qed.

Lemma dispatch_ready message s s' :
  step (Dispatch message) s = Some s' →
  (∃ todo, main s = Ready (message :: todo) ∧ main s' = Waiting (Z.of_nat (base.length (workers s))) todo)
  ∧ broadcast message s s'.
Proof.
  unfold step. intros Hstep.
  destruct (main s) as [[|m todo]| |]; try discriminate.
  destruct (decide (m = message)) as [->|]; [|discriminate].
  rewrite work_spec in Hstep. injection Hstep as <-. simpl.
  split; [eauto|]. split; simpl; [apply length_fmap|].
  intros p worker Hp. rewrite list_lookup_fmap, Hp. simpl. eauto.
Qed.

(** C5.  In every run of the program: a dispatched unit is put in the
    queue of every worker; when the coordinator dispatches a unit, it has
    received from each worker exactly as many completions as it had
    dispatched units before, one per unit; so no worker has started more
    than one unit beyond what every worker has finished: unit [k + 1]
    starts nowhere before unit [k] is finished everywhere. *)
Theorem coordinator_barrier (size : number) (cpus : nat) (s0 s : System)
    (tr : list Event) :
  mainThread size cpus = Some s0 → exec tr s0 = Some s →
  (∀ message s', step (Dispatch message) s = Some s' →
     broadcast message s s' ∧ all_received cpus tr)
  ∧ barrier cpus tr.
Proof.
  intros H0 Hexec.
  pose proof (run_inv _ _ _ _ _ H0 Hexec) as Hinv.
  destruct (mainThread_workers _ _ _ _ _ H0 Hexec) as (Hlen & _).
  split; [|eapply inv_barrier; eassumption].
  intros message s' Hstep.
  apply dispatch_ready in Hstep as [(todo & Hmain & _) Hb].
  split; [exact Hb|]. eapply inv_all_received; eauto.
Qed.

Lemma coordinator_barrier_witness :
  let tr := boot 2 {| byteLength := 48 |}
            ++ [Dispatch (Au U W); Start 0 (Au U W); Done 0 (Au U W);
                Deliver 0; Start 1 (Au U W)] in
  ∃ s0 s,
    mainThread (Int 2) 2 = Some s0 ∧ exec tr s0 = Some s
    ∧ (∀ message s', step (Dispatch message) s = Some s' →
         broadcast message s s' ∧ all_received 2 tr)
    ∧ barrier 2 tr.
Proof.
  intros tr.
  destruct (mainThread (Int 2) 2) as [s0|] eqn:H0;
    [|vm_compute in H0; discriminate H0].
  destruct (exec tr s0) as [s|] eqn:H1.
  - exists s0, s. split; [reflexivity|]. split; [exact H1|].
    exact (coordinator_barrier (Int 2) 2 s0 s tr H0 H1).
  - exfalso.
    assert (mainThread (Int 2) 2 ≫= exec tr = None) as E
      by (rewrite H0; exact H1).
    vm_compute in E. discriminate E.
Defined.

(** ** The coordinator's loop and its result *)

Lemma inv_prefix h s : inv h s → dispatches h `prefix_of` iterations.
Proof.
  intros [_ Hc]. destruct (main s) as [todo|wait todo|out]; simpl in Hc.
  - exists todo. symmetry. exact Hc.
  - exists todo. symmetry. apply Hc.
  - rewrite Hc. reflexivity.
Qed.


Lemma mainThread_uv z cpus s0 :
  mainThread (Int z) cpus = Some s0 →
  main_u s0 = {| byteOffset := 0; len := z |}
  ∧ main_v s0 = {| byteOffset := bytesPerFloat * z; len := z |}
  ∧ base.length (mem s0) = Z.to_nat (3 * z).
Proof.
  intros H. apply mainThread_Some in H as (sab & m & x & y & E1 & E2 & E3 & ->).
  simpl. apply new_Float64Array_Int in E2 as (? & ? & _).
  apply new_Float64Array_Int in E3 as (? & ? & _).
  destruct x, y. simpl in *. subst. do 2 (split; [reflexivity|]).
  unfold fill. rewrite rows_length.
  unfold new_SharedArrayBuffer in E1.
  change (num_times (3 * bytesPerFloat) (Int z))
    with (Int (3 * bytesPerFloat * z)) in E1.
  destruct (ToIndex (Int (3 * bytesPerFloat * z))) as [l|] eqn:El;
    simpl in E1; [|discriminate].
  apply ToIndex_Int in El as [-> Hl]. injection E1 as _ <-.
  rewrite length_replicate. f_equal. unfold bytesPerFloat.
  replace (3 * 8 * z) with (3 * z * 8) by lia. apply Z.div_mul. lia.
Qed.

(** *** The text of [toFixed], digit by digit *)
















(** The whole program on two processors for [n = 2], and on one for
    [n = 1]: the schedule runs it to the end and the norm is printed with
    nine decimals. *)
Example run_2_2 :
  (mainThread (Int 2) 2 ≫= exec (schedule 2 {| byteLength := 48 |}))
    ≫= (fun s => Some (main s))
  = Some (Finished (Text "1.183350177")).
Proof. vm_compute. reflexivity. Qed.

Example run_1_1 :
  (mainThread (Int 1) 1 ≫= exec (schedule 1 {| byteLength := 24 |}))
    ≫= (fun s => Some (main s))
  = Some (Finished (Text "1.000000000")).
Proof. vm_compute. reflexivity. Qed.

(** ** No worker throws *)

Lemma no_sab_units todo : Forall (fun m => is_unit m = true) todo → no_sab todo.
Proof.
  intros H. eapply Forall_impl; [exact H|].
  intros m Hm. destruct m; [discriminate|exact I..].
Qed.

Lemma step_healthy size sab h e s s' :
  (∀ wd, n wd = size → is_Some (views wd sab)) →
  inv h s → Forall (healthy size sab) (workers s) → step e s = Some s' →
  Forall (healthy size sab) (workers s').
Proof.
  intros Hviews [_ Hc] Hall Hstep.
  destruct e as [m | q m | q m | q | ]; simpl in Hstep.
  - (* a unit joins every queue *)
    destruct (main s) as [[|m0 todo]| |] eqn:Hmain; try discriminate.
    destruct (decide (m0 = m)) as [->|]; [|discriminate].
    rewrite work_spec in Hstep. injection Hstep as <-. simpl in *.
    pose proof (iterations_units _ _ Hc) as Hunits.
    apply Forall_cons in Hunits as [Hm _].
    apply Forall_fmap. eapply Forall_impl; [exact Hall|].
    intros worker (Hn & Hst & Hd). unfold healthy. simpl.
    split; [exact Hn|]. split; [exact Hst|].
    assert (no_sab [m]) as Hm' by (apply no_sab_units; constructor; auto).
    destruct (data worker).
    + destruct Hd as [Hq Hb]. split; [apply Forall_app; auto|exact Hb].
    + destruct (busy worker).
      * destruct Hd as [-> Hq]. split; [reflexivity|apply Forall_app; auto].
      * destruct Hd as (rest & -> & Hq). exists (rest ++ [m]).
        split; [reflexivity|apply Forall_app; auto].
  - (* a callback starts *)
    destruct (workers s !! q) as [w0|] eqn:Hq; [|discriminate]. simpl in Hstep.
    destruct (start_worker w0 m) as [w1|] eqn:Hs; [|discriminate].
    injection Hstep as <-. simpl. apply Forall_insert; [exact Hall|].
    pose proof (Forall_lookup_1 _ _ _ _ Hall Hq) as (Hn & Hst & Hd).
    unfold start_worker in Hs.
    destruct (status w0) eqn:Hrun; try discriminate.
    destruct (busy w0) eqn:Hb; try discriminate.
    destruct (inbox w0) as [|m0 rest] eqn:Hi; try discriminate.
    destruct (decide (m0 = m)) as [->|]; [|discriminate].
    injection Hs as <-. unfold healthy. simpl.
    split; [exact Hn|]. split; [discriminate|].
    destruct (data w0).
    + destruct Hd as [Hq0 _]. apply Forall_cons in Hq0 as [Hm Hrest].
      split; [exact Hrest|]. intros m' [= <-] b ->. exact Hm.
    + destruct Hd as (rest' & [= -> ->] & Hrest). auto.
  - (* a callback ends *)
    destruct (workers s !! q) as [w0|] eqn:Hq; [|discriminate]. simpl in Hstep.
    destruct (finish_worker w0 m (mem s)) as [[w1 m1]|] eqn:Hf; [|discriminate].
    simpl in Hstep. injection Hstep as <-. simpl.
    apply Forall_insert; [exact Hall|].
    pose proof (Forall_lookup_1 _ _ _ _ Hall Hq) as (Hn & Hst & Hd).
    unfold finish_worker in Hf.
    destruct (status w0) eqn:Hrun; try discriminate.
    destruct (busy w0) as [b|] eqn:Hb; try discriminate.
    destruct (decide (b = m)) as [->|]; [|discriminate].
    destruct (data w0) as [d|] eqn:Hdata.
    + destruct Hd as [Hq0 Hnot]. specialize (Hnot m eq_refl).
      destruct m as [buffer|vec1 vec2|vec1 vec2|];
        [destruct (Hnot buffer eq_refl)|..];
        simpl in Hf; injection Hf as <- <-; unfold healthy; simpl;
        (split; [exact Hn|]); (split; [discriminate|]);
        (split; [exact Hq0|discriminate]).
    + destruct Hd as [-> Hq0]. simpl in Hf.
      destruct (Hviews (wdata w0) Hn) as [d Hd]. rewrite Hd in Hf.
      injection Hf as <- <-. unfold healthy. simpl.
      split; [exact Hn|]. split; [discriminate|]. split; [exact Hq0|discriminate].
  - (* a completion is delivered *)
    destruct (workers s !! q) as [w0|] eqn:Hq; [|discriminate]. simpl in Hstep.
    destruct (deliver w0 (main s)) as [[w1 c]|] eqn:Hd; [|discriminate].
    injection Hstep as <-. simpl. apply Forall_insert; [exact Hall|].
    pose proof (Forall_lookup_1 _ _ _ _ Hall Hq) as Hw0.
    unfold deliver in Hd. destruct (outbox w0) as [|k]; [discriminate|].
    assert (w1 = {| wdata := wdata w0; data := data w0; busy := busy w0;
                    inbox := inbox w0; outbox := k; status := status w0;
                    listener := false |}) as ->.
    { destruct (listener w0); [destruct (main s)|]; congruence. }
    exact Hw0.
  - (* [Exit] joins every queue *)
    destruct (main s) as [[|? ?]| |]; try discriminate.
    injection Hstep as <-. simpl. unfold stopWorkers. apply Forall_fmap.
    eapply Forall_impl; [exact Hall|].
    intros worker (Hn & Hst & Hd). unfold healthy. simpl.
    split; [exact Hn|]. split; [exact Hst|].
    assert (no_sab [Exit]) as Hm' by (repeat constructor).
    destruct (data worker).
    + destruct Hd as [Hq Hb]. split; [apply Forall_app; auto|exact Hb].
    + destruct (busy worker).
      * destruct Hd as [-> Hq]. split; [reflexivity|apply Forall_app; auto].
      * destruct Hd as (rest & -> & Hq). exists (rest ++ [Exit]).
        split; [reflexivity|apply Forall_app; auto].
Qed.

Lemma exec_healthy size sab h tr s s' :
  (∀ wd, n wd = size → is_Some (views wd sab)) →
  inv h s → Forall (healthy size sab) (workers s) → exec tr s = Some s' →
  Forall (healthy size sab) (workers s').
Proof.
  intros Hviews. revert h s.
  induction tr as [|e tr IH]; intros h s Hinv Hall Hexec; simpl in Hexec.
  - injection Hexec as <-. exact Hall.
  - destruct (step e s) as [s1|] eqn:Hstep; [|discriminate].
    apply (IH (h ++ [e]) s1); [eapply step_inv; eassumption| |exact Hexec].
    eapply step_healthy; eassumption.
Qed.

(** In no run of the program does a worker throw: every worker gets [Sab]
    first, and its views fit the buffer. *)
Lemma workers_never_throw size cpus s0 tr s p worker error :
  mainThread size cpus = Some s0 → exec tr s0 = Some s →
  workers s !! p = Some worker → status worker ≠ Threw error.
Proof.
  intros H0 Hexec Hp.
  destruct (mainThread_views size cpus s0 H0) as (sab & Hws & _ & _ & Hviews).
  assert (Forall (healthy size sab) (workers s)) as Hall.
  { apply (exec_healthy size sab [] tr s0 s Hviews);
      [eapply inv_init, H0| |exact Hexec].
    rewrite Hws. apply Forall_lookup. intros q w Hq.
    apply startWorkers_lookup in Hq as [_ ->]. unfold healthy. simpl.
    split; [reflexivity|]. split; [discriminate|]. exists []. split; [reflexivity|constructor]. }
  destruct (Forall_lookup_1 _ _ _ _ Hall Hp) as (_ & Hst & _). apply Hst.
Qed.

(** ** A missing problem size *)

(** Whatever is printed is the norm of the buffer at some moment. *)
Lemma step_output e s s' :
  step e s = Some s' →
  (∀ out, main s = Finished out →
     ∃ m, out = toFixed (norm (main_n s) m (main_u s) (main_v s)) 9) →
  ∀ out, main s' = Finished out →
    ∃ m, out = toFixed (norm (main_n s') m (main_u s') (main_v s')) 9.
Proof.
  intros Hstep Hs out Hout.
  destruct (step_closure _ _ _ Hstep) as (-> & -> & -> & _).
  destruct e as [m | q m | q m | q | ]; simpl in Hstep.
  - destruct (main s) as [[|m0 todo]| |]; try discriminate.
    destruct (decide (m0 = m)); [|discriminate].
    rewrite work_spec in Hstep. injection Hstep as <-. discriminate Hout.
  - destruct (workers s !! q) as [w0|]; [|discriminate]. simpl in Hstep.
    destruct (start_worker w0 m) as [w1|]; [|discriminate].
    injection Hstep as <-. apply Hs, Hout.
  - destruct (workers s !! q) as [w0|]; [|discriminate]. simpl in Hstep.
    destruct (finish_worker w0 m (mem s)) as [[w1 m1]|]; [|discriminate].
    injection Hstep as <-. apply Hs, Hout.
  - destruct (workers s !! q) as [w0|]; [|discriminate]. simpl in Hstep.
    destruct (deliver w0 (main s)) as [[w1 c]|] eqn:Hd; [|discriminate].
    injection Hstep as <-. simpl in Hout. subst c.
    unfold deliver in Hd. destruct (outbox w0); [discriminate|].
    destruct (listener w0).
    + destruct (main s) as [todo|wait todo|out'].
      * injection Hd as _ Hc. discriminate Hc.
      * destruct (wait - 1 =? 0); injection Hd as _ Hc; discriminate Hc.
      * injection Hd as _ Hc. apply Hs. congruence.
    + injection Hd as _ Hc. apply Hs. congruence.
  - destruct (main s) as [[|? ?]| |]; try discriminate.
    injection Hstep as <-. simpl in Hout. injection Hout as <-. eauto.
Qed.

Lemma exec_output tr s s' :
  exec tr s = Some s' →
  (∀ out, main s = Finished out →
     ∃ m, out = toFixed (norm (main_n s) m (main_u s) (main_v s)) 9) →
  ∀ out, main s' = Finished out →
    ∃ m, out = toFixed (norm (main_n s') m (main_u s') (main_v s')) 9.
Proof.
  revert s. induction tr as [|e tr IH]; intros s Hexec Hs; simpl in Hexec.
  - injection Hexec as <-. exact Hs.
  - destruct (step e s) as [s1|] eqn:Hstep; [|discriminate].
    apply (IH s1 Hexec). eapply step_output; eassumption.
Qed.

(** C8, as amended.  With a missing or non-numeric argument [n] is [NaN]
    and the program does not fail: startup succeeds with an empty buffer
    and spawns every worker, each with the range [NaN .. NaN] and no row;
    no worker throws in any run; some run reaches the end, and every run
    that does prints [NaN]. *)
Theorem missing_size_prints_NaN (cpus : nat) :
  (0 < cpus)%nat →
  ∃ s0,
    mainThread NaN cpus = Some s0
    ∧ mem s0 = [] ∧ base.length (workers s0) = cpus
    ∧ (∀ p worker, workers s0 !! p = Some worker →
         wdata worker = {| n := NaN; start := NaN; end_ := NaN |}
         ∧ rows (wdata worker) = [] ∧ status worker = Running)
    ∧ (∀ tr s p worker error, exec tr s0 = Some s →
         workers s !! p = Some worker → status worker ≠ Threw error)
    ∧ (∃ tr s, exec tr s0 = Some s ∧ main s = Finished (Text "NaN"))
    ∧ (∀ tr s out, exec tr s0 = Some s → main s = Finished out →
         out = Text "NaN").
Proof.
  intros Hcpus.
  destruct (mainThread NaN cpus) as [s0|] eqn:H0; [|discriminate].
  exists s0. split; [reflexivity|].
  assert (∀ tr s out, exec tr s0 = Some s → main s = Finished out →
          out = Text "NaN") as Hevery.
  { intros tr s out Hexec Hout.
    destruct (exec_output tr s0 s Hexec) with (out := out) as [m ->];
      [|exact Hout|].
    - apply mainThread_views in H0 as (_ & _ & -> & _). discriminate.
    - destruct (mainThread_workers _ _ _ _ _ H0 Hexec) as (_ & -> & _).
      reflexivity. }
  assert (∀ tr s p worker error, exec tr s0 = Some s →
          workers s !! p = Some worker → status worker ≠ Threw error) as Hnever.
  { intros tr s p worker error Hexec Hp.
    exact (workers_never_throw _ _ _ _ _ _ _ error H0 Hexec Hp). }
  destruct (schedule_runs _ _ _ H0 Hcpus) as (tr & s & Hexec & Hmain).
  pose proof (mainThread_Some _ _ _ H0) as (sab & m & x & y & E1 & _ & _ & ->).
  injection E1 as <- <-. simpl.
  split; [apply nil_length_inv; unfold fill; apply rows_length|].
  split; [apply length_startWorkers|].
  split; [|split; [exact Hnever|split; [|exact Hevery]]].
  - intros p worker Hp. apply startWorkers_lookup in Hp as [_ ->].
    simpl. unfold ceil_div, range. simpl. auto.
  - exists tr, s. split; [exact Hexec|]. rewrite Hmain. reflexivity.
Qed.

Lemma missing_size_prints_NaN_witness :
  ∃ s0,
    mainThread NaN 2 = Some s0
    ∧ mem s0 = [] ∧ base.length (workers s0) = 2%nat
    ∧ (∀ p worker, workers s0 !! p = Some worker →
         wdata worker = {| n := NaN; start := NaN; end_ := NaN |}
         ∧ rows (wdata worker) = [] ∧ status worker = Running)
    ∧ (∀ tr s p worker error, exec tr s0 = Some s →
         workers s !! p = Some worker → status worker ≠ Threw error)
    ∧ (∃ tr s, exec tr s0 = Some s ∧ main s = Finished (Text "NaN"))
    ∧ (∀ tr s out, exec tr s0 = Some s → main s = Finished out →
         out = Text "NaN").
Proof. apply (missing_size_prints_NaN 2). lia. Defined.

(** C8 as the specification states it fails: without an argument, on one
    processor, startup succeeds and spawns the worker, the worker never
    throws, and the program prints [NaN]. *)
Lemma missing_size_is_not_fatal :
  ∃ s0 s,
    mainThread NaN 1 = Some s0
    ∧ base.length (workers s0) = 1%nat
    ∧ exec (schedule 1 {| byteLength := 0 |}) s0 = Some s
    ∧ main s = Finished (Text "NaN")
    ∧ status <$> workers s = [Running].
Proof.
  destruct (mainThread NaN 1) as [s0|] eqn:H0; vm_compute in H0;
    [injection H0 as <-|discriminate H0].
  destruct (exec (schedule 1 {| byteLength := 0 |})
              {| mem := []; main_n := NaN;
                 main_u := {| byteOffset := 0; len := 0 |};
                 main_v := {| byteOffset := 0; len := 0 |};
                 workers := startWorkers NaN {| byteLength := 0 |} 1;
                 main := Ready iterations |}) as [s|] eqn:H1;
    vm_compute in H1; [injection H1 as <-|discriminate H1].
  eexists. eexists. split; [reflexivity|]. split; [reflexivity|].
  split; [vm_compute; reflexivity|]. split; reflexivity.
Qed.

(** A negative size does stop the program at startup: the allocation of
    the buffer throws a [RangeError]. *)
Example negative_size_throws : mainThread (Int (-1)) 4 = None.
Proof. reflexivity. Qed.

(** * Further properties of the code *)

(** ** Cells of the buffer *)

Lemma slot_index_in y i :
  0 <= byteOffset y → in_view y i = true → index_in y (slot y i) = i.
Proof.
  intros Hy Hi. apply in_view_spec in Hi. unfold index_in, slot.
  assert (0 <= byteOffset y / bytesPerFloat)
    by (apply Z.div_pos; unfold bytesPerFloat; lia).
  lia.
Qed.

Lemma index_in_slot y c :
  0 <= byteOffset y → in_view y (index_in y c) = true → slot y (index_in y c) = c.
Proof.
  intros Hy Hi. apply in_view_spec in Hi. unfold index_in, slot in *. lia.
Qed.

(** A write leaves every other cell as it was. *)
Lemma set_lookup_ne m y i t c :
  (in_view y i = true → slot y i ≠ c) → set m y i t !! c = m !! c.
Proof.
  intros H. unfold set. destruct (in_view y i); [|reflexivity].
  apply list_lookup_insert_ne. auto.
Qed.

Section Cells.
Variables (x y : Float64Array) (row : list float → Z → float).
Hypothesis x_placed : 0 <= byteOffset x.
Hypothesis y_apart : apart x y.
Hypothesis row_reads_x :
  ∀ m m' i, (∀ j, get m x j = get m' x j) → row m i = row m' i.

Local Abbreviation loop := (fold_left (fun m i => set m y i (row m i))).

Lemma loop_lookup_out rs m c :
  (∀ i, i ∈ rs → in_view y i = true → slot y i ≠ c) →
  loop rs m !! c = m !! c.
Proof.
  revert m. induction rs as [|i rs IH]; intros m H; simpl; [reflexivity|].
  rewrite IH by (intros i' Hi'; apply H; rewrite elem_of_cons; auto).
  apply set_lookup_ne. apply H. rewrite elem_of_cons; auto.
Qed.

Lemma loop_keeps_row rs m i : 0 <= byteOffset y → row (loop rs m) i = row m i.
Proof.
  intros Hy. apply row_reads_x. intros j.
  apply (rows_keep_source x y row x_placed y_apart); assumption.
Qed.

Lemma loop_cell rs m c :
  fits (base.length m) y → NoDup rs → (c < base.length m)%nat →
  loop rs m !! c
  = if decide (in_view y (index_in y c) = true ∧ index_in y c ∈ rs)
    then Some (row m (index_in y c)) else m !! c.
Proof.
  intros Hy Hrs Hc. destruct (decide _) as [[Hv Hi]|Hno].
  - pose proof Hy as (Hy0 & _).
    pose proof (rows_written x y row x_placed y_apart row_reads_x rs m m
                  (index_in y c) Hy Hrs Hi) as Hw.
    apply in_view_spec in Hv as Hv'. specialize (Hw Hv' (fun _ => eq_refl)).
    unfold get in Hw. rewrite Hv, index_in_slot in Hw by assumption.
    destruct (lookup_lt_is_Some_2 (loop rs m) c) as [t Ht].
    { rewrite (rows_length y row). exact Hc. }
    rewrite Ht in Hw |- *. simpl in Hw. congruence.
  - apply loop_lookup_out. intros i Hi Hv <-.
    destruct Hy as (Hy0 & _). rewrite slot_index_in in Hno by assumption.
    tauto.
Qed.

(** Two loops over the same destination commute, whatever their rows. *)
Lemma loop_commute rs1 rs2 m :
  fits (base.length m) y → NoDup rs1 → NoDup rs2 →
  loop rs1 (loop rs2 m) = loop rs2 (loop rs1 m).
Proof.
  intros Hy H1 H2. pose proof Hy as (Hy0 & _).
  apply list_eq. intros c.
  destruct (decide (c < base.length m)%nat) as [Hc|Hc].
  - rewrite !loop_cell, !loop_keeps_row
      by (rewrite ?(rows_length y row); assumption).
    repeat destruct (decide _); reflexivity.
  - rewrite !lookup_ge_None_2; [reflexivity|..];
      rewrite !(rows_length y row); lia.
Qed.

(** Loops run one after the other write the union of their rows. *)
Lemma loops_cell (rss : list (list Z)) m c :
  fits (base.length m) y → Forall NoDup rss → (c < base.length m)%nat →
  fold_left (fun m rs => loop rs m) rss m !! c
  = if decide (in_view y (index_in y c) = true
               ∧ Exists (fun rs => index_in y c ∈ rs) rss)
    then Some (row m (index_in y c)) else m !! c.
Proof.
  intros Hy Hrss Hc. pose proof Hy as (Hy0 & _).
  revert m Hy Hc. induction Hrss as [|rs rss Hrs Hrss IH]; intros m Hy Hc; simpl.
  - destruct (decide _) as [[_ H]|_]; [inversion H|reflexivity].
  - rewrite IH by (rewrite ?(rows_length y row); assumption).
    rewrite loop_keeps_row, loop_cell by assumption.
    repeat destruct (decide _) as [[? ?]|?]; try reflexivity.
    all: exfalso; rewrite Exists_cons in *; tauto.
Qed.

Lemma loops_length (rss : list (list Z)) m :
  base.length (fold_left (fun m rs => loop rs m) rss m) = base.length m.
Proof.
  revert m. induction rss as [|rs rss IH]; intros m; simpl; [reflexivity|].
  rewrite IH. apply (rows_length y row).
Qed.
End Cells.

Lemma NoDup_upto lo hi : NoDup (upto lo hi).
Proof. destruct lo, hi; simpl; try apply NoDup_nil_2. apply NoDup_seqZ. Qed.

(** ** Startup *)




(** ** What a multiplication writes *)

(** X2.  [au] and [atu] (lines 162-180) write the rows [start .. end - 1]
    of their destination and nothing else: every cell of the buffer that
    is not one of these rows holds after the call what it held before,
    whatever the views are. *)
Theorem au_atu_write_only_their_rows (wd : WorkerData) (m : list float)
    (src dst : Float64Array) (c : nat) :
  (∀ i, i ∈ rows wd → in_view dst i = true → slot dst i ≠ c) →
  au wd m src dst !! c = m !! c ∧ atu wd m src dst !! c = m !! c.
Proof.
  intros H. split.
  - apply (loop_lookup_out dst (fun m i => au_row wd m src i)), H.
  - apply (loop_lookup_out dst (fun m i => atu_row wd m src i)), H.
Qed.

Lemma au_atu_write_only_their_rows_witness :
  let wd := {| n := Int 2; start := Int 1; end_ := Int 2 |} in
  let m := [1; 1; 0; 0; 0; 0]%float in
  let src := {| byteOffset := 0; len := 2 |} in
  let dst := {| byteOffset := 32; len := 2 |} in
  au wd m src dst !! 4%nat = m !! 4%nat ∧ atu wd m src dst !! 4%nat = m !! 4%nat.
Proof.
  intros wd m src dst.
  apply (au_atu_write_only_their_rows wd m src dst 4).
  intros i Hi _. apply elem_of_seqZ in Hi.
  assert (i = 1) as -> by lia. vm_compute. lia.
Defined.

(** ** Callbacks of one unit commute *)

Lemma au_row_reads wd x m m' i :
  (∀ j, get m x j = get m' x j) → au_row wd m x i = au_row wd m' x i.
Proof. intros H. unfold au_row. apply (sum_reads_source (a i)), H. Qed.

Lemma atu_row_reads wd x m m' i :
  (∀ j, get m x j = get m' x j) → atu_row wd m x i = atu_row wd m' x i.
Proof.
  intros H. unfold atu_row. apply (sum_reads_source (fun j => a j i)), H.
Qed.

Lemma run_unit_length wd d message m :
  base.length (run_unit wd d message m) = base.length m.
Proof.
  unfold run_unit. destruct message as [buffer|f g|f g|]; simpl;
    [destruct (views wd buffer); reflexivity|..|reflexivity];
    apply rows_length.
Qed.

Lemma unit_in_turn_length wds d message m :
  base.length (unit_in_turn wds d message m) = base.length m.
Proof.
  unfold unit_in_turn. revert m.
  induction wds as [|wd wds IH]; intros m; simpl; [reflexivity|].
  rewrite IH. apply run_unit_length.
Qed.

Lemma in_turn_length wds d units m :
  base.length (in_turn wds d units m) = base.length m.
Proof.
  unfold in_turn. revert m.
  induction units as [|message units IH]; intros m; simpl; [reflexivity|].
  rewrite IH. apply unit_in_turn_length.
Qed.

(** Two workers' callbacks for the same unit commute. *)
Lemma run_unit_commute wd1 wd2 d message m :
  n wd1 = n wd2 → placed (base.length m) d → proper message →
  run_unit wd1 d message (run_unit wd2 d message m)
  = run_unit wd2 d message (run_unit wd1 d message m).
Proof.
  intros Hn [Hfit Hapart] Hm.
  destruct message as [buffer|f g|f g|]; unfold run_unit; simpl in *.
  - destruct (views wd1 buffer), (views wd2 buffer); reflexivity.
  - unfold au, au_row. rewrite Hn.
    apply (loop_commute (field d f) (field d g)
             (fun m i => fold_left
                (fun t j => (t + get m (field d f) j / Z2F (a i j))%float)
                (upto (Int 0) (n wd2)) 0%float));
      [apply (Hfit f)|apply Hapart, Hm| |apply Hfit|apply NoDup_upto..].
    intros m1 m2 i H. apply (sum_reads_source (a i)), H.
  - unfold atu, atu_row. rewrite Hn.
    apply (loop_commute (field d f) (field d g)
             (fun m i => fold_left
                (fun t j => (t + get m (field d f) j / Z2F (a j i))%float)
                (upto (Int 0) (n wd2)) 0%float));
      [apply (Hfit f)|apply Hapart, Hm| |apply Hfit|apply NoDup_upto..].
    intros m1 m2 i H. apply (sum_reads_source (fun j => a j i)), H.
  - reflexivity.
Qed.

Lemma partly_length d message ws m :
  base.length (partly d message ws m) = base.length m.
Proof.
  unfold partly. revert m.
  induction ws as [|worker ws IH]; intros m; simpl; [reflexivity|].
  rewrite IH. destruct (waits worker); [reflexivity|apply run_unit_length].
Qed.

Lemma partly_none d message ws m :
  Forall (fun worker => waits worker = true) ws → partly d message ws m = m.
Proof.
  unfold partly. induction 1 as [|worker ws Hw _ IH]; simpl; [reflexivity|].
  rewrite Hw. exact IH.
Qed.

Lemma partly_all d message ws m :
  Forall (fun worker => waits worker = false) ws →
  partly d message ws m = unit_in_turn (wdata <$> ws) d message m.
Proof.
  unfold partly, unit_in_turn. intros H. revert m.
  induction H as [|worker ws Hw _ IH]; intros m; simpl; [reflexivity|].
  rewrite Hw. apply IH.
Qed.

Lemma partly_insert_same d message ws p worker worker' m :
  ws !! p = Some worker → waits worker' = waits worker →
  wdata worker' = wdata worker →
  partly d message (<[p := worker']> ws) m = partly d message ws m.
Proof.
  unfold partly. revert p m.
  induction ws as [|w ws IH]; intros [|p] m Hp Hw Hd; simpl in *;
    try discriminate.
  - injection Hp as ->. rewrite Hw, Hd. reflexivity.
  - apply IH; assumption.
Qed.

Lemma partly_commute wd d message ws m :
  Forall (fun worker => n (wdata worker) = n wd) ws →
  placed (base.length m) d → proper message →
  run_unit wd d message (partly d message ws m)
  = partly d message ws (run_unit wd d message m).
Proof.
  unfold partly. intros H. revert m.
  induction H as [|worker ws Hw _ IH]; intros m Hd Hm; simpl; [reflexivity|].
  destruct (waits worker).
  - apply IH; assumption.
  - rewrite IH by (rewrite ?run_unit_length; assumption).
    f_equal. apply run_unit_commute; auto.
Qed.

Lemma partly_switch d message ws q w0 w1 m :
  ws !! q = Some w0 → waits w0 = true → waits w1 = false →
  wdata w1 = wdata w0 →
  Forall (fun worker => n (wdata worker) = n (wdata w0)) ws →
  placed (base.length m) d → proper message →
  partly d message (<[q := w1]> ws) m
  = run_unit (wdata w0) d message (partly d message ws m).
Proof.
  revert q m. induction ws as [|w ws IH]; intros [|q] m Hq H0 H1 Hwd Hn Hd Hm;
    simpl in *; try discriminate.
  - injection Hq as ->. apply Forall_cons in Hn as [_ Hn].
    unfold partly at 1 2. simpl. rewrite H0, H1, Hwd.
    symmetry. apply partly_commute; assumption.
  - apply Forall_cons in Hn as [_ Hn]. unfold partly at 1 2. simpl.
    destruct (waits w).
    + apply IH; assumption.
    + apply IH; rewrite ?run_unit_length; assumption.
Qed.

Lemma worker_idle h c p worker :
  worker_inv h c p worker → listener worker = false →
  units_in (inbox worker) = 0%nat ∧ busy_unit worker = 0%nat.
Proof.
  intros (H1 & H2 & H3 & H4 & _) Hl. unfold armed in H4. rewrite Hl in H4. lia.
Qed.

Lemma worker_one h c p worker :
  worker_inv h c p worker →
  (units_in (inbox worker) + busy_unit worker <= 1)%nat.
Proof.
  intros (H1 & H2 & H3 & H4 & _). unfold armed in H4.
  destruct (listener worker); lia.
Qed.

Lemma units_in_0 queue m :
  units_in queue = 0%nat → m ∈ queue → is_unit m = false.
Proof.
  unfold units_in. induction queue as [|m' queue IH]; intros H Hm.
  - inversion Hm.
  - simpl in H. apply elem_of_cons in Hm as [->|Hm].
    + destruct (is_unit m'); [discriminate|reflexivity].
    + apply IH; [|exact Hm]. destruct (is_unit m'); [discriminate|exact H].
Qed.

Lemma iterations_proper :
  Forall (fun m => is_unit m = true ∧ proper m) iterations.
Proof. repeat constructor; discriminate. Qed.

Lemma views_n wd wd' buffer : n wd = n wd' → views wd buffer = views wd' buffer.
Proof. intros H. unfold views. rewrite H. reflexivity. Qed.

Lemma fmap_insert_same {A B} (f : A → B) (l : list A) i x y :
  l !! i = Some x → f y = f x → f <$> <[i := y]> l = f <$> l.
Proof.
  intros Hi Hf. rewrite list_fmap_insert, Hf. apply list_insert_id.
  rewrite list_lookup_fmap, Hi. reflexivity.
Qed.

Lemma follows_update wds d m0 h e s q w0 w1 :
  follows wds d m0 h s → workers s !! q = Some w0 →
  wdata w1 = wdata w0 → waits w1 = waits w0 →
  (∀ d', data w1 = Some d' → d' = d) →
  (∀ message, only_unit message w0 → only_unit message w1) →
  dispatches (h ++ [e]) = dispatches h →
  follows wds d m0 (h ++ [e])
    (with_workers s (<[q := w1]> (workers s)) (main s)).
Proof.
  intros (Hwds & Hdata & Hlen & Hmain) Hq Hwd Hwaits Hd Honly Hh.
  unfold follows. simpl. rewrite Hh.
  split; [rewrite <- Hwds; eapply fmap_insert_same; eassumption|].
  split; [apply Forall_insert; assumption|].
  split; [exact Hlen|].
  destruct (main s); [exact Hmain| |exact Hmain].
  destruct Hmain as (done & message & E & Hall & Hmem).
  exists done, message. split; [exact E|].
  split.
  - apply Forall_insert; [exact Hall|].
    apply Honly. exact (Forall_lookup_1 _ _ _ _ Hall Hq).
  - rewrite Hmem. symmetry. eapply partly_insert_same; eassumption.
Qed.

Lemma in_turn_snoc wds d units message m :
  in_turn wds d (units ++ [message]) m
  = unit_in_turn wds d message (in_turn wds d units m).
Proof. unfold in_turn. rewrite fold_left_app. reflexivity. Qed.

Lemma follows_done size sab wds d m0 h s q w0 w1 message :
  placed (base.length m0) d →
  inv h s → Forall (healthy size sab) (workers s) →
  follows wds d m0 h s → workers s !! q = Some w0 →
  busy w0 = Some message → is_unit message = true →
  wdata w1 = wdata w0 → inbox w1 = inbox w0 → busy w1 = None →
  data w1 = data w0 →
  follows wds d m0 (h ++ [Done q message])
    {| mem := run_unit (wdata w0) d message (mem s); main_n := main_n s;
       main_u := main_u s; main_v := main_v s;
       workers := <[q := w1]> (workers s); main := main s |}.
Proof.
  intros Hd [Hw Hc] Hall (Hwds & Hdata & Hlen & Hmain) Hq Hb Hu Hwd Hi Hb1 Hd1.
  pose proof (Hw q w0 Hq) as Ht.
  assert (busy_unit w0 = 1%nat) as Hbusy
    by (unfold busy_unit; rewrite Hb, Hu; reflexivity).
  unfold follows. simpl. rewrite dispatches_snoc, app_nil_r.
  split; [rewrite <- Hwds; eapply fmap_insert_same; eassumption|].
  split.
  { apply Forall_insert; [exact Hdata|]. rewrite Hd1.
    exact (Forall_lookup_1 _ _ _ _ Hdata Hq). }
  split; [rewrite run_unit_length; exact Hlen|].
  destruct (main s) as [todo|wait todo|out] eqn:Emain.
  - pose proof Ht as (_ & _ & _ & _ & Hl).
    destruct (worker_idle _ _ _ _ Ht Hl). lia.
  - destruct Hmain as (done & msg & E & Honly & Hmem).
    exists done, msg. split; [exact E|].
    pose proof (Forall_lookup_1 _ _ _ _ Honly Hq) as [H1 H2].
    assert (message = msg) as -> by (apply H2; assumption).
    split.
    + apply Forall_insert; [exact Honly|]. split.
      * rewrite Hi. exact H1.
      * rewrite Hb1. discriminate.
    + rewrite Hmem. symmetry.
      pose proof (worker_one _ _ _ _ Ht) as Hone.
      apply partly_switch; try assumption.
      * unfold waits. rewrite Hbusy.
        destruct (units_in (inbox w0) + 1)%nat eqn:E1; [lia|reflexivity].
      * unfold waits, busy_unit. rewrite Hi, Hb1.
        replace (units_in (inbox w0)) with 0%nat by lia. reflexivity.
      * eapply Forall_impl; [exact Hall|]. intros w (Hn & _).
        destruct (Forall_lookup_1 _ _ _ _ Hall Hq) as (Hn0 & _). congruence.
      * rewrite in_turn_length. exact Hd.
      * simpl in Hc. destruct Hc as [Hc _]. rewrite E in Hc.
        pose proof iterations_proper as Hp. rewrite <- Hc in Hp.
        rewrite !Forall_app, Forall_singleton in Hp. tauto.
  - pose proof Ht as (_ & _ & _ & _ & Hl).
    destruct (worker_idle _ _ _ _ Ht Hl). lia.
Qed.

(** Every step keeps the buffer on the sequential reading. *)
Lemma step_follows size sab wds d m0 h e s s' :
  (∀ wd, n wd = size → views wd sab = Some d) →
  placed (base.length m0) d →
  inv h s → Forall (healthy size sab) (workers s) →
  follows wds d m0 h s → step e s = Some s' →
  follows wds d m0 (h ++ [e]) s'.
Proof.
  intros Hviews Hd Hinv Hall Hfol Hstep.
  pose proof (step_inv _ _ _ _ Hinv Hstep) as Hinv'.
  destruct Hinv as [Hw Hc].
  destruct e as [m | q m | q m | q | ]; simpl in Hstep.
  - (* dispatch *)
    destruct Hfol as (Hwds & Hdata & Hlen & Hmain).
    destruct (main s) as [[|m0' todo]| |] eqn:Emain; try discriminate.
    destruct (decide (m0' = m)) as [->|]; [|discriminate].
    rewrite work_spec in Hstep. injection Hstep as <-.
    unfold follows. simpl in *.
    split; [rewrite <- Hwds, <- list_fmap_compose; apply list_fmap_ext; reflexivity|].
    split; [apply Forall_fmap; eapply Forall_impl; [exact Hdata|]; intros w Hw0; exact Hw0|].
    split; [exact Hlen|].
    exists (dispatches h), m. rewrite dispatches_snoc. split; [reflexivity|].
    pose proof (iterations_units _ _ Hc) as Hunits.
    apply Forall_cons in Hunits as [Hm _].
    assert (∀ p w, workers s !! p = Some w →
              units_in (inbox w) = 0%nat ∧ busy_unit w = 0%nat) as Hidle.
    { intros p w Hp. pose proof (Hw p w Hp) as Ht.
      pose proof Ht as (_ & _ & _ & _ & Hl).
      exact (worker_idle _ _ _ _ Ht Hl). }
    split.
    + apply Forall_fmap, Forall_lookup. intros p w Hp.
      destruct (Hidle p w Hp) as [Hi Hb]. split; simpl.
      * intros m' Hm' Hu. apply elem_of_app in Hm' as [Hm'|Hm'].
        -- rewrite (units_in_0 _ _ Hi Hm') in Hu. discriminate.
        -- apply list_elem_of_singleton in Hm'. exact Hm'.
      * intros m' Hm' Hu. unfold busy_unit in Hb. rewrite Hm', Hu in Hb.
        discriminate.
    + rewrite partly_none; [exact Hmain|].
      apply Forall_fmap, Forall_lookup. intros p w Hp. unfold waits. simpl.
      rewrite units_in_snoc, Hm. destruct (units_in (inbox w) + 1 + _)%nat eqn:E;
        [lia|reflexivity].
  - (* a callback starts *)
    destruct (workers s !! q) as [w0|] eqn:Hq; [|discriminate]. simpl in Hstep.
    destruct (start_worker w0 m) as [w1|] eqn:Hs; [|discriminate].
    injection Hstep as <-.
    unfold start_worker in Hs.
    destruct (status w0) eqn:Hst; try discriminate.
    destruct (busy w0) eqn:Hb; try discriminate.
    destruct (inbox w0) as [|m1 rest] eqn:Hi; try discriminate.
    destruct (decide (m1 = m)) as [->|]; [|discriminate].
    injection Hs as <-.
    pose proof Hfol as (_ & Hdata & _).
    apply (follows_update wds d m0 h _ s q w0); try assumption.
    + reflexivity.
    + unfold waits, busy_unit. simpl. rewrite Hi, Hb, units_in_cons.
      f_equal. f_equal. lia.
    + exact (Forall_lookup_1 _ _ _ _ Hdata Hq).
    + intros message [H1 H2]. split; simpl.
      * intros m' Hm'. apply H1. rewrite Hi. apply list_elem_of_further, Hm'.
      * intros m' [= <-]. apply H1. rewrite Hi. apply list_elem_of_here.
    + rewrite dispatches_snoc. apply app_nil_r.
  - (* a callback ends *)
    destruct (workers s !! q) as [w0|] eqn:Hq; [|discriminate]. simpl in Hstep.
    destruct (finish_worker w0 m (mem s)) as [[w1 m1]|] eqn:Hf; [|discriminate].
    simpl in Hstep. injection Hstep as <-.
    pose proof (Forall_lookup_1 _ _ _ _ Hall Hq) as (Hn & Hst & Hd').
    pose proof Hfol as (_ & Hdata & _).
    pose proof (Forall_lookup_1 _ _ _ _ Hdata Hq) as Hd0.
    unfold finish_worker in Hf.
    destruct (status w0) eqn:Hrun; try discriminate.
    destruct (busy w0) as [b|] eqn:Hb; try discriminate.
    destruct (decide (b = m)) as [->|]; [|discriminate].
    destruct (data w0) as [d1|] eqn:Hdata0.
    + assert (d1 = d) as -> by (apply Hd0; exact Hdata0).
      destruct Hd' as [Hq0 Hnot]. specialize (Hnot m eq_refl).
      destruct m as [buffer|f g|f g|].
      * destruct (Hnot buffer eq_refl).
      * simpl in Hf. injection Hf as <- <-.
        change (au (wdata w0) (mem s) (field d f) (field d g))
          with (run_unit (wdata w0) d (Au f g) (mem s)).
        eapply follows_done; try eassumption; try reflexivity;
          [split; assumption|simpl; congruence].
      * simpl in Hf. injection Hf as <- <-.
        change (atu (wdata w0) (mem s) (field d f) (field d g))
          with (run_unit (wdata w0) d (Atu f g) (mem s)).
        eapply follows_done; try eassumption; try reflexivity;
          [split; assumption|simpl; congruence].
      * simpl in Hf. injection Hf as <- <-.
        apply (follows_update wds d m0 h _ s q w0); try assumption.
        -- reflexivity.
        -- unfold waits, busy_unit. simpl. rewrite Hb. reflexivity.
        -- simpl. intros d' [= <-]. reflexivity.
        -- intros message [H1 H2]. split; simpl; [exact H1|discriminate].
        -- rewrite dispatches_snoc. apply app_nil_r.
    + destruct Hd' as [-> Hq0]. simpl in Hf.
      rewrite (Hviews (wdata w0) Hn) in Hf. injection Hf as <- <-.
      apply (follows_update wds d m0 h _ s q w0); try assumption.
      * reflexivity.
      * unfold waits, busy_unit. simpl. rewrite Hb. reflexivity.
      * simpl. intros d' [= <-]. reflexivity.
      * intros message [H1 H2]. split; simpl; [exact H1|discriminate].
      * rewrite dispatches_snoc. apply app_nil_r.
  - (* a completion is delivered *)
    destruct (workers s !! q) as [w0|] eqn:Hq; [|discriminate]. simpl in Hstep.
    destruct (deliver w0 (main s)) as [[w1 c]|] eqn:Hdl; [|discriminate].
    injection Hstep as <-.
    unfold deliver in Hdl. destruct (outbox w0) as [|k]; [discriminate|].
    pose proof Hfol as (_ & Hdata & _).
    assert (follows wds d m0 (h ++ [Deliver q])
              (with_workers s
                 (<[q := {| wdata := wdata w0; data := data w0;
                            busy := busy w0; inbox := inbox w0; outbox := k;
                            status := status w0; listener := false |}]>
                    (workers s)) (main s))) as Hup.
    { apply (follows_update wds d m0 h _ s q w0); try assumption.
      - reflexivity.
      - reflexivity.
      - exact (Forall_lookup_1 _ _ _ _ Hdata Hq).
      - intros message Hm. exact Hm.
      - rewrite dispatches_snoc. apply app_nil_r. }
    destruct (listener w0);
      [destruct (main s) as [todo|wait todo|out] eqn:Emain|];
      [injection Hdl as <- <-; exact Hup| |injection Hdl as <- <-; exact Hup..].
    destruct (wait - 1 =? 0); injection Hdl as <- <-; [|exact Hup].
    destruct Hup as (Hwds' & Hdata' & Hlen' & done & msg & E & Honly & Hmem).
    unfold follows. simpl in *.
    split; [exact Hwds'|]. split; [exact Hdata'|]. split; [exact Hlen'|].
    rewrite E, in_turn_snoc, Hmem, partly_all, Hwds'; [reflexivity|].
    apply Forall_lookup. intros p w Hp.
    destruct Hinv' as [Hw' _]. pose proof (Hw' p w Hp) as Ht.
    pose proof Ht as (_ & _ & _ & _ & Hl).
    destruct (worker_idle _ _ _ _ Ht Hl) as [H1 H2].
    unfold waits. rewrite H1, H2. reflexivity.
  - (* the code after the loop *)
    destruct Hfol as (Hwds & Hdata & Hlen & Hmain).
    destruct (main s) as [[|? ?]| |] eqn:Emain; try discriminate.
    injection Hstep as <-. unfold follows. simpl in *.
    split; [unfold stopWorkers; rewrite <- Hwds, <- list_fmap_compose;
            apply list_fmap_ext; reflexivity|].
    split; [unfold stopWorkers; apply Forall_fmap; eapply Forall_impl;
            [exact Hdata|]; intros w Hw0; exact Hw0|].
    split; [exact Hlen|].
    rewrite app_nil_r in Hc. rewrite Hmain, Hc. split; reflexivity.
Qed.

Lemma exec_follows size sab wds d m0 h tr s s' :
  (∀ wd, n wd = size → views wd sab = Some d) →
  placed (base.length m0) d →
  inv h s → Forall (healthy size sab) (workers s) →
  follows wds d m0 h s → exec tr s = Some s' →
  follows wds d m0 (h ++ tr) s'.
Proof.
  intros Hviews Hd. revert h s.
  induction tr as [|e tr IH]; intros h s Hinv Hall Hfol Hexec; simpl in Hexec.
  - injection Hexec as <-. rewrite app_nil_r. exact Hfol.
  - destruct (step e s) as [s1|] eqn:Hstep; [|discriminate]. simpl in Hexec.
    replace (h ++ e :: tr) with ((h ++ [e]) ++ tr)
      by (rewrite <- app_assoc; reflexivity).
    apply (IH (h ++ [e]) s1); [eapply step_inv; eassumption| | |exact Hexec].
    + eapply step_healthy; [|eassumption..]. intros wd Hn.
      rewrite (Hviews wd Hn). eauto.
    + eapply step_follows; eassumption.
Qed.

(** The views of the program: every worker makes the same three views of
    the buffer, the first two are the coordinator's [u] and [v], all lie
    inside the buffer and no two share a double. *)
Lemma mainThread_layout size cpus s0 :
  mainThread size cpus = Some s0 →
  ∃ sab m d,
    new_SharedArrayBuffer (num_times (3 * bytesPerFloat) size) = Some (sab, m)
    ∧ workers s0 = startWorkers size sab cpus
    ∧ views {| n := size; start := Int 0; end_ := size |} sab = Some d
    ∧ (∀ wd, n wd = size → views wd sab = Some d)
    ∧ placed (base.length (mem s0)) d
    ∧ u d = main_u s0 ∧ v d = main_v s0
    ∧ (∀ f, len (field d f) = size_of size)
    ∧ base.length (mem s0) = Z.to_nat (3 * size_of size).
Proof.
  intros H0. pose proof H0 as H1.
  apply mainThread_Some in H1 as (sab & m & x & y & E1 & E2 & E3 & Es).
  exists sab, m. pose proof E1 as E0. destruct size as [z|].
  - destruct (mainThread_uv z cpus s0 H0) as (Hu & Hv & Hlen).
    unfold new_SharedArrayBuffer in E1.
    change (num_times (3 * bytesPerFloat) (Int z))
      with (Int (3 * bytesPerFloat * z)) in E1.
    destruct (ToIndex (Int (3 * bytesPerFloat * z))) as [l|] eqn:El;
      simpl in E1; [|discriminate].
    apply ToIndex_Int in El as [-> Hl]. injection E1 as <- _.
    unfold bytesPerFloat in Hl.
    set (d := {| u := {| byteOffset := 0; len := z |};
                 v := {| byteOffset := bytesPerFloat * z; len := z |};
                 w := {| byteOffset := 2 * bytesPerFloat * z; len := z |} |}).
    assert (∀ wd, n wd = Int z →
              views wd {| byteLength := 3 * bytesPerFloat * z |} = Some d)
      as Hviews.
    { intros wd Hn. unfold views. rewrite Hn. simpl.
      rewrite !new_Float64Array_ok; unfold bytesPerFloat; simpl;
        try reflexivity; try lia.
      all: try (replace (2 * 8 * z) with (2 * z * 8) by lia; apply Z.mod_mul; lia).
      all: try (rewrite Z.mul_comm; apply Z.mod_mul; lia).
      }
    exists d. split; [exact E0|]. split; [rewrite Es; reflexivity|].
    split; [apply Hviews; reflexivity|]. split; [exact Hviews|].
    destruct (views_placed {| n := Int z; start := NaN; end_ := NaN |}
                {| byteLength := 3 * bytesPerFloat * z |} (mem s0) z d
                eq_refl (Hviews {| n := Int z; start := NaN; end_ := NaN |} eq_refl))
      as [Hfit Hapart].
    { rewrite Hlen. simpl. unfold bytesPerFloat. lia. }
    split; [split; [apply Hfit|exact Hapart]|].
    split; [rewrite Hu; reflexivity|]. split; [rewrite Hv; reflexivity|].
    split; [apply Hfit|exact Hlen].
  - injection E1 as <- <-. injection E2 as <-. injection E3 as <-.
    exists {| u := {| byteOffset := 0; len := 0 |};
              v := {| byteOffset := 0; len := 0 |};
              w := {| byteOffset := 0; len := 0 |} |}.
    rewrite Es. simpl. split; [exact E0|].
    split; [reflexivity|]. split; [reflexivity|].
    split; [intros wd Hn; unfold views; rewrite Hn; reflexivity|].
    split; [|split; [reflexivity|split; [reflexivity|split;
             [intros []; reflexivity|reflexivity]]]].
    split.
    + intros []; vm_compute; intuition discriminate.
    + intros [] [] _; vm_compute; left; discriminate.
Qed.

Lemma ranges_startWorkers size sab cpus :
  wdata <$> startWorkers size sab cpus = ranges size cpus.
Proof.
  unfold startWorkers, ranges. rewrite <- list_fmap_compose.
  apply list_fmap_ext. reflexivity.
Qed.

Lemma ranges_n size cpus :
  Forall (fun wd => n wd = size) (ranges size cpus).
Proof. unfold ranges. apply Forall_fmap, Forall_forall. reflexivity. Qed.

(** Every run of the program follows the sequential reading. *)
Lemma run_follows size cpus s0 sab d tr s :
  mainThread size cpus = Some s0 →
  workers s0 = startWorkers size sab cpus →
  (∀ wd, n wd = size → views wd sab = Some d) →
  placed (base.length (mem s0)) d →
  exec tr s0 = Some s →
  follows (ranges size cpus) d (mem s0) tr s.
Proof.
  intros H0 Hws Hviews Hd Hexec.
  apply (exec_follows size sab _ d _ [] tr s0 s Hviews Hd);
    [eapply inv_init, H0| | |exact Hexec].
  - rewrite Hws. apply Forall_lookup. intros q w Hq.
    apply startWorkers_lookup in Hq as [_ ->]. unfold healthy. simpl.
    split; [reflexivity|]. split; [discriminate|].
    exists []. split; [reflexivity|constructor].
  - unfold follows. rewrite Hws, ranges_startWorkers.
    split; [reflexivity|]. split.
    + apply Forall_lookup. intros q w Hq.
      apply startWorkers_lookup in Hq as [_ ->]. discriminate.
    + split; [reflexivity|].
      destruct (mainThread_views size cpus s0 H0) as (_ & _ & -> & _).
      reflexivity.
Qed.

(** ** Workers in turn and one worker with all rows *)

(** The ranges of [startWorkers] leave no row out. *)
Lemma ranges_cover z cpus i :
  (0 < cpus)%nat → 0 <= i < z →
  Exists (fun rs => i ∈ rs) (rows <$> ranges (Int z) cpus).
Proof.
  intros Hcpus Hi. unfold ranges, ceil_div.
  destruct (Z.eqb_spec (Z.of_nat cpus) 0) as [|_]; [lia|].
  destruct (ceil_div_bounds z (Z.of_nat cpus)) as [Hc Hz]; [lia..|].
  set (c := - (- z / Z.of_nat cpus)) in *.
  apply Exists_exists. exists (rows (range (Int z) (Int c) (i / c))).
  split.
  - rewrite <- list_fmap_compose. apply list_elem_of_fmap.
    exists (i / c). split; [reflexivity|]. apply elem_of_seqZ.
    split; [apply Z.div_pos; lia|].
    apply Z.div_lt_upper_bound; lia.
  - apply rows_range. pose proof (Z.mul_div_le i c Hc).
    pose proof (Z.mul_succ_div_gt i c Hc). lia.
Qed.

Section Sweep.
Variables (den : Z → Z → Z) (size : number) (x y : Float64Array).
Hypothesis x_placed : 0 <= byteOffset x.
Hypothesis xy_apart : apart x y.
Hypothesis y_len : len y = size_of size.

Lemma sweep_reads m m' i :
  (∀ j, get m x j = get m' x j) →
  fold_left (fun t j => (t + get m x j / Z2F (den i j))%float)
    (upto (Int 0) size) 0%float
  = fold_left (fun t j => (t + get m' x j / Z2F (den i j))%float)
      (upto (Int 0) size) 0%float.
Proof. intros H. apply (sum_reads_source (den i)), H. Qed.

(** All workers in turn write what one worker with all rows writes. *)
Lemma sweeps_whole cpus m :
  (0 < cpus)%nat → fits (base.length m) y →
  fold_left (fun m rs => sweep den size x y rs m) (rows <$> ranges size cpus) m
  = sweep den size x y (upto (Int 0) size) m.
Proof.
  intros Hcpus Hy. apply list_eq. intros c.
  destruct (decide (c < base.length m)%nat) as [Hc|Hc].
  - unfold sweep.
    rewrite (loops_cell x y _ x_placed xy_apart sweep_reads), 
      (loop_cell x y _ x_placed xy_apart sweep_reads);
      [|assumption|apply NoDup_upto|assumption|assumption| |assumption].
    + destruct (decide _) as [[Hv He]|Hno], (decide _) as [[Hv' He']|Hno'];
        try reflexivity; exfalso.
      * apply Hno'. split; [exact Hv|].
        apply in_view_spec in Hv. rewrite y_len in Hv.
        destruct size as [z|]; simpl in *; [|lia].
        apply elem_of_seqZ. lia.
      * apply Hno. split; [exact Hv'|].
        apply in_view_spec in Hv'. rewrite y_len in Hv'.
        destruct size as [z|]; simpl in *; [|lia].
        apply ranges_cover; assumption.
    + apply Forall_fmap, Forall_forall. intros wd _. apply NoDup_upto.
  - unfold sweep. rewrite !lookup_ge_None_2; [reflexivity|..].
    + rewrite (rows_length y). lia.
    + rewrite (loops_length y). lia.
Qed.
End Sweep.

Lemma turn_whole den size cpus x y m (F : WorkerData → list float → list float) :
  0 <= byteOffset x → apart x y → len y = size_of size →
  (0 < cpus)%nat → fits (base.length m) y →
  (∀ wd m, F wd m = sweep den (n wd) x y (rows wd) m) →
  fold_left (fun m wd => F wd m) (ranges size cpus) m = F (whole size) m.
Proof.
  intros Hx Hxy Hlen Hcpus Hy HF.
  rewrite (HF (whole size)).
  change (rows (whole size)) with (upto (Int 0) size).
  change (n (whole size)) with size.
  rewrite <- (sweeps_whole den size x y Hx Hxy Hlen cpus m Hcpus Hy).
  generalize (ranges_n size cpus). generalize (ranges size cpus).
  intros wds Hn. clear Hy. revert m.
  induction Hn as [|wd wds Hwd _ IH]; intros m; simpl; [reflexivity|].
  rewrite HF, Hwd. apply IH.
Qed.

Lemma unit_in_turn_whole size cpus d message m :
  (0 < cpus)%nat → placed (base.length m) d →
  (∀ f, len (field d f) = size_of size) →
  is_unit message = true → proper message →
  unit_in_turn (ranges size cpus) d message m
  = run_unit (whole size) d message m.
Proof.
  intros Hcpus [Hfit Hapart] Hlen Hu Hp. unfold unit_in_turn.
  destruct message as [|f g|f g|]; try discriminate.
  - apply (turn_whole a size cpus (field d f) (field d g));
      [apply (Hfit f)|apply Hapart, Hp|apply Hlen|exact Hcpus|apply Hfit|].
    reflexivity.
  - apply (turn_whole (fun i j => a j i) size cpus (field d f) (field d g));
      [apply (Hfit f)|apply Hapart, Hp|apply Hlen|exact Hcpus|apply Hfit|].
    reflexivity.
Qed.

Lemma in_turn_whole size cpus d units m :
  (0 < cpus)%nat → placed (base.length m) d →
  (∀ f, len (field d f) = size_of size) →
  Forall (fun message => is_unit message = true ∧ proper message) units →
  in_turn (ranges size cpus) d units m = in_turn [whole size] d units m.
Proof.
  intros Hcpus Hd Hlen Hunits. unfold in_turn. revert m Hd.
  induction Hunits as [|message units [Hu Hp] _ IH]; intros m Hd; simpl;
    [reflexivity|].
  rewrite unit_in_turn_whole by assumption.
  apply IH. rewrite run_unit_length. exact Hd.
Qed.

(** ** Properties of every run *)

Lemma run_healthy size cpus s0 tr s :
  mainThread size cpus = Some s0 → exec tr s0 = Some s →
  ∃ sab, (∀ wd, n wd = size → is_Some (views wd sab))
         ∧ Forall (healthy size sab) (workers s).
Proof.
  intros H0 Hexec.
  destruct (mainThread_views size cpus s0 H0) as (sab & Hws & _ & _ & Hviews).
  exists sab. split; [exact Hviews|].
  apply (exec_healthy size sab [] tr s0 s Hviews);
    [eapply inv_init, H0| |exact Hexec].
  rewrite Hws. apply Forall_lookup. intros q w Hq.
  apply startWorkers_lookup in Hq as [_ ->]. unfold healthy. simpl.
  split; [reflexivity|]. split; [discriminate|].
  exists []. split; [reflexivity|constructor].
Qed.

(** X3.  For an integer [n], in no run of the program does a callback of
    a worker throw (lines 134-160): no worker is in the state of having
    thrown, the callback that is running does not throw when it ends, and
    neither does the one that starts next.  [Sab] is the first message of
    every worker (line 101), and for an integer [n] its three views start
    at multiples of 8 bytes and fit the buffer, so neither a [RangeError]
    nor the errors ["Au received before Sab"] and ["Atu received before
    Sab"] occur. *)
Theorem no_callback_throws (z : Z) (cpus : nat) (s0 s : System)
    (tr : list Event) (p : nat) (worker : Worker) :
  mainThread (Int z) cpus = Some s0 → exec tr s0 = Some s →
  workers s !! p = Some worker →
  (∀ error, status worker ≠ Threw error)
  ∧ (∀ message error,
       busy worker = Some message →
       onMessage (wdata worker) (data worker) (mem s) message ≠ Thrown error)
  ∧ (∀ message rest error,
       busy worker = None → inbox worker = message :: rest →
       onMessage (wdata worker) (data worker) (mem s) message ≠ Thrown error).
Proof.
  intros H0 Hexec Hp.
  destruct (run_healthy (Int z) cpus s0 tr s H0 Hexec)
    as (sab & Hviews & Hall).
  destruct (Forall_lookup_1 _ _ _ _ Hall Hp) as (Hn & Hst & Hd).
  split; [exact Hst|]. split.
  - intros message error Hb. rewrite Hb in Hd.
    destruct (data worker) as [d|].
    + destruct Hd as [_ Hnot]. specialize (Hnot message eq_refl).
      destruct message as [b| | |]; simpl; try discriminate.
      destruct (Hnot b eq_refl).
    + destruct Hd as [-> _]. simpl.
      destruct (Hviews (wdata worker) Hn) as [d ->]. discriminate.
  - intros message rest error Hb Hi. rewrite Hb, Hi in Hd.
    destruct (data worker) as [d|].
    + destruct Hd as [Hq _]. apply Forall_cons in Hq as [Hm _].
      destruct message; simpl; try discriminate. destruct Hm.
    + destruct Hd as (rest' & [= -> ->] & _). simpl.
      destruct (Hviews (wdata worker) Hn) as [d ->]. discriminate.
Qed.

Lemma no_callback_throws_witness :
  let tr := [Start 0%nat (Sab {| byteLength := 48 |})] in
  ∃ s0 s worker,
    mainThread (Int 2) 2 = Some s0 ∧ exec tr s0 = Some s
    ∧ workers s !! 0%nat = Some worker
    ∧ (∀ error, status worker ≠ Threw error)
    ∧ (∀ message error,
         busy worker = Some message →
         onMessage (wdata worker) (data worker) (mem s) message ≠ Thrown error)
    ∧ (∀ message rest error,
         busy worker = None → inbox worker = message :: rest →
         onMessage (wdata worker) (data worker) (mem s) message ≠ Thrown error).
Proof.
  intros tr.
  destruct (mainThread (Int 2) 2) as [s0|] eqn:H0;
    [|vm_compute in H0; discriminate H0].
  destruct (exec tr s0) as [s|] eqn:H1.
  - destruct (workers s !! 0%nat) as [worker|] eqn:H2.
    + exists s0, s, worker. do 3 (split; [reflexivity || assumption|]).
      exact (no_callback_throws 2 2 s0 s tr 0 worker H0 H1 H2).
    + exfalso.
      assert ((mainThread (Int 2) 2 ≫= exec tr)
              ≫= (fun s => workers s !! 0%nat) = None) as E
        by (rewrite H0; cbn [mbind option_bind]; rewrite H1; exact H2).
      vm_compute in E. discriminate E.
  - exfalso.
    assert (mainThread (Int 2) 2 ≫= exec tr = None) as E
      by (rewrite H0; exact H1).
    vm_compute in E. discriminate E.
Defined.

(** The views do need an integer [n]: at the byte offset 17, to which
    [2 * 8 * 1.1] is truncated, the third view of line 140 is refused. *)
Example unaligned_view_throws :
  new_Float64Array {| byteLength := 26 |} (Int 17) (Int 1) = None.
Proof. reflexivity. Qed.

(** X4.  The vectors of the workers are the coordinator's (lines 59-61 and
    136-142): in every run, the [data] a worker has made consists of three
    views of length [n] (0 when [n] is [NaN]) that lie inside the buffer
    and share no double, and [data.u] and [data.v] are the views [u] and
    [v] of [mainThread]. *)
Theorem workers_share_the_vectors (size : number) (cpus : nat)
    (s0 s : System) (tr : list Event) (p : nat) (worker : Worker) (d : UVW) :
  mainThread size cpus = Some s0 → exec tr s0 = Some s →
  workers s !! p = Some worker → data worker = Some d →
  u d = main_u s ∧ v d = main_v s
  ∧ (∀ f, fits (base.length (mem s)) (field d f)
          ∧ len (field d f) = size_of size)
  ∧ (∀ f g, f ≠ g → apart (field d f) (field d g)).
Proof.
  intros H0 Hexec Hp Hdata.
  destruct (mainThread_layout size cpus s0 H0)
    as (sab & m & d0 & _ & Hws & _ & Hviews & Hd & Hu & Hv & Hlen & _).
  pose proof (run_follows size cpus s0 sab d0 tr s H0 Hws Hviews Hd Hexec)
    as (_ & Hall & _).
  assert (d = d0) as -> by (exact (Forall_lookup_1 _ _ _ _ Hall Hp d Hdata)).
  destruct (exec_closure _ _ _ Hexec) as (_ & -> & -> & _ & ->).
  destruct Hd as [Hfit Hapart]. auto.
Qed.

Lemma workers_share_the_vectors_witness :
  let tr := boot 1 {| byteLength := 48 |} in
  ∃ s0 s worker d,
    mainThread (Int 2) 1 = Some s0 ∧ exec tr s0 = Some s
    ∧ workers s !! 0%nat = Some worker ∧ data worker = Some d
    ∧ u d = main_u s ∧ v d = main_v s
    ∧ (∀ f, fits (base.length (mem s)) (field d f)
            ∧ len (field d f) = size_of (Int 2))
    ∧ (∀ f g, f ≠ g → apart (field d f) (field d g)).
Proof.
  intros tr.
  destruct (mainThread (Int 2) 1) as [s0|] eqn:H0;
    [|vm_compute in H0; discriminate H0].
  assert ((mainThread (Int 2) 1 ≫= exec tr)
          ≫= (fun s => workers s !! 0%nat ≫= data)
          = Some {| u := {| byteOffset := 0; len := 2 |};
                    v := {| byteOffset := 16; len := 2 |};
                    w := {| byteOffset := 32; len := 2 |} |}) as E
    by (vm_compute; reflexivity).
  rewrite H0 in E. cbn [mbind option_bind] in E.
  destruct (exec tr s0) as [s|] eqn:H1; [|discriminate E].
  cbn [mbind option_bind] in E.
  destruct (workers s !! 0%nat) as [worker|] eqn:H2; [|discriminate E].
  cbn [mbind option_bind] in E.
  exists s0, s, worker. eexists.
  do 3 (split; [reflexivity || assumption|]). split; [exact E|].
  exact (workers_share_the_vectors (Int 2) 1 s0 s tr 0 worker _ H0 H1 H2 E).
Defined.

Lemma listeners_lookup ws p worker :
  ws !! p = Some worker → (armed worker <= listeners ws)%nat.
Proof.
  revert p. induction ws as [|w ws IH]; intros [|p] Hp; simpl in *;
    try discriminate.
  - injection Hp as ->. lia.
  - specialize (IH p Hp). lia.
Qed.

(** X5.  No completion message is lost or counted twice (lines 106-120).
    Whenever a completion of worker [p] reaches the main thread, the
    coordinator is suspended in [work] with a positive counter, the [once]
    callback of [p] is registered, and this is the only completion of [p]
    under way; the callback decrements [wait] and the promise resolves
    exactly when [wait] reaches 0. *)
Theorem every_completion_is_awaited (size : number) (cpus : nat)
    (s0 s s' : System) (tr : list Event) (p : nat) :
  mainThread size cpus = Some s0 → exec tr s0 = Some s →
  step (Deliver p) s = Some s' →
  ∃ worker wait todo,
    workers s !! p = Some worker ∧ listener worker = true
    ∧ outbox worker = 1%nat
    ∧ main s = Waiting wait todo ∧ 0 < wait
    ∧ main s' = (if wait - 1 =? 0 then Ready todo else Waiting (wait - 1) todo).
Proof.
  intros H0 Hexec Hstep.
  destruct (run_inv size cpus s0 tr s H0 Hexec) as [Hw Hc].
  simpl in Hstep.
  destruct (workers s !! p) as [w0|] eqn:Hp; [|discriminate]. simpl in Hstep.
  destruct (deliver w0 (main s)) as [[w1 c]|] eqn:Hd; [|discriminate].
  injection Hstep as <-. simpl.
  destruct (Hw p w0 Hp) as (H1 & H2 & H3 & H4 & H5).
  pose proof (listeners_lookup _ _ _ Hp) as Hle.
  unfold deliver in Hd. unfold armed in *.
  destruct (outbox w0) as [|k] eqn:Ho; [discriminate|].
  destruct (listener w0) eqn:Hl; [|lia].
  destruct (main s) as [todo|wait todo|out] eqn:Hmain; try discriminate.
  destruct Hc as [_ ->]. injection Hd as _ <-.
  exists w0, (Z.of_nat (listeners (workers s))), todo.
  repeat split; try reflexivity; try assumption; lia.
Qed.

Lemma every_completion_is_awaited_witness :
  let tr := boot 1 {| byteLength := 24 |}
            ++ [Dispatch (Au U W); Start 0 (Au U W); Done 0 (Au U W)] in
  ∃ s0 s s',
    mainThread (Int 1) 1 = Some s0 ∧ exec tr s0 = Some s
    ∧ step (Deliver 0) s = Some s'
    ∧ ∃ worker wait todo,
        workers s !! 0%nat = Some worker ∧ listener worker = true
        ∧ outbox worker = 1%nat
        ∧ main s = Waiting wait todo ∧ 0 < wait
        ∧ main s' = (if wait - 1 =? 0 then Ready todo
                     else Waiting (wait - 1) todo).
Proof.
  intros tr.
  destruct (mainThread (Int 1) 1) as [s0|] eqn:H0;
    [|vm_compute in H0; discriminate H0].
  destruct (exec tr s0) as [s|] eqn:H1.
  - destruct (step (Deliver 0) s) as [s'|] eqn:H2.
    + exists s0, s, s'. do 3 (split; [reflexivity || assumption|]).
      exact (every_completion_is_awaited (Int 1) 1 s0 s s' tr 0 H0 H1 H2).
    + exfalso.
      assert ((mainThread (Int 1) 1 ≫= exec tr) ≫= step (Deliver 0) = None)
        as E by (rewrite H0; cbn [mbind option_bind]; rewrite H1; exact H2).
      vm_compute in E. discriminate E.
  - exfalso.
    assert (mainThread (Int 1) 1 ≫= exec tr = None) as E
      by (rewrite H0; exact H1).
    vm_compute in E. discriminate E.
Defined.

Lemma ranges_disjoint size cpus p q wd1 wd2 i :
  p ≠ q → ranges size cpus !! p = Some wd1 → ranges size cpus !! q = Some wd2 →
  i ∈ rows wd1 → i ∉ rows wd2.
Proof.
  unfold ranges. intros Hpq Hp Hq.
  rewrite list_lookup_fmap in Hp, Hq.
  apply fmap_Some in Hp as (p' & Hp & ->).
  apply fmap_Some in Hq as (q' & Hq & ->).
  apply lookup_seqZ in Hp as [-> Hp]. apply lookup_seqZ in Hq as [-> Hq].
  destruct size as [z|]; [|intros H; inversion H].
  unfold ceil_div. destruct (Z.eqb_spec (Z.of_nat cpus) 0) as [|_]; [lia|].
  rewrite !rows_range. nia.
Qed.

(** X6.  Callbacks that run at the same time do not interfere.  In every
    run, when two different workers are both running a compute unit, it is
    the same unit, it reads one vector and writes another, both workers
    have made the same views, and they have no row in common: what one
    writes, the other neither reads nor writes. *)
Theorem concurrent_callbacks_are_disjoint (size : number) (cpus : nat)
    (s0 s : System) (tr : list Event) (p q : nat) (wp wq : Worker)
    (mp mq : Message) :
  mainThread size cpus = Some s0 → exec tr s0 = Some s →
  workers s !! p = Some wp → workers s !! q = Some wq → p ≠ q →
  busy wp = Some mp → busy wq = Some mq →
  is_unit mp = true → is_unit mq = true →
  mp = mq
  ∧ (∃ src dst, (mp = Au src dst ∨ mp = Atu src dst) ∧ src ≠ dst)
  ∧ (∃ d, data wp = Some d ∧ data wq = Some d)
  ∧ ∀ i, i ∈ rows (wdata wp) → i ∉ rows (wdata wq).
Proof.
  intros H0 Hexec Hp Hq Hpq Bp Bq Up Uq.
  destruct (mainThread_layout size cpus s0 H0)
    as (sab & m & d & _ & Hws & _ & Hviews & Hd & _).
  pose proof (run_follows size cpus s0 sab d tr s H0 Hws Hviews Hd Hexec)
    as (Hwds & Hdata & _ & Hmain).
  destruct (run_inv size cpus s0 tr s H0 Hexec) as [Hw Hc].
  destruct (run_healthy size cpus s0 tr s H0 Hexec) as (sab' & _ & Hall).
  pose proof (Hw p wp Hp) as Tp.
  assert (busy_unit wp = 1%nat) as Hbusy
    by (unfold busy_unit; rewrite Bp, Up; reflexivity).
  destruct (main s) as [todo|wait todo|out] eqn:Emain.
  - pose proof Tp as (_ & _ & _ & _ & Hl).
    destruct (worker_idle _ _ _ _ Tp Hl). lia.
  - destruct Hmain as (done & message & E & Honly & _).
    destruct (Forall_lookup_1 _ _ _ _ Honly Hp) as [_ Op].
    destruct (Forall_lookup_1 _ _ _ _ Honly Hq) as [_ Oq].
    rewrite (Op mp Bp Up), (Oq mq Bq Uq). split; [reflexivity|].
    split.
    { destruct Hc as [Hc _]. rewrite E in Hc.
      pose proof iterations_proper as Hpr. rewrite <- Hc in Hpr.
      rewrite !Forall_app, Forall_singleton in Hpr.
      destruct Hpr as [[_ [Hu Hpr]] _].
      destruct message as [|src dst|src dst|]; try discriminate;
        exists src, dst; auto. }
    split.
    { exists d.
      assert (∀ w b, healthy size sab' w → busy w = Some b → is_unit b = true →
                (∀ d', data w = Some d' → d' = d) → data w = Some d) as Hset.
      { intros w b (_ & _ & Hh) Hb Hu Hdd. rewrite Hb in Hh.
        destruct (data w) as [d'|].
        - rewrite (Hdd d' eq_refl). reflexivity.
        - destruct Hh as [-> _]. discriminate. }
      split.
      - apply (Hset wp mp); try assumption;
          [exact (Forall_lookup_1 _ _ _ _ Hall Hp)
          |exact (Forall_lookup_1 _ _ _ _ Hdata Hp)].
      - apply (Hset wq mq); try assumption;
          [exact (Forall_lookup_1 _ _ _ _ Hall Hq)
          |exact (Forall_lookup_1 _ _ _ _ Hdata Hq)]. }
    intros i. apply (ranges_disjoint size cpus p q); [exact Hpq|..];
      rewrite <- Hwds, list_lookup_fmap; [rewrite Hp|rewrite Hq]; reflexivity.
  - pose proof Tp as (_ & _ & _ & _ & Hl).
    destruct (worker_idle _ _ _ _ Tp Hl). lia.
Qed.

Lemma concurrent_callbacks_are_disjoint_witness :
  let tr := boot 2 {| byteLength := 48 |}
            ++ [Dispatch (Au U W); Start 0 (Au U W); Start 1 (Au U W)] in
  ∃ s0 s wp wq,
    mainThread (Int 2) 2 = Some s0 ∧ exec tr s0 = Some s
    ∧ workers s !! 0%nat = Some wp ∧ workers s !! 1%nat = Some wq
    ∧ busy wp = Some (Au U W) ∧ busy wq = Some (Au U W)
    ∧ (∃ src dst, (Au U W = Au src dst ∨ Au U W = Atu src dst) ∧ src ≠ dst)
    ∧ (∃ d, data wp = Some d ∧ data wq = Some d)
    ∧ ∀ i, i ∈ rows (wdata wp) → i ∉ rows (wdata wq).
Proof.
  intros tr.
  destruct (mainThread (Int 2) 2) as [s0|] eqn:H0;
    [|vm_compute in H0; discriminate H0].
  assert ((mainThread (Int 2) 2 ≫= exec tr)
          ≫= (fun s => wp ← workers s !! 0%nat; wq ← workers s !! 1%nat;
                       Some (busy wp, busy wq))
          = Some (Some (Au U W), Some (Au U W))) as E
    by (vm_compute; reflexivity).
  rewrite H0 in E. cbn [mbind option_bind] in E.
  destruct (exec tr s0) as [s|] eqn:H1; [|discriminate E].
  cbn [mbind option_bind] in E.
  destruct (workers s !! 0%nat) as [wp|] eqn:Hp; [|discriminate E].
  cbn [mbind option_bind] in E.
  destruct (workers s !! 1%nat) as [wq|] eqn:Hq; [|discriminate E].
  cbn [mbind option_bind] in E. injection E as Bp Bq.
  exists s0, s, wp, wq.
  do 4 (split; [reflexivity || assumption|]).
  split; [exact Bp|]. split; [exact Bq|].
  apply (concurrent_callbacks_are_disjoint (Int 2) 2 s0 s tr 0 1 wp wq
           (Au U W) (Au U W) H0 H1 Hp Hq); [lia|assumption..|reflexivity|reflexivity].
Defined.

(** X7.  Between two barriers the workers together compute one whole
    matrix-vector product.  If a run reaches a state where the coordinator
    is about to dispatch the unit [message] and goes on to the state where
    it is about to dispatch the next one, then in the buffer of the second
    state every entry [i] in [0 .. n - 1] of the destination vector is the
    sum over [j] of [src[j] / a(i, j)] (for [Au]; [a(j, i)] for [Atu])
    taken over the source vector of the first state, and the two other
    vectors are as they were; source and destination differ.  This holds
    for every number of workers and every interleaving. *)
Theorem round_is_product (z : Z) (cpus : nat) (s0 s1 s2 : System)
    (tr1 tr2 : list Event) (message : Message) (todo : list Message)
    (p : nat) (worker : Worker) (d : UVW) :
  mainThread (Int z) cpus = Some s0 → (0 < cpus)%nat →
  exec tr1 s0 = Some s1 → main s1 = Ready (message :: todo) →
  exec tr2 s1 = Some s2 → main s2 = Ready todo →
  workers s2 !! p = Some worker → data worker = Some d →
  ∃ src dst,
    (message = Au src dst
     ∧ (∀ i, 0 <= i < z →
          get (mem s2) (field d dst) i
          = spec_sum (get (mem s1) (field d src)) (a i) z)
     ∨ message = Atu src dst
       ∧ (∀ i, 0 <= i < z →
            get (mem s2) (field d dst) i
            = spec_sum (get (mem s1) (field d src)) (fun j => a j i) z))
    ∧ src ≠ dst
    ∧ ∀ f i, f ≠ dst → get (mem s2) (field d f) i = get (mem s1) (field d f) i.
Proof.
  intros H0 Hcpus H1 E1 H2 E2 Hp Hdata.
  assert (exec (tr1 ++ tr2) s0 = Some s2) as H12
    by (rewrite exec_app, H1; exact H2).
  destruct (mainThread_layout (Int z) cpus s0 H0)
    as (sab & m & d0 & _ & Hws & _ & Hviews & Hd & _ & _ & Hlen & _).
  pose proof (run_follows _ cpus s0 sab d0 tr1 s1 H0 Hws Hviews Hd H1)
    as (_ & _ & L1 & F1).
  pose proof (run_follows _ cpus s0 sab d0 (tr1 ++ tr2) s2 H0 Hws Hviews Hd H12)
    as (_ & Hall & _ & F2).
  assert (d = d0) as -> by (exact (Forall_lookup_1 _ _ _ _ Hall Hp d Hdata)).
  destruct (run_inv _ cpus s0 tr1 s1 H0 H1) as [_ C1].
  destruct (run_inv _ cpus s0 (tr1 ++ tr2) s2 H0 H12) as [_ C2].
  rewrite E1 in F1, C1. rewrite E2 in F2, C2. simpl in C1, C2.
  assert (dispatches (tr1 ++ tr2) = dispatches tr1 ++ [message]) as Hdis.
  { apply (app_inv_tail todo). rewrite <- app_assoc. simpl. congruence. }
  pose proof iterations_proper as Hproper. rewrite <- C1 in Hproper.
  apply Forall_app in Hproper as [_ Hproper].
  apply Forall_cons in Hproper as [[Hu Hpr] _].
  rewrite Hdis, in_turn_snoc, <- F1 in F2.
  rewrite unit_in_turn_whole in F2; try assumption; [|rewrite L1; exact Hd].
  rewrite <- L1 in Hd. destruct Hd as [Hfit Hapart].
  assert (∀ f, 0 <= byteOffset (field d0 f)) as Hoff by (intros f; apply Hfit).
  destruct message as [|src dst|src dst|]; try discriminate;
    exists src, dst; simpl in Hpr; (split; [|split; [exact Hpr|]]).
  - left. split; [reflexivity|]. intros i Hi. rewrite F2.
    change (run_unit (whole (Int z)) d0 (Au src dst) (mem s1))
      with (au (whole (Int z)) (mem s1) (field d0 src) (field d0 dst)).
    unfold au.
    rewrite (rows_written (field d0 src) (field d0 dst)
               (fun m i => au_row (whole (Int z)) m (field d0 src) i))
      with (m0 := mem s1); try reflexivity;
      [|apply Hoff|apply Hapart, Hpr|intros; apply au_row_reads; assumption
       |apply Hfit|apply NoDup_upto|simpl; apply elem_of_seqZ; lia
       |rewrite (Hlen dst); exact Hi].
    unfold au_row, spec_sum, upto. simpl. rewrite Z.sub_0_r. reflexivity.
  - intros f i Hf. rewrite F2. unfold run_unit. simpl.
    apply (rows_keep_source (field d0 f) (field d0 dst)); [apply Hoff| |apply Hoff].
    apply Hapart, Hf.
  - right. split; [reflexivity|]. intros i Hi. rewrite F2.
    change (run_unit (whole (Int z)) d0 (Atu src dst) (mem s1))
      with (atu (whole (Int z)) (mem s1) (field d0 src) (field d0 dst)).
    unfold atu.
    rewrite (rows_written (field d0 src) (field d0 dst)
               (fun m i => atu_row (whole (Int z)) m (field d0 src) i))
      with (m0 := mem s1); try reflexivity;
      [|apply Hoff|apply Hapart, Hpr|intros; apply atu_row_reads; assumption
       |apply Hfit|apply NoDup_upto|simpl; apply elem_of_seqZ; lia
       |rewrite (Hlen dst); exact Hi].
    unfold atu_row, spec_sum, upto. simpl. rewrite Z.sub_0_r. reflexivity.
  - intros f i Hf. rewrite F2. unfold run_unit. simpl.
    apply (rows_keep_source (field d0 f) (field d0 dst)); [apply Hoff| |apply Hoff].
    apply Hapart, Hf.
Qed.

Lemma round_is_product_witness :
  let tr1 := boot 2 {| byteLength := 48 |} in
  let tr2 := round 2 (Au U W) in
  ∃ s0 s1 s2 worker d,
    mainThread (Int 2) 2 = Some s0
    ∧ exec tr1 s0 = Some s1 ∧ exec tr2 s1 = Some s2
    ∧ workers s2 !! 0%nat = Some worker ∧ data worker = Some d
    ∧ ∃ src dst,
        (Au U W = Au src dst
         ∧ (∀ i, 0 <= i < 2 →
              get (mem s2) (field d dst) i
              = spec_sum (get (mem s1) (field d src)) (a i) 2)
         ∨ Au U W = Atu src dst
           ∧ (∀ i, 0 <= i < 2 →
                get (mem s2) (field d dst) i
                = spec_sum (get (mem s1) (field d src)) (fun j => a j i) 2))
        ∧ src ≠ dst
        ∧ ∀ f i, f ≠ dst →
            get (mem s2) (field d f) i = get (mem s1) (field d f) i.
Proof.
  intros tr1 tr2.
  destruct (mainThread (Int 2) 2) as [s0|] eqn:H0;
    [|vm_compute in H0; discriminate H0].
  assert ((mainThread (Int 2) 2 ≫= exec tr1)
          ≫= (fun s1 => exec tr2 s1
                ≫= (fun s2 => worker ← workers s2 !! 0%nat; d ← data worker;
                              Some (main s1, main s2, d)))
          = Some (Ready iterations, Ready (tail iterations),
                  {| u := {| byteOffset := 0; len := 2 |};
                     v := {| byteOffset := 16; len := 2 |};
                     w := {| byteOffset := 32; len := 2 |} |})) as E
    by (vm_compute; reflexivity).
  rewrite H0 in E. cbn [mbind option_bind] in E.
  destruct (exec tr1 s0) as [s1|] eqn:H1; [|discriminate E].
  cbn [mbind option_bind] in E.
  destruct (exec tr2 s1) as [s2|] eqn:H2; [|discriminate E].
  cbn [mbind option_bind] in E.
  destruct (workers s2 !! 0%nat) as [worker|] eqn:Hp; [|discriminate E].
  cbn [mbind option_bind] in E.
  destruct (data worker) as [d|] eqn:Hd; [|discriminate E].
  cbn [mbind option_bind] in E. injection E as E1 E2 _.
  exists s0, s1, s2, worker, d.
  do 5 (split; [reflexivity || assumption|]).
  apply (round_is_product 2 2 s0 s1 s2 tr1 tr2 (Au U W) (tail iterations)
           0 worker d H0); [lia|assumption..].
Defined.

(** X8.  The result does not depend on the schedule.  Two runs of the
    program from the same start that are at the same barrier (the
    coordinator about to dispatch the same remaining units) have the same
    doubles in the buffer, bit for bit; two runs that have printed have the
    same buffer and have printed the same text. *)
Theorem runs_agree (size : number) (cpus : nat) (s0 s1 s2 : System)
    (tr1 tr2 : list Event) :
  mainThread size cpus = Some s0 →
  exec tr1 s0 = Some s1 → exec tr2 s0 = Some s2 →
  (∀ todo, main s1 = Ready todo → main s2 = Ready todo → mem s1 = mem s2)
  ∧ (∀ out1 out2, main s1 = Finished out1 → main s2 = Finished out2 →
       mem s1 = mem s2 ∧ out1 = out2).
Proof.
  intros H0 H1 H2.
  destruct (mainThread_layout size cpus s0 H0)
    as (sab & m & d & _ & Hws & _ & Hviews & Hd & _).
  pose proof (run_follows size cpus s0 sab d tr1 s1 H0 Hws Hviews Hd H1)
    as (_ & _ & _ & F1).
  pose proof (run_follows size cpus s0 sab d tr2 s2 H0 Hws Hviews Hd H2)
    as (_ & _ & _ & F2).
  destruct (run_inv size cpus s0 tr1 s1 H0 H1) as [_ C1].
  destruct (run_inv size cpus s0 tr2 s2 H0 H2) as [_ C2].
  destruct (exec_closure _ _ _ H1) as (N1 & U1 & V1 & _).
  destruct (exec_closure _ _ _ H2) as (N2 & U2 & V2 & _).
  split.
  - intros todo E1 E2. rewrite E1 in F1, C1. rewrite E2 in F2, C2.
    simpl in C1, C2. rewrite <- C2 in C1. apply app_inv_tail in C1.
    rewrite F1, F2, C1. reflexivity.
  - intros out1 out2 E1 E2. rewrite E1 in F1. rewrite E2 in F2.
    destruct F1 as [M1 ->], F2 as [M2 ->].
    split; [congruence|]. rewrite N1, U1, V1, N2, U2, V2, M1, M2. reflexivity.
Qed.

Lemma runs_agree_witness :
  let sab := {| byteLength := 48 |} in
  let tr1 := boot 2 sab ++ round 2 (Au U W) in
  let tr2 := [Start 1 (Sab sab); Start 0 (Sab sab); Done 0 (Sab sab);
              Done 1 (Sab sab); Dispatch (Au U W); Start 1 (Au U W);
              Start 0 (Au U W); Done 1 (Au U W); Deliver 1; Done 0 (Au U W);
              Deliver 0] in
  ∃ s0 s1 s2 todo,
    mainThread (Int 2) 2 = Some s0
    ∧ exec tr1 s0 = Some s1 ∧ exec tr2 s0 = Some s2
    ∧ main s1 = Ready todo ∧ main s2 = Ready todo
    ∧ mem s1 = mem s2.
Proof.
  intros sab tr1 tr2.
  destruct (mainThread (Int 2) 2) as [s0|] eqn:H0;
    [|vm_compute in H0; discriminate H0].
  assert ((mainThread (Int 2) 2 ≫= exec tr1) ≫= (fun s => Some (main s))
          = Some (Ready (tail iterations))) as E1 by (vm_compute; reflexivity).
  assert ((mainThread (Int 2) 2 ≫= exec tr2) ≫= (fun s => Some (main s))
          = Some (Ready (tail iterations))) as E2 by (vm_compute; reflexivity).
  rewrite H0 in E1, E2. cbn [mbind option_bind] in E1, E2.
  destruct (exec tr1 s0) as [s1|] eqn:H1; [|discriminate E1].
  destruct (exec tr2 s0) as [s2|] eqn:H2; [|discriminate E2].
  cbn [mbind option_bind] in E1, E2. injection E1 as E1. injection E2 as E2.
  exists s0, s1, s2, (tail iterations).
  do 5 (split; [reflexivity || assumption|]).
  exact (proj1 (runs_agree (Int 2) 2 s0 s1 s2 tr1 tr2 H0 H1 H2) _ E1 E2).
Defined.

(** X9.  The result does not depend on the number of workers.  For the
    same [n], a complete run with [cpus] workers and a complete run with
    [cpus'] workers (both positive) end with the same doubles in the
    buffer and print the same text: in particular the text a single worker
    with all rows gives. *)
Theorem worker_count_irrelevant (size : number) (cpus cpus' : nat)
    (s0 s0' s s' : System) (tr tr' : list Event) (out out' : Rendered) :
  mainThread size cpus = Some s0 → mainThread size cpus' = Some s0' →
  (0 < cpus)%nat → (0 < cpus')%nat →
  exec tr s0 = Some s → exec tr' s0' = Some s' →
  main s = Finished out → main s' = Finished out' →
  mem s = mem s' ∧ out = out'.
Proof.
  intros H0 H0' Hcpus Hcpus' H1 H1' E E'.
  destruct (mainThread_layout size cpus s0 H0)
    as (sab & m & d & Eb & Hws & Hwhole & Hviews & Hd & _ & _ & Hlen & _).
  destruct (mainThread_layout size cpus' s0' H0')
    as (sab' & m' & d' & Eb' & Hws' & Hwhole' & Hviews' & Hd' & _).
  rewrite Eb in Eb'. injection Eb' as <- <-.
  rewrite Hwhole in Hwhole'. injection Hwhole' as <-.
  assert (mem s0' = mem s0 ∧ main_n s0' = main_n s0 ∧ main_u s0' = main_u s0
          ∧ main_v s0' = main_v s0) as (Em & En & Eu & Ev).
  { apply mainThread_Some in H0 as (? & ? & x & y & A1 & A2 & A3 & ->).
    apply mainThread_Some in H0' as (? & ? & x' & y' & B1 & B2 & B3 & ->).
    rewrite A1 in B1. injection B1 as <- <-.
    rewrite A2 in B2. injection B2 as <-.
    rewrite A3 in B3. injection B3 as <-. simpl. auto. }
  pose proof (run_follows size cpus s0 sab d tr s H0 Hws Hviews Hd H1)
    as (_ & _ & _ & F).
  pose proof (run_follows size cpus' s0' sab d tr' s' H0' Hws' Hviews' Hd' H1')
    as (_ & _ & _ & F').
  rewrite E in F. rewrite E' in F'. destruct F as [M ->], F' as [M' ->].
  destruct (exec_closure _ _ _ H1) as (-> & -> & -> & _).
  destruct (exec_closure _ _ _ H1') as (-> & -> & -> & _).
  assert (mem s = mem s') as Hmem.
  { rewrite M, M', Em.
    rewrite !(in_turn_whole size _ d iterations (mem s0));
      try assumption; try apply iterations_proper. reflexivity. }
  split; [exact Hmem|]. rewrite Hmem, En, Eu, Ev. reflexivity.
Qed.

Lemma worker_count_irrelevant_witness :
  let tr := schedule 1 {| byteLength := 48 |} in
  let tr' := schedule 2 {| byteLength := 48 |} in
  ∃ s0 s0' s s' out out',
    mainThread (Int 2) 1 = Some s0 ∧ mainThread (Int 2) 2 = Some s0'
    ∧ exec tr s0 = Some s ∧ exec tr' s0' = Some s'
    ∧ main s = Finished out ∧ main s' = Finished out'
    ∧ mem s = mem s' ∧ out = out'.
Proof.
  intros tr tr'.
  destruct (mainThread (Int 2) 1) as [s0|] eqn:H0;
    [|vm_compute in H0; discriminate H0].
  destruct (mainThread (Int 2) 2) as [s0'|] eqn:H0';
    [|vm_compute in H0'; discriminate H0'].
  assert ((mainThread (Int 2) 1 ≫= exec tr) ≫= (fun s => Some (main s))
          = Some (Finished (Text "1.183350177"))) as E
    by (vm_compute; reflexivity).
  assert ((mainThread (Int 2) 2 ≫= exec tr') ≫= (fun s => Some (main s))
          = Some (Finished (Text "1.183350177"))) as E'
    by (vm_compute; reflexivity).
  rewrite H0 in E. rewrite H0' in E'. cbn [mbind option_bind] in E, E'.
  destruct (exec tr s0) as [s|] eqn:H1; [|discriminate E].
  destruct (exec tr' s0') as [s'|] eqn:H1'; [|discriminate E'].
  cbn [mbind option_bind] in E, E'. injection E as E. injection E' as E'.
  exists s0, s0', s, s'. do 2 eexists.
  do 4 (split; [reflexivity || assumption|]).
  split; [exact E|]. split; [exact E'|].
  apply (worker_count_irrelevant (Int 2) 1 2 s0 s0' s s' tr tr' _ _ H0 H0');
    [lia|lia|assumption..].
Defined.

(** ** The printed norm for [n = 2]

    With two workers and [n = 2], every run that reaches the code after
    the loop, whatever the order of the callbacks, prints [1.183350177]:
    the root is in the range of the fixed notation, and the text is its
    nearest multiple of [10^-9]. *)


(** ** Every run can be completed *)

Lemma rounds_run_idle cpus todo s :
  (0 < cpus)%nat → base.length (workers s) = cpus →
  Forall (shaped true [] false) (workers s) → main s = Ready todo →
  Forall (fun m => is_unit m = true) todo →
  ∃ s', exec (todo ≫= round cpus) s = Some s'
        ∧ Forall (shaped true [] false) (workers s') ∧ main s' = Ready [].
Proof.
  intros Hcpus. revert s.
  induction todo as [|message todo IH]; intros s Hlen Hidle Hmain Hunits.
  - exists s. split; [reflexivity|]. split; assumption.
  - apply Forall_cons in Hunits as [Hunit Hunits].
    destruct (round_runs cpus message todo s) as (s1 & E1 & Hidle1 & Hmain1);
      try assumption.
    destruct (exec_closure _ _ _ E1) as (_ & _ & _ & Hlen1 & _).
    destruct (IH s1) as (s2 & E2 & Hmain2); try assumption; [congruence|].
    exists s2. rewrite bind_cons, exec_app, E1. split; assumption.
Qed.

Lemma exit_step s p worker :
  workers s !! p = Some worker → shaped true [Exit] false worker →
  ∃ worker',
    exec [Start p Exit; Done p Exit] s
    = Some (with_workers s (<[p := worker']> (workers s)) (main s))
    ∧ gone worker'.
Proof.
  intros Hp (Hd & Hb & Hi & Ho & Hs & Hl).
  destruct worker as [wd dt bs ib ob st ls]. simpl in *. subst.
  eexists. split.
  - unfold exec, step. rewrite Hp. simpl. unfold start_worker. simpl.
    rewrite (list_lookup_insert_same _ _ _ _ Hp). simpl.
    unfold with_workers. simpl.
    rewrite list_insert_insert_eq. reflexivity.
  - unfold gone. simpl. auto.
Qed.

Lemma shutdown_runs cpus s :
  base.length (workers s) = cpus →
  Forall (shaped true [Exit] false) (workers s) →
  ∃ s', exec (shutdown cpus) s = Some s'
        ∧ Forall gone (workers s') ∧ main s' = main s ∧ mem s' = mem s.
Proof.
  intros Hlen Hall.
  set (I := fun k s' =>
              base.length (workers s') = cpus
              ∧ served k gone (shaped true [Exit] false) (workers s')
              ∧ main s' = main s ∧ mem s' = mem s).
  destruct (exec_loop (fun p => [Start p Exit; Done p Exit]) I cpus)
    with (j := cpus) (k := 0%nat) (s := s)
    as (s' & Hexec & Hlen' & Hserved & Hmain & Hmem).
  - intros k s1 Hk (Hlen1 & Hserved & Hmain & Hmem).
    destruct (lookup_lt_is_Some_2 (workers s1) k) as [worker Hw]; [lia|].
    pose proof (Hserved k worker Hw) as Hshape.
    rewrite decide_False in Hshape by lia.
    destruct (exit_step s1 k worker Hw Hshape) as (w' & -> & Hw').
    eexists. split; [reflexivity|]. unfold I. simpl.
    rewrite length_insert. split; [exact Hlen1|].
    split; [apply served_insert; assumption|]. auto.
  - lia.
  - unfold I. split; [exact Hlen|]. split; [|auto].
    apply served_none. exact Hall.
  - exists s'. split; [exact Hexec|]. split; [|auto].
    eapply served_all; [exact Hserved|lia].
Qed.

Lemma step_live size sab h e s s' :
  inv h s → Forall (healthy size sab) (workers s) →
  (∀ wd, n wd = size → is_Some (views wd sab)) →
  live h s → step e s = Some s' → live (h ++ [e]) s'.
Proof.
  intros [Hw Hc] Hall Hviews [Hl Hwait] Hstep.
  destruct e as [m | q m | q m | q | ]; simpl in Hstep.
  - (* dispatch *)
    destruct (main s) as [[|m0 todo]| |] eqn:Hmain; try discriminate.
    destruct (decide (m0 = m)) as [->|]; [|discriminate].
    rewrite work_spec in Hstep. injection Hstep as <-. simpl in Hc.
    pose proof (iterations_units _ _ Hc) as Hunits.
    apply Forall_cons in Hunits as [Hm _].
    split; simpl.
    + intros p worker' Hp. rewrite list_lookup_fmap in Hp.
      apply fmap_Some in Hp as (worker & Hp & ->).
      destruct (Hl p worker Hp) as [Hcount Hexit].
      rewrite !count_snoc. simpl. split; [lia|].
      unfold exit_ok in *. simpl.
      destruct (status worker); [|exact Hexit|].
      * destruct Hexit as [Hb Hi]. split; [exact Hb|].
        rewrite elem_of_app, list_elem_of_singleton.
        intros [?|E]; [tauto|]. rewrite <- E in Hm. discriminate.
      * destruct Hexit as (_ & _ & out & [=]).
    + destruct (workers s) as [|w ws]; [right; reflexivity|left; simpl; lia].
  - (* a callback starts *)
    destruct (workers s !! q) as [w0|] eqn:Hq; [|discriminate]. simpl in Hstep.
    destruct (start_worker w0 m) as [w1|] eqn:Hs; [|discriminate].
    injection Hstep as <-. simpl.
    unfold start_worker in Hs.
    destruct (status w0) eqn:Hst; try discriminate.
    destruct (busy w0) eqn:Hb; try discriminate.
    destruct (inbox w0) as [|m0 rest] eqn:Hi; try discriminate.
    destruct (decide (m0 = m)) as [->|]; [|discriminate].
    injection Hs as <-.
    split; simpl.
    + intros p worker Hp. rewrite !count_snoc. simpl. rewrite !Nat.add_0_r.
      destruct (decide (p = q)) as [->|Hne].
      * rewrite (list_lookup_insert_same _ _ _ _ Hq) in Hp. injection Hp as <-.
        destruct (Hl q w0 Hq) as [Hcount Hexit]. split; [exact Hcount|].
        unfold exit_ok in *. simpl. rewrite Hst, Hb, Hi in Hexit.
        destruct (main s) as [todo|wait todo|out].
        -- destruct Hexit as [_ Hno]. rewrite not_elem_of_cons in Hno.
           destruct Hno as [Hne Hno]. split; [congruence|exact Hno].
        -- destruct Hexit as [_ Hno]. rewrite not_elem_of_cons in Hno.
           destruct Hno as [Hne Hno]. split; [congruence|exact Hno].
        -- destruct Hexit as [[_ [=]]|[_ (queue & E & Hno)]].
           destruct queue as [|m' queue]; simpl in E; injection E as -> ->.
           ++ left. auto.
           ++ right. rewrite not_elem_of_cons in Hno.
              destruct Hno as [Hne Hno]. split; [congruence|].
              exists queue. auto.
      * rewrite list_lookup_insert_ne in Hp by congruence. apply Hl, Hp.
    + destruct (main s); try exact I.
      destruct Hwait as [?| E]; [left; assumption|].
      rewrite E in Hq. discriminate.
  - (* a callback ends *)
    destruct (workers s !! q) as [w0|] eqn:Hq; [|discriminate]. simpl in Hstep.
    destruct (finish_worker w0 m (mem s)) as [[w1 m1]|] eqn:Hf; [|discriminate].
    simpl in Hstep. injection Hstep as <-. simpl.
    pose proof (Forall_lookup_1 _ _ _ _ Hall Hq) as (Hn & Hnt & Hd).
    unfold finish_worker in Hf.
    destruct (status w0) eqn:Hst; try discriminate.
    destruct (busy w0) as [b|] eqn:Hb; try discriminate.
    destruct (decide (b = m)) as [->|]; [|discriminate].
    destruct (Hl q w0 Hq) as [Hcount Hexit].
    unfold exit_ok in Hexit. rewrite Hst, Hb in Hexit.
    split; simpl.
    + intros p worker Hp. rewrite !count_snoc. simpl. rewrite !Nat.add_0_r.
      destruct (decide (p = q)) as [->|Hne].
      * rewrite (list_lookup_insert_same _ _ _ _ Hq) in Hp. injection Hp as <-.
        rewrite bool_decide_true by reflexivity. simpl.
        destruct (onMessage (wdata w0) (data w0) (mem s) m)
          as [d' m' k|error|] eqn:Ho; injection Hf as <- <-; simpl.
        -- pose proof (onMessage_posted _ _ _ _ _ _ _ Ho) as ->.
           split; [destruct (is_unit m); lia|].
           unfold exit_ok. simpl.
           assert (m ≠ Exit) as Hm by (intros ->; discriminate Ho).
           destruct (main s) as [todo|wait todo|out].
           ++ split; [discriminate|apply Hexit].
           ++ split; [discriminate|apply Hexit].
           ++ destruct Hexit as [[[= ->] _]|[_ Hq0]]; [congruence|].
              right. split; [discriminate|exact Hq0].
        -- exfalso. destruct (data w0) as [d|].
           ++ destruct Hd as [_ Hnot]. specialize (Hnot m eq_refl).
              destruct m as [b| | |]; try discriminate Ho.
              destruct (Hnot b eq_refl).
           ++ destruct Hd as [-> _]. simpl in Ho.
              destruct (Hviews (wdata w0) Hn) as [d Hv]. rewrite Hv in Ho.
              discriminate.
        -- assert (m = Exit) as ->
             by (destruct m as [b| | |]; simpl in Ho;
                 [destruct (views _ b)|destruct (data w0)..|];
                 try discriminate; reflexivity).
           simpl. split; [lia|]. unfold exit_ok. simpl.
           destruct (main s) as [todo|wait todo|out].
           ++ destruct Hexit as [Hne _]. congruence.
           ++ destruct Hexit as [Hne _]. congruence.
           ++ destruct Hexit as [[_ Hi]|[Hne _]]; [|congruence]. eauto.
      * rewrite list_lookup_insert_ne in Hp by congruence.
        rewrite bool_decide_false by congruence. simpl. rewrite Nat.add_0_r.
        apply Hl, Hp.
    + destruct (main s); try exact I.
      destruct Hwait as [?| E]; [left; assumption|].
      rewrite E in Hq. discriminate.
  - (* a completion is delivered *)
    destruct (workers s !! q) as [w0|] eqn:Hq; [|discriminate]. simpl in Hstep.
    destruct (deliver w0 (main s)) as [[w1 c]|] eqn:Hd; [|discriminate].
    simpl in Hstep. injection Hstep as <-. simpl.
    unfold deliver in Hd. destruct (outbox w0) as [|k] eqn:Ho; [discriminate|].
    destruct (Hw q w0 Hq) as (H1 & H2 & H3 & H4 & H5).
    destruct (listener w0) eqn:Hlis;
      [|exfalso; unfold armed in H4; rewrite Hlis in H4; lia].
    destruct (main s) as [todo|wait todo|out] eqn:Hmain; try discriminate H5.
    injection Hd as <- <-. destruct Hc as [Hc Hwt].
    pose proof (listeners_lookup _ _ _ Hq) as Hle.
    unfold armed in Hle. rewrite Hlis in Hle.
    split; simpl.
    + intros p worker Hp. rewrite !count_snoc. simpl. rewrite !Nat.add_0_r.
      destruct (decide (p = q)) as [->|Hne].
      * rewrite (list_lookup_insert_same _ _ _ _ Hq) in Hp. injection Hp as <-.
        rewrite bool_decide_true by reflexivity. simpl.
        destruct (Hl q w0 Hq) as [Hcount Hexit]. split; [lia|].
        unfold exit_ok in *. simpl.
        destruct (status w0); [|exact Hexit|destruct Hexit as (_ & _ & ? & [=])].
        destruct (wait - 1 =? 0); exact Hexit.
      * rewrite list_lookup_insert_ne in Hp by congruence.
        rewrite bool_decide_false by congruence. rewrite Nat.add_0_r.
        destruct (Hl p worker Hp) as [Hcount Hexit]. split; [exact Hcount|].
        unfold exit_ok in *.
        destruct (status worker); [|exact Hexit|destruct Hexit as (_ & _ & ? & [=])].
        destruct (wait - 1 =? 0); exact Hexit.
    + destruct (Z.eqb_spec (wait - 1) 0); [exact I|]. left. lia.
  - (* the code after the loop *)
    destruct (main s) as [[|? ?]| |] eqn:Hmain; try discriminate.
    injection Hstep as <-. split; simpl; [|exact I].
    intros p worker' Hp. unfold stopWorkers in Hp.
    rewrite list_lookup_fmap in Hp.
    apply fmap_Some in Hp as (worker & Hp & ->).
    destruct (Hl p worker Hp) as [Hcount Hexit].
    rewrite !count_snoc. simpl. split; [lia|].
    unfold exit_ok in *. simpl.
    destruct (status worker); [|exact Hexit|destruct Hexit as (_ & _ & ? & [=])].
    right. destruct Hexit as [Hb Hi]. split; [exact Hb|].
    exists (inbox worker). auto.
Qed.

Lemma step_sound size sab h e s s' :
  (∀ wd, n wd = size → is_Some (views wd sab)) →
  sound size sab h s → step e s = Some s' → sound size sab (h ++ [e]) s'.
Proof.
  intros Hviews (Hinv & Hall & Hlive) Hstep. split; [|split].
  - eapply step_inv; eassumption.
  - eapply step_healthy; eassumption.
  - eapply step_live; eassumption.
Qed.

Lemma exec_sound size sab h tr s s' :
  (∀ wd, n wd = size → is_Some (views wd sab)) →
  sound size sab h s → exec tr s = Some s' → sound size sab (h ++ tr) s'.
Proof.
  intros Hviews. revert h s.
  induction tr as [|e tr IH]; intros h s Hs Hexec; simpl in Hexec.
  - injection Hexec as <-. rewrite app_nil_r. exact Hs.
  - destruct (step e s) as [s1|] eqn:Hstep; [|discriminate]. simpl in Hexec.
    replace (h ++ e :: tr) with ((h ++ [e]) ++ tr)
      by (rewrite <- app_assoc; reflexivity).
    apply (IH (h ++ [e]) s1); [|exact Hexec].
    eapply step_sound; eassumption.
Qed.

Lemma run_sound size cpus s0 tr s :
  mainThread size cpus = Some s0 → exec tr s0 = Some s →
  ∃ sab, (∀ wd, n wd = size → is_Some (views wd sab))
         ∧ sound size sab tr s.
Proof.
  intros H0 Hexec.
  destruct (mainThread_views size cpus s0 H0) as (sab & Hws & Hmain & _ & Hviews).
  exists sab. split; [exact Hviews|].
  apply (exec_sound size sab [] tr s0 s Hviews); [|exact Hexec].
  split; [eapply inv_init, H0|]. split.
  - rewrite Hws. apply Forall_lookup. intros q w Hq.
    apply startWorkers_lookup in Hq as [_ ->]. unfold healthy. simpl.
    split; [reflexivity|]. split; [discriminate|].
    exists []. split; [reflexivity|constructor].
  - split; [|rewrite Hmain; exact I].
    intros p w Hp. rewrite Hws in Hp.
    apply startWorkers_lookup in Hp as [_ ->]. split; [reflexivity|].
    unfold exit_ok. rewrite Hmain. simpl. split; [discriminate|].
    rewrite list_elem_of_singleton. discriminate.
Qed.

(** A worker with something left to do can do it. *)
Lemma progress size sab h s p worker :
  sound size sab h s → workers s !! p = Some worker → (0 < load worker)%nat →
  ∃ e s' worker',
    step e s = Some s' ∧ workers s' !! p = Some worker'
    ∧ (load worker' < load worker)%nat
    ∧ ∀ q, q ≠ p → workers s' !! q = workers s !! q.
Proof.
  intros (_ & _ & Hl & _) Hp Hload.
  destruct (Hl p worker Hp) as [_ Hexit]. unfold exit_ok in Hexit.
  unfold load in *.
  destruct (busy worker) as [m|] eqn:Hb.
  - destruct (status worker) eqn:Hst;
      [|destruct Hexit|destruct Hexit as ([=] & _)].
    exists (Done p m).
    assert (∃ w1 m1, finish_worker worker m (mem s) = Some (w1, m1)
                     ∧ inbox w1 = inbox worker ∧ busy w1 = None
                     ∧ (outbox w1 <= outbox worker + 1)%nat)
      as (w1 & m1 & Hf & Hi & Hb1 & Ho).
    { unfold finish_worker. rewrite Hst, Hb, decide_True by reflexivity.
      destruct (onMessage (wdata worker) (data worker) (mem s) m)
        as [d' m' k|error|] eqn:Ho; eexists; eexists;
        (split; [reflexivity|]); simpl; repeat split; try lia.
      apply onMessage_posted in Ho. destruct (is_unit m); lia. }
    eexists; exists w1. simpl. rewrite Hp. simpl. rewrite Hf. simpl.
    split; [reflexivity|]. simpl.
    split; [apply (list_lookup_insert_same _ _ _ _ Hp)|].
    split; [rewrite Hi, Hb1; lia|].
    intros q Hq. apply list_lookup_insert_ne. congruence.
  - destruct (inbox worker) as [|m rest] eqn:Hi.
    + exists (Deliver p). simpl in Hload.
      destruct (outbox worker) as [|k] eqn:Ho; [lia|].
      assert (∃ w1 c, deliver worker (main s) = Some (w1, c)
                      ∧ inbox w1 = [] ∧ busy w1 = None ∧ outbox w1 = k)
        as (w1 & c & Hd & Hi1 & Hb1 & Ho1).
      { unfold deliver. rewrite Ho.
        destruct (listener worker); [destruct (main s)|];
          eexists; eexists; (split; [reflexivity|]); simpl; auto. }
      eexists; exists w1. simpl. rewrite Hp. simpl. rewrite Hd. simpl.
      split; [reflexivity|]. simpl.
      split; [apply (list_lookup_insert_same _ _ _ _ Hp)|].
      split; [rewrite Hi1, Hb1, Ho1; simpl; lia|].
      intros q Hq. apply list_lookup_insert_ne. congruence.
    + destruct (status worker) eqn:Hst;
        [|destruct Hexit|destruct Hexit as (_ & [=] & _)].
      exists (Start p m). eexists; eexists. simpl. rewrite Hp. simpl.
      unfold start_worker. rewrite Hst, Hb, Hi, decide_True by reflexivity.
      simpl. split; [reflexivity|]. simpl.
      split; [apply (list_lookup_insert_same _ _ _ _ Hp)|].
      split; [simpl; lia|].
      intros q Hq. apply list_lookup_insert_ne. congruence.
Qed.

(** A worker can always be run until it has nothing left to do. *)
Lemma drain_worker size sab p :
  (∀ wd, n wd = size → is_Some (views wd sab)) →
  ∀ k h s worker,
    sound size sab h s → workers s !! p = Some worker →
    (load worker <= k)%nat →
    ∃ tr s' worker',
      exec tr s = Some s' ∧ sound size sab (h ++ tr) s'
      ∧ workers s' !! p = Some worker' ∧ quiet worker'
      ∧ ∀ q, q ≠ p → workers s' !! q = workers s !! q.
Proof.
  intros Hviews k. induction k as [|k IH]; intros h s worker Hs Hp Hk.
  - exists [], s, worker. rewrite app_nil_r.
    split; [reflexivity|]. split; [exact Hs|]. split; [exact Hp|].
    split; [|auto]. unfold load, quiet in *.
    destruct (busy worker), (inbox worker); simpl in Hk; try lia.
    repeat split; lia.
  - destruct (decide (load worker = 0)%nat) as [Hz|Hnz].
    + apply (IH h s worker Hs Hp). lia.
    + destruct (progress size sab h s p worker Hs Hp)
        as (e & s1 & w1 & Hstep & Hp1 & Hlt & Hothers); [lia|].
      destruct (IH (h ++ [e]) s1 w1) as (tr & s2 & w2 & He & Hs2 & Hp2 & Hq & Ho);
        [eapply step_sound; eassumption|exact Hp1|lia|].
      exists (e :: tr), s2, w2.
      split; [rewrite exec_cons, Hstep; exact He|].
      split; [rewrite <- app_assoc in Hs2; exact Hs2|].
      split; [exact Hp2|]. split; [exact Hq|].
      intros q Hne. rewrite Ho, Hothers by exact Hne. reflexivity.
Qed.

(** All workers can be run until none has anything left to do. *)
Lemma drain_all size sab :
  (∀ wd, n wd = size → is_Some (views wd sab)) →
  ∀ j k h s,
    sound size sab h s → (k + j = base.length (workers s))%nat →
    (∀ q worker, (q < k)%nat → workers s !! q = Some worker → quiet worker) →
    ∃ tr s',
      exec tr s = Some s' ∧ sound size sab (h ++ tr) s'
      ∧ Forall quiet (workers s').
Proof.
  intros Hviews j. induction j as [|j IH]; intros k h s Hs Hk Hquiet.
  - exists [], s. rewrite app_nil_r. split; [reflexivity|]. split; [exact Hs|].
    apply Forall_lookup. intros q w Hq. apply (Hquiet q); [|exact Hq].
    apply lookup_lt_Some in Hq. lia.
  - destruct (lookup_lt_is_Some_2 (workers s) k) as [worker Hp]; [lia|].
    destruct (drain_worker size sab k Hviews (load worker) h s worker Hs Hp)
      as (tr1 & s1 & w1 & He1 & Hs1 & Hp1 & Hq1 & Ho1); [lia|].
    destruct (exec_closure _ _ _ He1) as (_ & _ & _ & Hlen & _).
    destruct (IH (S k) (h ++ tr1) s1 Hs1) as (tr2 & s2 & He2 & Hs2 & Hall);
      [lia| |].
    { intros q w Hq Hw. destruct (decide (q = k)) as [->|Hne].
      - rewrite Hp1 in Hw. injection Hw as <-. exact Hq1.
      - rewrite Ho1 in Hw by exact Hne. apply (Hquiet q); [lia|exact Hw]. }
    exists (tr1 ++ tr2), s2.
    split; [rewrite exec_app, He1; exact He2|].
    split; [rewrite app_assoc; exact Hs2|exact Hall].
Qed.

Lemma listeners_pos ws :
  (0 < listeners ws)%nat → ∃ p worker, ws !! p = Some worker ∧ listener worker = true.
Proof.
  induction ws as [|w ws IH]; simpl; [lia|]. intros H.
  destruct (listener w) eqn:Hl.
  - exists 0%nat, w. auto.
  - unfold armed in H. rewrite Hl in H.
    destruct IH as (p & worker & Hp & Hw); [lia|].
    exists (S p), worker. auto.
Qed.

Lemma terminal s :
  (∃ out, main s = Finished out) → Forall gone (workers s) →
  ∀ e, step e s = None.
Proof.
  intros [out Hmain] Hgone e. destruct e as [m|q m|q m|q|]; simpl.
  - rewrite Hmain. reflexivity.
  - destruct (workers s !! q) as [w|] eqn:Hq; [|reflexivity]. simpl.
    destruct (Forall_lookup_1 _ _ _ _ Hgone Hq) as (Hs & _).
    unfold start_worker. rewrite Hs. reflexivity.
  - destruct (workers s !! q) as [w|] eqn:Hq; [|reflexivity]. simpl.
    destruct (Forall_lookup_1 _ _ _ _ Hgone Hq) as (Hs & _).
    unfold finish_worker. rewrite Hs. reflexivity.
  - destruct (workers s !! q) as [w|] eqn:Hq; [|reflexivity]. simpl.
    destruct (Forall_lookup_1 _ _ _ _ Hgone Hq) as (_ & _ & _ & Ho).
    unfold deliver. rewrite Ho. reflexivity.
  - rewrite Hmain. reflexivity.
Qed.

(** From a state where the loop is over and no worker has anything left
    to do: the result is printed and every worker exits. *)
Lemma finish_runs cpus s :
  base.length (workers s) = cpus →
  Forall (shaped true [] false) (workers s) → main s = Ready [] →
  ∃ s' out,
    exec (Finish :: shutdown cpus) s = Some s'
    ∧ main s' = Finished out ∧ Forall gone (workers s').
Proof.
  intros Hlen Hidle Hmain.
  set (s3 := with_workers s (stopWorkers (workers s))
               (Finished (toFixed (norm (main_n s) (mem s) (main_u s)
                                     (main_v s)) 9))).
  assert (step Finish s = Some s3) as E3
    by (unfold step; rewrite Hmain; reflexivity).
  destruct (shutdown_runs cpus s3) as (s4 & E4 & Hgone & Hmain4 & _).
  { unfold s3, stopWorkers. simpl. rewrite length_fmap. exact Hlen. }
  { unfold s3, stopWorkers. simpl. apply Forall_fmap.
    eapply Forall_impl; [exact Hidle|].
    intros w (Hd & Hb & Hi & Ho & Hs & Hl). unfold shaped. simpl.
    rewrite Hi. auto 10. }
  exists s4. eexists. split; [rewrite exec_cons, E3; exact E4|].
  split; [exact Hmain4|exact Hgone].
Qed.

(** X10.  For an integer [n] the program cannot get stuck.  With at least
    one worker, every run, whatever it has done so far, can be continued
    to a state where the result is printed, every worker has taken [Exit]
    and left (lines 71, 122-124 and 157-158) with nothing queued in either
    direction, and no further step is possible. *)
Theorem every_run_can_finish (z : Z) (cpus : nat) (s0 s : System)
    (tr : list Event) :
  mainThread (Int z) cpus = Some s0 → (0 < cpus)%nat →
  exec tr s0 = Some s →
  ∃ tr' s' out,
    exec tr' s = Some s'
    ∧ main s' = Finished out
    ∧ Forall gone (workers s')
    ∧ ∀ e, step e s' = None.
Proof.
  intros H0 Hcpus Hexec.
  destruct (run_sound (Int z) cpus s0 tr s H0 Hexec) as (sab & Hviews & Hs).
  destruct (mainThread_workers (Int z) cpus s0 tr s H0 Hexec) as (Hlen & _).
  destruct (drain_all (Int z) sab Hviews (base.length (workers s)) 0 tr s Hs)
    as (tr1 & s1 & He1 & Hs1 & Hquiet); [lia|intros q w Hq; lia|].
  destruct (exec_closure _ _ _ He1) as (_ & _ & _ & Hlen1 & _).
  rewrite Hlen in Hlen1.
  destruct Hs1 as ([Hw Hc] & Hall & Hl & Hwait).
  assert (∀ p w, workers s1 !! p = Some w →
            busy w = None ∧ inbox w = [] ∧ outbox w = 0%nat
            ∧ count (is_deliver p) (tr ++ tr1) = count is_dispatch (tr ++ tr1))
    as Hdone.
  { intros p w Hp.
    destruct (Forall_lookup_1 _ _ _ _ Hquiet Hp) as (Hb & Hi & Ho).
    do 3 (split; [assumption|]).
    destruct (Hw p w Hp) as (H1 & H2 & _).
    destruct (Hl p w Hp) as [H3 _].
    unfold busy_unit in H2. rewrite Hb in H2. rewrite Hi in H1.
    rewrite Ho in H3. simpl in H1. unfold units_in in H1. simpl in H1. lia. }
  destruct (main s1) as [todo|wait todo|out] eqn:Hmain.
  - (* the loop goes on *)
    assert (Forall (shaped true [] false) (workers s1)) as Hidle.
    { apply Forall_lookup. intros p w Hp.
      destruct (Hdone p w Hp) as (Hb & Hi & Ho & _).
      destruct (Hw p w Hp) as (_ & _ & _ & _ & Hlis).
      destruct (Hl p w Hp) as [_ Hexit]. unfold exit_ok in Hexit.
      destruct (Forall_lookup_1 _ _ _ _ Hall Hp) as (_ & _ & Hd).
      rewrite Hb, Hi in Hd.
      unfold shaped. split; [|do 3 (split; [assumption|])].
      - destruct (data w); [eauto|]. destruct Hd as (rest & [=] & _).
      - split; [|exact Hlis].
        destruct (status w); [reflexivity|destruct Hexit|].
        destruct Hexit as (_ & _ & out & [=]). }
    destruct (rounds_run_idle cpus todo s1) as (s2 & E2 & Hidle2 & Hmain2);
      try assumption.
    { simpl in Hc. apply (iterations_units _ _ Hc). }
    destruct (exec_closure _ _ _ E2) as (_ & _ & _ & Hlen2 & _).
    destruct (finish_runs cpus s2) as (s3 & out & E3 & Hmain3 & Hgone);
      try assumption; [congruence|].
    exists (tr1 ++ (todo ≫= round cpus) ++ Finish :: shutdown cpus), s3, out.
    split; [rewrite exec_app, He1, exec_some, exec_app, E2; exact E3|].
    split; [exact Hmain3|]. split; [exact Hgone|].
    apply terminal; eauto.
  - (* a pending promise with every completion delivered: impossible *)
    exfalso. destruct Hc as [_ Hwt].
    destruct Hwait as [Hpos|Hnil].
    + destruct (listeners_pos (workers s1)) as (p & w & Hp & Hlis); [lia|].
      destruct (Hdone p w Hp) as (_ & _ & _ & E).
      destruct (Hw p w Hp) as (_ & _ & _ & H4 & _).
      unfold armed in H4. rewrite Hlis in H4. lia.
    + rewrite Hnil in Hlen1. simpl in Hlen1. lia.
  - (* the result is printed *)
    assert (Forall gone (workers s1)) as Hgone.
    { apply Forall_lookup. intros p w Hp.
      destruct (Hdone p w Hp) as (Hb & Hi & Ho & _).
      destruct (Hl p w Hp) as [_ Hexit]. unfold exit_ok in Hexit.
      unfold gone. split; [|auto].
      destruct (status w); [|destruct Hexit|reflexivity].
      destruct Hexit as [[Hb' _]|[_ (queue & Hq & _)]]; [congruence|].
      rewrite Hi in Hq. destruct queue; discriminate. }
    exists tr1, s1, out. split; [exact He1|]. split; [exact Hmain|].
    split; [exact Hgone|]. apply terminal; eauto.
Qed.

Lemma every_run_can_finish_witness :
  let tr := boot 2 {| byteLength := 48 |}
            ++ [Dispatch (Au U W); Start 1 (Au U W)] in
  ∃ s0 s,
    mainThread (Int 2) 2 = Some s0 ∧ exec tr s0 = Some s
    ∧ ∃ tr' s' out,
        exec tr' s = Some s' ∧ main s' = Finished out
        ∧ Forall gone (workers s') ∧ ∀ e, step e s' = None.
Proof.
  intros tr.
  destruct (mainThread (Int 2) 2) as [s0|] eqn:H0;
    [|vm_compute in H0; discriminate H0].
  destruct (exec tr s0) as [s|] eqn:H1.
  - exists s0, s. do 2 (split; [reflexivity || assumption|]).
    apply (every_run_can_finish 2 2 s0 s tr H0); [lia|exact H1].
  - exfalso.
    assert (mainThread (Int 2) 2 ≫= exec tr = None) as E
      by (rewrite H0; exact H1).
    vm_compute in E. discriminate E.
Defined.

(** X12.  With no processor reported ([os.cpus()] empty) there is no worker
    and [work] (lines 106-120) returns a promise that nobody resolves: the
    program dispatches the first unit to nobody and can do nothing more.
    Every run is empty or that one dispatch, and nothing is ever printed. *)
Theorem no_cpus_never_prints (size : number) (s0 s : System)
    (tr : list Event) :
  mainThread size 0 = Some s0 → exec tr s0 = Some s →
  (tr = [] ∨ tr = [Dispatch (Au U W)])
  ∧ workers s = []
  ∧ (∀ out, main s ≠ Finished out)
  ∧ (tr ≠ [] → ∀ e, step e s = None).
Proof.
  intros H0 Hexec.
  apply mainThread_Some in H0 as (sab & m & x & y & _ & _ & _ & ->).
  destruct tr as [|e tr].
  - injection Hexec as <-. simpl.
    split; [auto|]. split; [reflexivity|]. split; [discriminate|].
    intros H. destruct (H eq_refl).
  - rewrite exec_cons in Hexec.
    destruct e as [message|q message|q message|q|]; try discriminate.
    unfold step in Hexec. simpl in Hexec.
    destruct (decide (Au U W = message)) as [<-|]; [|discriminate].
    rewrite exec_some in Hexec.
    destruct tr as [|e tr].
    + injection Hexec as <-. simpl.
      split; [auto|]. split; [reflexivity|]. split; [discriminate|].
      intros _ [| | | |]; reflexivity.
    + rewrite exec_cons in Hexec. destruct e; discriminate.
Qed.

Lemma no_cpus_never_prints_witness :
  ∃ s0 s,
    mainThread (Int 2) 0 = Some s0 ∧ exec [Dispatch (Au U W)] s0 = Some s
    ∧ workers s = []
    ∧ (∀ out, main s ≠ Finished out)
    ∧ ∀ e, step e s = None.
Proof.
  destruct (mainThread (Int 2) 0) as [s0|] eqn:H0;
    [|vm_compute in H0; discriminate H0].
  destruct (exec [Dispatch (Au U W)] s0) as [s|] eqn:H1.
  - exists s0, s. do 2 (split; [reflexivity || assumption|]).
    destruct (no_cpus_never_prints (Int 2) s0 s [Dispatch (Au U W)] H0 H1)
      as (_ & Hw & Hout & Hstuck).
    split; [exact Hw|]. split; [exact Hout|]. apply Hstuck. discriminate.
  - exfalso.
    assert (mainThread (Int 2) 0 ≫= exec [Dispatch (Au U W)] = None) as E
      by (rewrite H0; exact H1).
    vm_compute in E. discriminate E.
Defined.

(** X13.  For [n = 0] the buffer is empty, the sums of lines 73-78 are
    both 0, and every run that prints, prints [NaN], the [toFixed] of
    [sqrt(0 / 0)]. *)
Theorem empty_problem_prints_NaN (cpus : nat) (s0 s : System)
    (tr : list Event) (out : Rendered) :
  mainThread (Int 0) cpus = Some s0 → exec tr s0 = Some s →
  main s = Finished out →
  mem s = [] ∧ out = Text "NaN".
Proof.
  intros H0 Hexec Hout.
  destruct (mainThread_uv 0 cpus s0 H0) as (_ & _ & Hlen).
  destruct (exec_closure _ _ _ Hexec) as (Hn & _ & _ & _ & Hm).
  destruct (mainThread_views _ cpus s0 H0) as (_ & _ & Hmain & Hn0 & _).
  split.
  - apply nil_length_inv. rewrite Hm, Hlen. reflexivity.
  - destruct (exec_output tr s0 s Hexec) with (out := out) as [m ->];
      [|exact Hout|].
    + intros out0 Hf. rewrite Hmain in Hf. discriminate Hf.
    + rewrite Hn, Hn0. reflexivity.
Qed.

Lemma empty_problem_prints_NaN_witness :
  let tr := schedule 1 {| byteLength := 0 |} in
  ∃ s0 s out,
    mainThread (Int 0) 1 = Some s0 ∧ exec tr s0 = Some s
    ∧ main s = Finished out ∧ mem s = [] ∧ out = Text "NaN".
Proof.
  intros tr.
  destruct (mainThread (Int 0) 1) as [s0|] eqn:H0;
    [|vm_compute in H0; discriminate H0].
  assert ((mainThread (Int 0) 1 ≫= exec tr) ≫= (fun s => Some (main s))
          = Some (Finished (Text "NaN"))) as E by (vm_compute; reflexivity).
  rewrite H0 in E. cbn [mbind option_bind] in E.
  destruct (exec tr s0) as [s|] eqn:H1; [|discriminate E].
  cbn [mbind option_bind] in E. injection E as E.
  exists s0, s. eexists.
  do 2 (split; [reflexivity || assumption|]). split; [exact E|].
  exact (empty_problem_prints_NaN 1 s0 s tr _ H0 H1 E).
Defined.

(** ** Every worker runs every unit, in the order of the loop *)

Lemma done_by_snoc p h e :
  done_by p (h ++ [e])
  = done_by p h ++ match e with
                   | Done q m =>
                       if bool_decide (q = p) && is_unit m then [m] else []
                   | _ => []
                   end.
Proof.
  unfold done_by. rewrite omap_app. f_equal.
  destruct e as [|?|q m| |]; try reflexivity.
  simpl. destruct (bool_decide (q = p) && is_unit m); reflexivity.
Qed.

Lemma step_fifo h e s s' :
  inv h s → fifo h s → step e s = Some s' → fifo (h ++ [e]) s'.
Proof.
  intros [_ Hc] Hf Hstep. destruct e as [m | q m | q m | q | ]; simpl in Hstep.
  - destruct (main s) as [[|m0 todo]| |] eqn:Hmain; try discriminate.
    destruct (decide (m0 = m)) as [->|]; [|discriminate].
    rewrite work_spec in Hstep. injection Hstep as <-.
    simpl in Hc. pose proof (iterations_units _ _ Hc) as Hunits.
    apply Forall_cons in Hunits as [Hm _].
    intros p worker' Hp. simpl in Hp. rewrite list_lookup_fmap in Hp.
    apply fmap_Some in Hp as (worker & Hp & ->).
    rewrite done_by_snoc, dispatches_snoc, app_nil_r, <- (Hf p worker Hp).
    unfold running_unit. simpl. rewrite List.filter_app, !app_assoc.
    simpl. rewrite Hm. reflexivity.
  - destruct (workers s !! q) as [w0|] eqn:Hq; [|discriminate]. simpl in Hstep.
    destruct (start_worker w0 m) as [w1|] eqn:Hs; [|discriminate].
    injection Hstep as <-.
    unfold start_worker in Hs.
    destruct (status w0) eqn:Hst; try discriminate.
    destruct (busy w0) eqn:Hb; try discriminate.
    destruct (inbox w0) as [|m0 rest] eqn:Hi; try discriminate.
    destruct (decide (m0 = m)) as [->|]; [|discriminate].
    injection Hs as <-.
    intros p worker Hp. simpl in Hp.
    rewrite done_by_snoc, dispatches_snoc, !app_nil_r.
    destruct (decide (p = q)) as [->|Hne].
    + rewrite (list_lookup_insert_same _ _ _ _ Hq) in Hp. injection Hp as <-.
      rewrite <- (Hf q w0 Hq). unfold running_unit. simpl. rewrite Hb, Hi.
      simpl. destruct (is_unit m); reflexivity.
    + rewrite list_lookup_insert_ne in Hp by congruence. apply Hf, Hp.
  - destruct (workers s !! q) as [w0|] eqn:Hq; [|discriminate]. simpl in Hstep.
    destruct (finish_worker w0 m (mem s)) as [[w1 m1]|] eqn:Hfin;
      [|discriminate].
    simpl in Hstep. injection Hstep as <-.
    unfold finish_worker in Hfin.
    destruct (status w0) eqn:Hst; try discriminate.
    destruct (busy w0) as [b|] eqn:Hb; try discriminate.
    destruct (decide (b = m)) as [->|]; [|discriminate].
    assert (inbox w1 = inbox w0 ∧ busy w1 = None) as [Ei Eb].
    { destruct (onMessage (wdata w0) (data w0) (mem s) m);
        injection Hfin as <- <-; auto. }
    intros p worker Hp. simpl in Hp.
    rewrite done_by_snoc, dispatches_snoc, app_nil_r.
    destruct (decide (p = q)) as [->|Hne].
    + rewrite (list_lookup_insert_same _ _ _ _ Hq) in Hp. injection Hp as <-.
      rewrite <- (Hf q w0 Hq). unfold running_unit. rewrite Eb, Ei, Hb.
      rewrite bool_decide_true by reflexivity. simpl.
      destruct (is_unit m); simpl; rewrite ?app_nil_r; [|reflexivity].
      rewrite <- app_assoc. reflexivity.
    + rewrite list_lookup_insert_ne in Hp by congruence.
      rewrite bool_decide_false by congruence. simpl. rewrite app_nil_r.
      apply Hf, Hp.
  - destruct (workers s !! q) as [w0|] eqn:Hq; [|discriminate]. simpl in Hstep.
    destruct (deliver w0 (main s)) as [[w1 c]|] eqn:Hd; [|discriminate].
    injection Hstep as <-.
    unfold deliver in Hd. destruct (outbox w0) as [|k]; [discriminate|].
    assert (inbox w1 = inbox w0 ∧ busy w1 = busy w0) as [Ei Eb].
    { destruct (listener w0); [destruct (main s)|];
        try destruct (_ =? _); injection Hd as <- _; auto. }
    intros p worker Hp. simpl in Hp.
    rewrite done_by_snoc, dispatches_snoc, !app_nil_r.
    destruct (decide (p = q)) as [->|Hne].
    + rewrite (list_lookup_insert_same _ _ _ _ Hq) in Hp. injection Hp as <-.
      rewrite <- (Hf q w0 Hq). unfold running_unit. rewrite Eb, Ei.
      reflexivity.
    + rewrite list_lookup_insert_ne in Hp by congruence. apply Hf, Hp.
  - destruct (main s) as [[|? ?]| |] eqn:Hmain; try discriminate.
    injection Hstep as <-.
    intros p worker' Hp. simpl in Hp. unfold stopWorkers in Hp.
    rewrite list_lookup_fmap in Hp.
    apply fmap_Some in Hp as (worker & Hp & ->).
    rewrite done_by_snoc, dispatches_snoc, !app_nil_r, <- (Hf p worker Hp).
    unfold running_unit. simpl. rewrite List.filter_app. simpl.
    rewrite app_nil_r. reflexivity.
Qed.

Lemma exec_fifo tr h s s' :
  inv h s → fifo h s → exec tr s = Some s' → fifo (h ++ tr) s'.
Proof.
  revert h s. induction tr as [|e tr IH]; intros h s Hi Hf He.
  - injection He as <-. rewrite app_nil_r. exact Hf.
  - rewrite exec_cons in He.
    destruct (step e s) as [s1|] eqn:Hstep; [|discriminate].
    rewrite exec_some in He.
    replace (h ++ e :: tr) with ((h ++ [e]) ++ tr)
      by (rewrite <- app_assoc; reflexivity).
    apply (IH (h ++ [e]) s1); [eapply step_inv; eassumption| |exact He].
    eapply step_fifo; eassumption.
Qed.

Lemma run_fifo size cpus s0 tr s :
  mainThread size cpus = Some s0 → exec tr s0 = Some s → fifo tr s.
Proof.
  intros H0 Hexec.
  apply (exec_fifo tr [] s0 s); [eapply inv_init, H0| |exact Hexec].
  destruct (mainThread_views size cpus s0 H0) as (sab & Hws & _).
  intros p worker Hp. rewrite Hws in Hp.
  apply startWorkers_lookup in Hp as [_ ->]. reflexivity.
Qed.

(** X14.  Every worker runs every unit, once, in the order of the loop.
    In every run, the units whose callbacks have ended at worker [p] are,
    in order, a prefix of the units dispatched, which are a prefix of the
    10 times 4 units of the loop; at a barrier worker [p] has finished
    all units dispatched so far, and when the result is printed it has
    finished all 40. *)
Theorem each_worker_runs_the_units_in_order (size : number) (cpus : nat)
    (s0 s : System) (tr : list Event) (p : nat) :
  mainThread size cpus = Some s0 → exec tr s0 = Some s → (p < cpus)%nat →
  done_by p tr `prefix_of` dispatches tr
  ∧ dispatches tr `prefix_of` iterations
  ∧ (∀ todo, main s = Ready todo → done_by p tr = dispatches tr)
  ∧ (∀ out, main s = Finished out → done_by p tr = iterations).
Proof.
  intros H0 Hexec Hp.
  pose proof (run_fifo size cpus s0 tr s H0 Hexec) as Hf.
  destruct (run_inv size cpus s0 tr s H0 Hexec) as [Hw Hc].
  destruct (mainThread_workers size cpus s0 tr s H0 Hexec) as (Hlen & _).
  destruct (lookup_lt_is_Some_2 (workers s) p) as [worker Hq]; [lia|].
  specialize (Hf p worker Hq). pose proof (Hw p worker Hq) as Ht.
  assert (listener worker = false → done_by p tr = dispatches tr) as Hidle.
  { intros Hl. destruct (worker_idle _ _ _ _ Ht Hl) as [Hi Hb].
    rewrite <- Hf. unfold running_unit, busy_unit, units_in in *.
    apply nil_length_inv in Hi. rewrite Hi.
    destruct (busy worker) as [m|]; [destruct (is_unit m); [discriminate|]|];
      rewrite !app_nil_r; reflexivity. }
  split; [eexists; symmetry; exact Hf|].
  split; [eapply inv_prefix; split; eassumption|].
  split.
  - intros todo E. apply Hidle. rewrite E in Ht. apply Ht.
  - intros out E. rewrite E in Ht, Hc. simpl in Hc. rewrite <- Hc.
    apply Hidle. apply Ht.
Qed.

Lemma each_worker_runs_the_units_in_order_witness :
  let tr := boot 2 {| byteLength := 48 |} ++ round 2 (Au U W)
            ++ [Dispatch (Atu W V); Start 1 (Atu W V); Done 1 (Atu W V)] in
  ∃ s0 s,
    mainThread (Int 2) 2 = Some s0 ∧ exec tr s0 = Some s
    ∧ done_by 1 tr = [Au U W; Atu W V]
    ∧ done_by 1 tr `prefix_of` dispatches tr
    ∧ dispatches tr `prefix_of` iterations
    ∧ (∀ todo, main s = Ready todo → done_by 1 tr = dispatches tr)
    ∧ (∀ out, main s = Finished out → done_by 1 tr = iterations).
Proof.
  intros tr.
  destruct (mainThread (Int 2) 2) as [s0|] eqn:H0;
    [|vm_compute in H0; discriminate H0].
  destruct (exec tr s0) as [s|] eqn:H1.
  - exists s0, s. do 2 (split; [reflexivity || assumption|]).
    split; [reflexivity|].
    apply (each_worker_runs_the_units_in_order (Int 2) 2 s0 s tr 1 H0 H1). lia.
  - exfalso.
    assert (mainThread (Int 2) 2 ≫= exec tr = None) as E
      by (rewrite H0; exact H1).
    vm_compute in E. discriminate E.
Defined.

Lemma idle_done_by h s p worker :
  inv h s → fifo h s → workers s !! p = Some worker →
  listener worker = false → done_by p h = dispatches h.
Proof.
  intros [Hw _] Hf Hq Hl.
  specialize (Hf p worker Hq). pose proof (Hw p worker Hq) as Ht.
  destruct (worker_idle _ _ _ _ Ht Hl) as [Hi Hb].
  rewrite <- Hf. unfold running_unit, busy_unit, units_in in *.
  apply nil_length_inv in Hi. rewrite Hi.
  destruct (busy worker) as [m|]; [destruct (is_unit m); [discriminate|]|];
    rewrite !app_nil_r; reflexivity.
Qed.

(** X15.  [Exit] is posted last and only when all the work is done (lines
    71 and 122-124).  In every run for an integer [n]: if a worker has
    [Exit] in its queue, is handling it, or has left, then all 40 units
    of the loop were dispatched and every worker has finished all 40, in
    order; and a worker is in one of three states: it has taken [Exit]
    and left, with an empty queue; it is handling [Exit], with an empty
    queue; or it is alive and [Exit], if posted at all, is the last
    message of its queue and there once. *)
Theorem workers_leave_only_at_the_end (z : Z) (cpus : nat)
    (s0 s : System) (tr : list Event) (p : nat) (worker : Worker) :
  mainThread (Int z) cpus = Some s0 → exec tr s0 = Some s →
  workers s !! p = Some worker →
  (status worker = Exited ∨ busy worker = Some Exit ∨ Exit ∈ inbox worker →
   dispatches tr = iterations
   ∧ ∀ q, (q < cpus)%nat → done_by q tr = iterations)
  ∧ ((status worker = Exited ∧ busy worker = None ∧ inbox worker = [])
     ∨ (status worker = Running ∧ busy worker = Some Exit
        ∧ inbox worker = [])
     ∨ (status worker = Running ∧ busy worker ≠ Some Exit
        ∧ (Exit ∉ inbox worker
           ∨ ∃ queue, inbox worker = queue ++ [Exit] ∧ Exit ∉ queue))).
Proof.
  intros H0 Hexec Hp.
  destruct (run_sound (Int z) cpus s0 tr s H0 Hexec)
    as (sab & _ & Hinv & _ & Hl & _).
  pose proof (run_fifo (Int z) cpus s0 tr s H0 Hexec) as Hf.
  destruct (mainThread_workers (Int z) cpus s0 tr s H0 Hexec) as (Hlen & _).
  destruct (Hl p worker Hp) as [_ Hexit]. unfold exit_ok in Hexit.
  assert (∀ out, main s = Finished out →
            dispatches tr = iterations
            ∧ ∀ q, (q < cpus)%nat → done_by q tr = iterations) as Hend.
  { intros out E. pose proof Hinv as [Hw Hc]. rewrite E in Hc. simpl in Hc.
    split; [exact Hc|]. intros q Hq.
    destruct (lookup_lt_is_Some_2 (workers s) q) as [wq Hwq]; [lia|].
    rewrite <- Hc. apply (idle_done_by tr s q wq Hinv Hf Hwq).
    specialize (Hw q wq Hwq). rewrite E in Hw. apply Hw. }
  split.
  - intros Hposted. destruct (status worker) eqn:Hs.
    + destruct (main s) as [todo|wait todo|out] eqn:E; [| |eauto].
      * destruct Hexit as [Hb Hi].
        destruct Hposted as [?|[?|?]]; [discriminate|tauto..].
      * destruct Hexit as [Hb Hi].
        destruct Hposted as [?|[?|?]]; [discriminate|tauto..].
    + destruct Hexit.
    + destruct Hexit as (_ & _ & out & E). eauto.
  - destruct (status worker).
    + destruct (main s).
      * right; right. tauto.
      * right; right. tauto.
      * destruct Hexit as [?|[? ?]]; [right; left|right; right]; tauto.
    + destruct Hexit.
    + left. tauto.
Qed.

Lemma workers_leave_only_at_the_end_witness :
  let tr := schedule 1 {| byteLength := 24 |} in
  ∃ s0 s worker,
    mainThread (Int 1) 1 = Some s0 ∧ exec tr s0 = Some s
    ∧ workers s !! 0%nat = Some worker
    ∧ inbox worker = [Exit]
    ∧ dispatches tr = iterations
    ∧ (∀ q, (q < 1)%nat → done_by q tr = iterations)
    ∧ status worker = Running ∧ busy worker ≠ Some Exit
    ∧ ∃ queue, inbox worker = queue ++ [Exit] ∧ Exit ∉ queue.
Proof.
  intros tr.
  destruct (mainThread (Int 1) 1) as [s0|] eqn:H0;
    [|vm_compute in H0; discriminate H0].
  assert ((mainThread (Int 1) 1 ≫= exec tr)
          ≫= (fun s => worker ← workers s !! 0%nat; Some (inbox worker))
          = Some [Exit]) as E
    by (vm_compute; reflexivity).
  rewrite H0 in E. cbn [mbind option_bind] in E.
  destruct (exec tr s0) as [s|] eqn:H1; [|discriminate E].
  cbn [mbind option_bind] in E.
  destruct (workers s !! 0%nat) as [worker|] eqn:H2; [|discriminate E].
  cbn [mbind option_bind] in E. injection E as E.
  exists s0, s, worker. do 4 (split; [reflexivity || assumption|]).
  destruct (workers_leave_only_at_the_end 1 1 s0 s tr 0 worker H0 H1 H2)
    as [Hall Hstate].
  destruct Hall as [Hd Hq];
    [right; right; rewrite E; apply list_elem_of_here|].
  split; [exact Hd|]. split; [exact Hq|].
  rewrite E in Hstate.
  destruct Hstate as [(_ & _ & Hi)|[(_ & _ & Hi)|(Hs & Hb & [Hi|Hi])]];
    [discriminate Hi|discriminate Hi| |].
  - exfalso. apply Hi, list_elem_of_here.
  - split; [exact Hs|]. split; [exact Hb|]. rewrite E. exact Hi.
Defined.

(** ** The denominators are all different *)

Lemma a_small i j :
  0 <= i → 0 <= j → i + j < 65536 →
  2 * (a i j - i - 1) = (i + j) * (i + j + 1).
Proof.
  intros Hi Hj Hij. rewrite a_unfold.
  pose proof (product_small (i + j) ltac:(lia)) as Hp.
  rewrite round53_exact by lia. rewrite Z.mod_small by lia.
  assert (((i + j) * (i + j + 1)) mod 2 = 0) as Hev.
  { rewrite Z.mul_mod by lia.
    assert ((i + j) mod 2 = 0 ∨ (i + j) mod 2 = 1) as [E|E]
      by (pose proof (Z.mod_pos_bound (i + j) 2); lia).
    - rewrite E. reflexivity.
    - replace (i + j + 1) with (i + j - 1 + 1 * 2) by lia.
      rewrite Z.mod_add by lia.
      assert ((i + j - 1) mod 2 = 0) as ->; [|rewrite Z.mul_0_r; reflexivity].
      rewrite Zminus_mod, E. reflexivity. }
  apply Z.div_exact in Hev; lia.
Qed.

(** X16.  [a] (lines 182-184) numbers the index pairs: while [i + j] stays
    below 65536, two different pairs of non-negative indices have
    different values of [a], so no two entries of the matrix have the same
    denominator. *)
Theorem a_injective (i j i' j' : Z) :
  0 <= i → 0 <= j → 0 <= i' → 0 <= j' →
  i + j < 65536 → i' + j' < 65536 →
  a i j = a i' j' → i = i' ∧ j = j'.
Proof.
  intros Hi Hj Hi' Hj' Hs Hs' E.
  pose proof (a_small i j Hi Hj Hs) as H1.
  pose proof (a_small i' j' Hi' Hj' Hs') as H2.
  assert (i + j = i' + j') as Hsum.
  { destruct (Z.lt_trichotomy (i + j) (i' + j')) as [Hlt|[Heq|Hgt]];
      [exfalso|exact Heq|exfalso]; nia. }
  rewrite <- Hsum in H2. lia.
Qed.

Lemma a_injective_witness : a 2 3 = 18 ∧ (2 = 2 ∧ 3 = 3).
Proof.
  split; [reflexivity|]. apply (a_injective 2 3 2 3); first [lia|reflexivity].
Defined.
